(** * The event-to-alert pipeline of the Solana meme-coin monitor

    A shallow embedding of the deduplication cache ([src/utils/dedupe.js]),
    the event normalizer ([src/helius.js]: secret check, classification,
    swap, pool and token extraction), the windowed metrics aggregator and
    the ranking ([getSwapMetrics] and [getTopScoredTokens] of
    [src/supabase.js]), the scoring engine and alert decision
    ([src/scoring/score.js] with the tables and labels of
    [src/scoring/rules.js]), the alert dispatch ([sendTokenAlert] of the
    Telegram bot, [scoreToken] and [scoreBatch] of the scoring worker), the
    pure parts of the enrichment worker (holder distribution, best pool,
    retries) and the Markdown escaping of [src/telegram/format.js],
    followed by the properties proved about them.

    Modelling conventions.
    - A JavaScript number is an exact rational ([Q]) or, where the source
      only ever holds integers, an integer ([Z]); there is no NaN, no
      infinity and no rounding error.
    - [null], [undefined] and a missing property are all [None].
    - A timestamp (an ISO string in the source) is its epoch value in
      milliseconds; the clock ([Date.now()], [new Date()]) is an explicit
      argument [now].
    - An exception is the [Throw] constructor of [Js.result].
    - The insertion-ordered [Map] of the LRU cache is an association list in
      insertion order; a [Set] of wallet addresses is a [gset string]; the
      [alerts] table is a [gmap] keyed by mint. *)

From Stdlib Require Import ZArith QArith Qround String Ascii List Bool Lia.
From Stdlib Require Import Permutation Sorted OrderedTypeEx Lqa.
From stdpp Require Import base list gmap strings sorting.
Import ListNotations.

Local Open Scope string_scope.
Local Open Scope list_scope.
Local Open Scope Z_scope.

(* ===================================================================== *)
(** * JavaScript helpers *)
(* ===================================================================== *)

Module Js.

(** The outcome of a computation that may throw. *)
Inductive result (A : Type) : Type :=
| Ok (a : A)
| Throw (e : string).
Arguments Ok {A} a.
Arguments Throw {A} e.

#[global] Instance result_ret : MRet result := fun A a => Ok a.

#[global] Instance result_bind : MBind result := fun A B k m =>
  match m with
  | Ok a => k a
  | Throw e => Throw e
  end.

(** [o.f] : reading a property of [null] or [undefined] throws. *)
Definition member {R A} (o : option R) (f : R -> A) : result A :=
  match o with
  | Some r => Ok (f r)
  | None => Throw "TypeError"
  end.

(** [o?.f] : optional chaining yields [undefined] instead. *)
Definition opt_member {R A} (o : option R) (f : R -> option A) : option A :=
  match o with
  | Some r => f r
  | None => None
  end.

(** Truthiness of a number-or-absent value: [0] and absent are falsy. *)
Definition truthy_num (v : option Q) : bool :=
  match v with
  | Some q => negb (Qeq_bool q 0)
  | None => false
  end.

(** Truthiness of a string-or-absent value: [""] and absent are falsy. *)
Definition truthy_str (v : option string) : bool :=
  match v with
  | Some s => negb (String.eqb s "")
  | None => false
  end.

(** [a || b] on number-or-absent values. *)
Definition or_num (a b : option Q) : option Q :=
  if truthy_num a then a else b.

(** [a || 0]. *)
Definition or_zero (a : option Q) : Q :=
  match a with
  | Some q => if Qeq_bool q 0 then 0%Q else q
  | None => 0%Q
  end.

(** [a || b] on string-or-absent values. *)
Definition or_str (a b : option string) : option string :=
  if truthy_str a then a else b.

(** [a === b] on string-or-absent values. *)
Definition strict_eq (a b : option string) : bool :=
  match a, b with
  | Some x, Some y => String.eqb x y
  | None, None => true
  | _, _ => false
  end.

(** [Math.round]: the nearest integer, halves rounded up. *)
Definition Math_round (x : Q) : Z := Qfloor (x + (1 # 2)).

(** [Math.abs] on integers. *)
Definition Math_abs (x : Z) : Z := Z.abs x.

(** [Array.prototype.sort()] without a comparator on an array of strings:
    ascending by code unit.  Insertion from the right keeps equal keys in
    their original order, as the (stable) source sort does. *)
Fixpoint sort_insert (x : string) (l : list string) : list string :=
  match l with
  | [] => [x]
  | y :: l' => if String.leb x y then x :: l else y :: sort_insert x l'
  end.

Fixpoint sort (l : list string) : list string :=
  match l with
  | [] => []
  | x :: l' => sort_insert x (sort l')
  end.

(** Equality of two arrays of strings, as the comparison of their
    [JSON.stringify] images decides it. *)
Fixpoint array_eqb (a b : list string) : bool :=
  match a, b with
  | [], [] => true
  | x :: a', y :: b' => String.eqb x y && array_eqb a' b'
  | _, _ => false
  end.

End Js.

(* ===================================================================== *)
(** * utils/dedupe.js *)
(* ===================================================================== *)

Module Dedupe.

(** The built-in [Map], in insertion order. *)
Definition JsMap := list (string * bool).

Definition map_has (key : string) (m : JsMap) : bool :=
  existsb (fun e => String.eqb (fst e) key) m.

Fixpoint map_get (key : string) (m : JsMap) : option bool :=
  match m with
  | [] => None
  | (k, v) :: m' => if String.eqb k key then Some v else map_get key m'
  end.

Fixpoint map_delete (key : string) (m : JsMap) : JsMap :=
  match m with
  | [] => []
  | (k, v) :: m' =>
      if String.eqb k key then map_delete key m' else (k, v) :: map_delete key m'
  end.

(** [Map.set]: an existing key keeps its position, a new one goes last. *)
Fixpoint map_set (key : string) (value : bool) (m : JsMap) : JsMap :=
  match m with
  | [] => [(key, value)]
  | (k, v) :: m' =>
      if String.eqb k key then (k, value) :: m' else (k, v) :: map_set key value m'
  end.

Definition map_size (m : JsMap) : nat := length m.

(** [m.keys().next().value] *)
Definition map_first_key (m : JsMap) : option string :=
  match m with
  | [] => None
  | (k, _) :: _ => Some k
  end.

(** [Map.delete] of a key that may be [undefined] (no entry has it). *)
Definition map_delete_opt (key : option string) (m : JsMap) : JsMap :=
  match key with
  | Some k => map_delete k m
  | None => m
  end.

Record LRUCache : Type := mkLRU {
  maxSize : nat;
  cache : JsMap;
}.

(** [new LRUCache(maxSize)] *)
Definition new_cache (n : nat) : LRUCache := mkLRU n [].

(** [LRUCache.has]: returns the answer and the cache after the call.
    [map_get] finds a value whenever [map_has] holds, so the last branch is
    never taken. *)
Definition has (key : string) (c : LRUCache) : bool * LRUCache :=
  if negb (map_has key (cache c)) then (false, c)
  else
    match map_get key (cache c) with
    | Some value =>
        (true, mkLRU (maxSize c) (map_set key value (map_delete key (cache c))))
    | None => (true, c)
    end.

(** [LRUCache.add(key, value = true)] *)
Definition add (key : string) (value : bool) (c : LRUCache) : LRUCache :=
  let m1 :=
    if map_has key (cache c) then map_delete key (cache c)
    else if (maxSize c <=? map_size (cache c))%nat
         then map_delete_opt (map_first_key (cache c)) (cache c)
         else cache c in
  mkLRU (maxSize c) (map_set key value m1).

Definition size (c : LRUCache) : nat := map_size (cache c).

(** [hasSeenSignature], on the signature cache. *)
Definition hasSeenSignature (signature : string) (c : LRUCache) : bool * LRUCache :=
  has signature c.

(** [markSignatureSeen] *)
Definition markSignatureSeen (signature : string) (c : LRUCache) : LRUCache :=
  add signature true c.

(** [checkAndMarkSignature] *)
Definition checkAndMarkSignature (signature : string) (c : LRUCache)
  : bool * LRUCache :=
  let (seen, c1) := has signature c in
  if seen then (false, c1) else (true, add signature true c1).

(** The signature cache as the module creates it. *)
Definition signatureCache : LRUCache := new_cache (Z.to_nat 50000).

(** A sequence of [checkAndMarkSignature] calls, oldest first. *)
Fixpoint checkAndMark_all (keys : list string) (c : LRUCache)
  : list bool * LRUCache :=
  match keys with
  | [] => ([], c)
  | k :: keys' =>
      let (b, c1) := checkAndMarkSignature k c in
      let (bs, c2) := checkAndMark_all keys' c1 in
      (b :: bs, c2)
  end.

(** The eviction order: keys from least to most recently used. *)
Definition keys (c : LRUCache) : list string := map fst (cache c).

(** A [Map] holds each key once. *)
Definition wf (c : LRUCache) : Prop := NoDup (keys c).

End Dedupe.

(* ===================================================================== *)
(** * scoring/rules.js *)
(* ===================================================================== *)

Module Tier.
Record t : Type := mk { min : Q; points : Z; reason : string }.
End Tier.

Module PenaltyTier.
Record t : Type := mk { min : Q; penalty : Z; reason : string }.
End PenaltyTier.

Module AuthorityPenalty.
Record t : Type := mk { penalty : Z; reason : string; flag : string }.
End AuthorityPenalty.

Module Rules.

(** Each table lists the values of the source object in the order its
    keys are written, which is the order [Object.values] yields. *)
Definition LIQUIDITY_THRESHOLDS : list Tier.t :=
  [ Tier.mk 50000 25 "LIQ_50K_PLUS";
    Tier.mk 20000 18 "LIQ_20K_PLUS";
    Tier.mk 10000 12 "LIQ_10K_PLUS";
    Tier.mk 5000 6 "LIQ_5K_PLUS";
    Tier.mk 0 0 "LIQ_BELOW_5K" ].

Definition UNIQUE_BUYERS_1M_THRESHOLDS : list Tier.t :=
  [ Tier.mk 20 20 "BUYERS_1M_20_PLUS";
    Tier.mk 10 14 "BUYERS_1M_10_PLUS";
    Tier.mk 5 8 "BUYERS_1M_5_PLUS";
    Tier.mk 2 4 "BUYERS_1M_2_PLUS";
    Tier.mk 0 0 "BUYERS_1M_BELOW_2" ].

Definition SWAPS_1M_THRESHOLDS : list Tier.t :=
  [ Tier.mk 40 15 "SWAPS_1M_40_PLUS";
    Tier.mk 20 10 "SWAPS_1M_20_PLUS";
    Tier.mk 10 6 "SWAPS_1M_10_PLUS";
    Tier.mk 5 3 "SWAPS_1M_5_PLUS";
    Tier.mk 0 0 "SWAPS_1M_BELOW_5" ].

Definition VOLUME_1M_THRESHOLDS : list Tier.t :=
  [ Tier.mk 50000 10 "VOL_1M_50K_PLUS";
    Tier.mk 20000 7 "VOL_1M_20K_PLUS";
    Tier.mk 10000 4 "VOL_1M_10K_PLUS";
    Tier.mk 5000 2 "VOL_1M_5K_PLUS";
    Tier.mk 0 0 "VOL_1M_BELOW_5K" ].

Definition HOLDER_COUNT_THRESHOLDS : list Tier.t :=
  [ Tier.mk 200 10 "HOLDERS_200_PLUS";
    Tier.mk 100 7 "HOLDERS_100_PLUS";
    Tier.mk 50 4 "HOLDERS_50_PLUS";
    Tier.mk 20 2 "HOLDERS_20_PLUS";
    Tier.mk 0 0 "HOLDERS_BELOW_20" ].

Definition UNIQUE_BUYERS_5M_THRESHOLDS : list Tier.t :=
  [ Tier.mk 50 10 "BUYERS_5M_50_PLUS";
    Tier.mk 30 7 "BUYERS_5M_30_PLUS";
    Tier.mk 15 4 "BUYERS_5M_15_PLUS";
    Tier.mk 5 2 "BUYERS_5M_5_PLUS";
    Tier.mk 0 0 "BUYERS_5M_BELOW_5" ].

Definition BUY_PRESSURE_THRESHOLDS : list Tier.t :=
  [ Tier.mk (7 # 10) 10 "BUY_PRESSURE_70_PCT";
    Tier.mk (6 # 10) 7 "BUY_PRESSURE_60_PCT";
    Tier.mk (5 # 10) 4 "BUY_PRESSURE_50_PCT";
    Tier.mk (4 # 10) 2 "BUY_PRESSURE_40_PCT";
    Tier.mk 0 0 "SELL_PRESSURE" ].

Definition TOP10_CONCENTRATION_PENALTIES : list PenaltyTier.t :=
  [ PenaltyTier.mk 80 (-25) "TOP10_PCT_80_PLUS_PENALTY";
    PenaltyTier.mk 70 (-18) "TOP10_PCT_70_PLUS_PENALTY";
    PenaltyTier.mk 60 (-10) "TOP10_PCT_60_PLUS_PENALTY";
    PenaltyTier.mk 50 (-5) "TOP10_PCT_50_PLUS_PENALTY";
    PenaltyTier.mk 0 0 "TOP10_PCT_HEALTHY" ].

Definition TOP1_CONCENTRATION_PENALTIES : list PenaltyTier.t :=
  [ PenaltyTier.mk 50 (-15) "TOP1_PCT_50_PLUS_PENALTY";
    PenaltyTier.mk 30 (-10) "TOP1_PCT_30_PLUS_PENALTY";
    PenaltyTier.mk 20 (-5) "TOP1_PCT_20_PLUS_PENALTY";
    PenaltyTier.mk 0 0 "TOP1_PCT_HEALTHY" ].

Definition MINT_AUTHORITY : AuthorityPenalty.t :=
  AuthorityPenalty.mk (-10) "MINT_AUTHORITY_PRESENT" "MINT_AUTHORITY_RISK".
Definition FREEZE_AUTHORITY : AuthorityPenalty.t :=
  AuthorityPenalty.mk (-10) "FREEZE_AUTHORITY_PRESENT" "FREEZE_AUTHORITY_RISK".
Definition BOTH_AUTHORITIES : AuthorityPenalty.t :=
  AuthorityPenalty.mk (-20) "BOTH_AUTHORITIES_PRESENT" "FULL_AUTHORITY_RISK".

(** [RISK_FLAGS]: threshold and flag of each non-scoring warning. *)
Definition LOW_LIQUIDITY_threshold : Q := 5000.
Definition LOW_LIQUIDITY_flag : string := "LOW_LIQUIDITY_WARNING".
Definition NEW_TOKEN_thresholdMinutes : Q := 5.
Definition NEW_TOKEN_flag : string := "VERY_NEW_TOKEN".
Definition LOW_HOLDERS_threshold : Q := 10.
Definition LOW_HOLDERS_flag : string := "LOW_HOLDER_COUNT".
Definition NO_VOLUME_threshold : Q := 0.
Definition NO_VOLUME_flag : string := "NO_RECENT_VOLUME".
Definition WHALE_CONCENTRATION_threshold : Q := 40.
Definition WHALE_CONCENTRATION_flag : string := "WHALE_CONCENTRATION".
Definition RAPID_PRICE_DROP_threshold : Q := -30.
Definition RAPID_PRICE_DROP_flag : string := "RAPID_PRICE_DROP".

(** [MAX_POINTS] *)
Definition MAX_LIQUIDITY : Z := 25.
Definition MAX_UNIQUE_BUYERS_1M : Z := 20.
Definition MAX_SWAPS_1M : Z := 15.
Definition MAX_VOLUME_1M : Z := 10.
Definition MAX_HOLDER_COUNT : Z := 10.
Definition MAX_UNIQUE_BUYERS_5M : Z := 10.
Definition MAX_BUY_PRESSURE : Z := 10.

(** [ALERT_THRESHOLDS]: the three knobs read from the environment, each
    an integer once parsed. *)
Record AlertThresholds : Type := mkThresholds {
  SCORE_THRESHOLD : Z;
  SCORE_THRESHOLD_WITH_FLAGS : Z;
  SCORE_CHANGE_THRESHOLD : Z;
}.

(** The values used when the environment sets none of them. *)
Definition default_thresholds : AlertThresholds := mkThresholds 70 80 10.

End Rules.

(* ===================================================================== *)
(** * scoring/score.js *)
(* ===================================================================== *)

(** A non-empty [first_seen_at] as [new Date(...).getTime()] reads it: the
    epoch milliseconds of a timestamp, or NaN for a string that is no date.
    An empty or absent [first_seen_at] is [None] in the token record. *)
Inductive DateValue : Type :=
| ValidDate (ms : Z)
| InvalidDate.

Module Token.
Record t : Type := mk {
  mint : string;
  mint_authority : option string;
  freeze_authority : option string;
  first_seen_at : option DateValue;
}.
End Token.

Module Metrics.
Record t : Type := mk {
  liquidity_usd : option Q;
  unique_buyers_1m : option Q;
  swaps_1m : option Q;
  volume_usd_1m : option Q;
  holder_count : option Q;
  unique_buyers_5m : option Q;
  buy_volume_usd_1m : option Q;
  sell_volume_usd_1m : option Q;
  price_change_5m : option Q;
}.
End Metrics.

Module Holders.
Record t : Type := mk {
  holder_count : option Q;
  top1_pct : option Q;
  top10_pct : option Q;
}.
End Holders.

Module Pool.
Record t : Type := mk { liquidity_usd : option Q }.
End Pool.

Module TokenState.
Record t : Type := mk {
  token : option Token.t;
  metrics : option Metrics.t;
  holders : option Holders.t;
  pool : option Pool.t;
}.
End TokenState.

(** One entry of [components] for a positive factor. *)
Module Component.
Record t : Type := mk {
  value : Q;
  points : Z;
  maxPoints : Z;
  reason : string;
}.
End Component.

(** One entry of [components] for a concentration penalty. *)
Module Concentration.
Record t : Type := mk { value : Q; penalty : Z; reason : string }.
End Concentration.

(** The [authority] entry of [components]. *)
Module Authority.
Record t : Type := mk {
  mintAuthority : bool;
  freezeAuthority : bool;
  penalty : Z;
  reason : string;
}.
End Authority.

Module Components.
Record t : Type := mk {
  liquidity : Component.t;
  unique_buyers_1m : Component.t;
  swaps_1m : Component.t;
  volume_1m : Component.t;
  holder_count : Component.t;
  unique_buyers_5m : Component.t;
  buy_pressure : Component.t;
  top10_concentration : option Concentration.t;
  top1_concentration : option Concentration.t;
  authority : option Authority.t;
}.
End Components.

Module ScoreResult.
Record t : Type := mk {
  score : Z;
  reasons : list string;
  risk_flags : list string;
  components : Components.t;
}.
End ScoreResult.

Module AlertCheck.
Record t : Type := mk { shouldSend : bool; reason : string }.
End AlertCheck.

Module Score.
Import Js Rules.

(** Comparisons of numbers. *)
Definition ge (a b : Q) : bool := Qle_bool b a.
Definition gt (a b : Q) : bool := negb (Qle_bool a b).
Definition lt (a b : Q) : bool := negb (Qle_bool b a).
Definition le (a b : Q) : bool := Qle_bool a b.

(** [Object.values(thresholds).sort((a, b) => b.min - a.min)]: descending
    by [min], equal minimums kept in table order. *)
Fixpoint insert_desc (x : Tier.t) (l : list Tier.t) : list Tier.t :=
  match l with
  | [] => [x]
  | y :: l' =>
      if ge (Tier.min x) (Tier.min y) then x :: l else y :: insert_desc x l'
  end.

Definition sort_desc (l : list Tier.t) : list Tier.t :=
  fold_right insert_desc [] l.

Fixpoint insert_penalty_desc (x : PenaltyTier.t) (l : list PenaltyTier.t)
  : list PenaltyTier.t :=
  match l with
  | [] => [x]
  | y :: l' =>
      if ge (PenaltyTier.min x) (PenaltyTier.min y)
      then x :: l else y :: insert_penalty_desc x l'
  end.

Definition sort_penalty_desc (l : list PenaltyTier.t) : list PenaltyTier.t :=
  fold_right insert_penalty_desc [] l.

(** The loop of [scoreByThreshold]: the first tier the value reaches. *)
Fixpoint first_reached (value : Q) (ordered : list Tier.t) : option Tier.t :=
  match ordered with
  | [] => None
  | threshold :: rest =>
      if ge value (Tier.min threshold) then Some threshold
      else first_reached value rest
  end.

(** [scoreByThreshold]: points and reason of the first tier reached, of
    the lowest tier when none is; reading the lowest tier of an empty
    table throws. *)
Definition scoreByThreshold (value : Q) (thresholds : list Tier.t)
  : result (Z * string) :=
  let orderedThresholds := sort_desc thresholds in
  match first_reached value orderedThresholds with
  | Some threshold => Ok (Tier.points threshold, Tier.reason threshold)
  | None =>
      lowest ← member (last orderedThresholds) (fun t => t);
      mret (Tier.points lowest, Tier.reason lowest)
  end.

Fixpoint first_penalty_reached (value : Q) (ordered : list PenaltyTier.t)
  : option PenaltyTier.t :=
  match ordered with
  | [] => None
  | threshold :: rest =>
      if ge value (PenaltyTier.min threshold) then Some threshold
      else first_penalty_reached value rest
  end.

(** [penaltyByThreshold]: penalty and reason of the first tier reached,
    no penalty when none is. *)
Definition penaltyByThreshold (value : Q) (thresholds : list PenaltyTier.t)
  : Z * string :=
  let orderedThresholds := sort_penalty_desc thresholds in
  match first_penalty_reached value orderedThresholds with
  | Some threshold => (PenaltyTier.penalty threshold, PenaltyTier.reason threshold)
  | None => (0, "HEALTHY")
  end.

(** The concentration step of [score]: skipped unless the percentage is
    positive; the reason is pushed only for a penalty below zero. *)
Definition concentration (pct : Q) (table : list PenaltyTier.t)
  : option Concentration.t :=
  if gt pct 0
  then let r := penaltyByThreshold pct table in
       Some (Concentration.mk pct (fst r) (snd r))
  else None.

Definition concentration_penalty (c : option Concentration.t) : Z :=
  match c with
  | Some r => Concentration.penalty r
  | None => 0
  end.

Definition concentration_reasons (c : option Concentration.t) : list string :=
  match c with
  | Some r =>
      if Concentration.penalty r <? 0 then [Concentration.reason r] else []
  | None => []
  end.

(** The authority step of [score]. *)
Definition authority_of (hasMintAuth hasFreezeAuth : bool)
  : option (Authority.t * string) :=
  if hasMintAuth && hasFreezeAuth then
    Some (Authority.mk true true
            (AuthorityPenalty.penalty BOTH_AUTHORITIES)
            (AuthorityPenalty.reason BOTH_AUTHORITIES),
          AuthorityPenalty.flag BOTH_AUTHORITIES)
  else if hasMintAuth then
    Some (Authority.mk true false
            (AuthorityPenalty.penalty MINT_AUTHORITY)
            (AuthorityPenalty.reason MINT_AUTHORITY),
          AuthorityPenalty.flag MINT_AUTHORITY)
  else if hasFreezeAuth then
    Some (Authority.mk false true
            (AuthorityPenalty.penalty FREEZE_AUTHORITY)
            (AuthorityPenalty.reason FREEZE_AUTHORITY),
          AuthorityPenalty.flag FREEZE_AUTHORITY)
  else None.

(** [token?.x && token.x !== null]: the second read is reached only when
    the first found a truthy value, which is then not [null]. *)
Definition has_authority (token : option Token.t)
    (field : Token.t -> option string) : result bool :=
  if truthy_str (opt_member token field)
  then v ← member token field; mret (negb (bool_decide (v = None)))
  else mret false.

(** The age test behind [VERY_NEW_TOKEN], made when [token?.first_seen_at]
    is truthy: minutes since first seen, read off the clock; an unreadable
    date gives NaN, which is below nothing. *)
Definition very_new (now : Z) (token : option Token.t) : result bool :=
  match opt_member token Token.first_seen_at with
  | Some _ =>
      d ← member token Token.first_seen_at;
      match d with
      | Some (ValidDate t) =>
          let ageMinutes := (inject_Z (now - t) / 60000)%Q in
          mret (lt ageMinutes NEW_TOKEN_thresholdMinutes)
      | _ => mret false
      end
  | None => mret false
  end.

Definition flag_if (b : bool) (flag : string) : list string :=
  if b then [flag] else [].

(** [score(tokenState)], evaluated when the clock reads [now]. *)
Definition score (now : Z) (tokenState : TokenState.t) : result ScoreResult.t :=
  let token := TokenState.token tokenState in
  let metrics := TokenState.metrics tokenState in
  let holders := TokenState.holders tokenState in
  let pool := TokenState.pool tokenState in
  (* positive scoring *)
  let liquidityUsd :=
    or_zero (or_num (opt_member metrics Metrics.liquidity_usd)
                    (opt_member pool Pool.liquidity_usd)) in
  liquidityResult ← scoreByThreshold liquidityUsd LIQUIDITY_THRESHOLDS;
  let uniqueBuyers1m := or_zero (opt_member metrics Metrics.unique_buyers_1m) in
  buyers1mResult ← scoreByThreshold uniqueBuyers1m UNIQUE_BUYERS_1M_THRESHOLDS;
  let swaps1m := or_zero (opt_member metrics Metrics.swaps_1m) in
  swaps1mResult ← scoreByThreshold swaps1m SWAPS_1M_THRESHOLDS;
  let volume1m := or_zero (opt_member metrics Metrics.volume_usd_1m) in
  volume1mResult ← scoreByThreshold volume1m VOLUME_1M_THRESHOLDS;
  let holderCount :=
    or_zero (or_num (opt_member holders Holders.holder_count)
                    (opt_member metrics Metrics.holder_count)) in
  holderResult ← scoreByThreshold holderCount HOLDER_COUNT_THRESHOLDS;
  let uniqueBuyers5m := or_zero (opt_member metrics Metrics.unique_buyers_5m) in
  buyers5mResult ← scoreByThreshold uniqueBuyers5m UNIQUE_BUYERS_5M_THRESHOLDS;
  let buyVol := or_zero (opt_member metrics Metrics.buy_volume_usd_1m) in
  let sellVol := or_zero (opt_member metrics Metrics.sell_volume_usd_1m) in
  let totalVol := (buyVol + sellVol)%Q in
  let buyRatio := if gt totalVol 0 then (buyVol / totalVol)%Q else (1 # 2)%Q in
  buyPressureResult ← scoreByThreshold buyRatio BUY_PRESSURE_THRESHOLDS;
  let positive :=
    fst liquidityResult + fst buyers1mResult + fst swaps1mResult
    + fst volume1mResult + fst holderResult + fst buyers5mResult
    + fst buyPressureResult in
  let positiveReasons :=
    [ snd liquidityResult; snd buyers1mResult; snd swaps1mResult;
      snd volume1mResult; snd holderResult; snd buyers5mResult;
      snd buyPressureResult ] in
  (* penalties *)
  let top10Pct := or_zero (opt_member holders Holders.top10_pct) in
  let top10 := concentration top10Pct TOP10_CONCENTRATION_PENALTIES in
  let top1Pct := or_zero (opt_member holders Holders.top1_pct) in
  let top1 := concentration top1Pct TOP1_CONCENTRATION_PENALTIES in
  hasMintAuth ← has_authority token Token.mint_authority;
  hasFreezeAuth ← has_authority token Token.freeze_authority;
  let auth := authority_of hasMintAuth hasFreezeAuth in
  let totalScore :=
    positive + concentration_penalty top10 + concentration_penalty top1
    + from_option (fun a => Authority.penalty (fst a)) 0 auth in
  let reasons :=
    positiveReasons ++ concentration_reasons top10
      ++ concentration_reasons top1
      ++ from_option (fun a => [Authority.reason (fst a)]) [] auth in
  (* risk flags *)
  veryNew ← very_new now token;
  let priceChange5m := or_zero (opt_member metrics Metrics.price_change_5m) in
  let riskFlags :=
    from_option (fun a => [snd a]) [] auth
      ++ flag_if (lt liquidityUsd LOW_LIQUIDITY_threshold) LOW_LIQUIDITY_flag
      ++ flag_if veryNew NEW_TOKEN_flag
      ++ flag_if (lt holderCount LOW_HOLDERS_threshold) LOW_HOLDERS_flag
      ++ flag_if (le volume1m NO_VOLUME_threshold) NO_VOLUME_flag
      ++ flag_if (gt top1Pct WHALE_CONCENTRATION_threshold)
                 WHALE_CONCENTRATION_flag
      ++ flag_if (lt priceChange5m RAPID_PRICE_DROP_threshold)
                 RAPID_PRICE_DROP_flag in
  (* final score *)
  let finalScore := Z.max 0 (Z.min 100 (Math_round (inject_Z totalScore))) in
  mret (ScoreResult.mk finalScore reasons riskFlags
          (Components.mk
             (Component.mk liquidityUsd (fst liquidityResult)
                MAX_LIQUIDITY (snd liquidityResult))
             (Component.mk uniqueBuyers1m (fst buyers1mResult)
                MAX_UNIQUE_BUYERS_1M (snd buyers1mResult))
             (Component.mk swaps1m (fst swaps1mResult)
                MAX_SWAPS_1M (snd swaps1mResult))
             (Component.mk volume1m (fst volume1mResult)
                MAX_VOLUME_1M (snd volume1mResult))
             (Component.mk holderCount (fst holderResult)
                MAX_HOLDER_COUNT (snd holderResult))
             (Component.mk uniqueBuyers5m (fst buyers5mResult)
                MAX_UNIQUE_BUYERS_5M (snd buyers5mResult))
             (Component.mk buyRatio (fst buyPressureResult)
                MAX_BUY_PRESSURE (snd buyPressureResult))
             top10 top1 (fst <$> auth))).

(** The flags [shouldAlert] treats as hard. *)
Definition hard_flags : list string :=
  ["FULL_AUTHORITY_RISK"; "MINT_AUTHORITY_RISK"; "FREEZE_AUTHORITY_RISK"].

Definition includes (l : list string) (f : string) : bool :=
  existsb (String.eqb f) l.

(** [shouldAlert(scoreResult, previousScore = null, previousRiskFlags = [])],
    under the thresholds [cfg] read from the environment. *)
Definition shouldAlert (cfg : AlertThresholds) (scoreResult : ScoreResult.t)
    (previousScore : option Z) (previousRiskFlags : list string)
  : AlertCheck.t :=
  let currentScore := ScoreResult.score scoreResult in
  let currentFlags := ScoreResult.risk_flags scoreResult in
  let hasHardFlags := existsb (includes hard_flags) currentFlags in
  match previousScore with
  | None =>
      if (SCORE_THRESHOLD cfg <=? currentScore) && negb hasHardFlags
      then AlertCheck.mk true "NEW_HIGH_SCORE"
      else if SCORE_THRESHOLD_WITH_FLAGS cfg <=? currentScore
      then AlertCheck.mk true "NEW_VERY_HIGH_SCORE"
      else AlertCheck.mk false "SCORE_BELOW_THRESHOLD"
  | Some previous =>
      let scoreDiff := Math_abs (currentScore - previous) in
      let flagsChanged :=
        negb (array_eqb (sort currentFlags) (sort previousRiskFlags)) in
      if SCORE_CHANGE_THRESHOLD cfg <=? scoreDiff
      then AlertCheck.mk true "SCORE_CHANGE_SIGNIFICANT"
      else if flagsChanged && (SCORE_THRESHOLD cfg <=? currentScore)
      then AlertCheck.mk true "FLAGS_CHANGED"
      else AlertCheck.mk false "NO_SIGNIFICANT_CHANGE"
  end.

End Score.

(* ===================================================================== *)
(** * helius.js: swap extraction *)
(* ===================================================================== *)

Module TokenTransfer.
Record t : Type := mk {
  mint : option string;
  tokenAmount : option Q;
  fromUserAccount : option string;
  toUserAccount : option string;
}.
End TokenTransfer.

Module NativeTransfer.
Record t : Type := mk { amount : option Z }.
End NativeTransfer.

(** One entry of [tokenOutputs] or [tokenInputs] of a parsed swap event. *)
Module TokenLeg.
Record t : Type := mk { mint : option string }.
End TokenLeg.

(** [nativeOutput] or [nativeInput] of a parsed swap event. *)
Module NativeLeg.
Record t : Type := mk { amount : option Q }.
End NativeLeg.

(** [tx.events.swap] *)
Module SwapEvent.
Record t : Type := mk {
  tokenOutputs : option (list TokenLeg.t);
  tokenInputs : option (list TokenLeg.t);
  nativeOutput : option NativeLeg.t;
  nativeInput : option NativeLeg.t;
}.
End SwapEvent.

Module AccountData.
Record t : Type := mk { account : option string }.
End AccountData.

(** A raw transaction, with the fields swap extraction reads; [swap] is
    [tx.events?.swap]. *)
Module Tx.
Record t : Type := mk {
  signature : option string;
  timestamp : option Z;
  type : option string;
  source : option string;
  feePayer : option string;
  tokenTransfers : option (list TokenTransfer.t);
  nativeTransfers : option (list NativeTransfer.t);
  swap : option SwapEvent.t;
  accountData : option (list AccountData.t);
}.
End Tx.

(** The swap record [parseSwapTransaction] returns; [ts] in milliseconds. *)
Module SwapRecord.
Record t : Type := mk {
  token_mint : string;
  signature : option string;
  ts : Z;
  side : string;
  amount_usd : option Q;
  amount_token : option Q;
  amount_sol : option Q;
  buyer : option string;
  seller : option string;
  pool_address : option string;
  meta_source : string;
  meta_type : option string;
  meta_fee_payer : option string;
}.
End SwapRecord.

Module Helius.
Import Js.

Definition WSOL_MINT : string := "So11111111111111111111111111111111111111112".

Definition STABLECOIN_MINTS : list string :=
  [ "EPjFWdd5AufqSSqeM2qN1xzybapC8G4wEGGkZwyTDt1v";
    "Es9vMFrzaCERmJfrF4H2FYD4KCoNkY11McCe8BenwNYB" ].

(** [mint === WSOL_MINT || STABLECOIN_MINTS.has(mint)] *)
Definition is_quote (mint : option string) : bool :=
  match mint with
  | Some m => String.eqb m WSOL_MINT || existsb (String.eqb m) STABLECOIN_MINTS
  | None => false
  end.

(** [isDexPool]: the placeholder of the source. *)
Definition isDexPool (address : string) : bool := false.

(** [parseFloat(x) || null] on a numeric amount. *)
Definition parseFloat_or_null (x : option Q) : option Q := or_num x None.

(** The variables the transfer loop updates. *)
Record SwapVars : Type := mkVars {
  tokenMint : option string;
  side : string;
  amountToken : option Q;
  amountSol : option Q;
  buyer : option string;
  seller : option string;
}.

Definition initial_vars : SwapVars :=
  mkVars None "unknown" None None None None.

(** One round of the loop over [tx.tokenTransfers]. *)
Definition transfer_step (feePayer : option string) (v : SwapVars)
    (transfer : TokenTransfer.t) : SwapVars :=
  let mint := TokenTransfer.mint transfer in
  if is_quote mint then
    if truthy_num (TokenTransfer.tokenAmount transfer)
    then mkVars (tokenMint v) (side v) (amountToken v)
           (parseFloat_or_null (TokenTransfer.tokenAmount transfer))
           (buyer v) (seller v)
    else v
  else
    let amountToken' := parseFloat_or_null (TokenTransfer.tokenAmount transfer) in
    if strict_eq (TokenTransfer.toUserAccount transfer) feePayer
    then mkVars mint "buy" amountToken' (amountSol v) feePayer (seller v)
    else if strict_eq (TokenTransfer.fromUserAccount transfer) feePayer
    then mkVars mint "sell" amountToken' (amountSol v) (buyer v) feePayer
    else mkVars mint (side v) amountToken' (amountSol v) (buyer v) (seller v).

(** The sum over [tx.nativeTransfers] of the absolute truthy amounts. *)
Definition total_native (transfers : list NativeTransfer.t) : Z :=
  fold_left
    (fun totalSol transfer =>
       match NativeTransfer.amount transfer with
       | Some a => if a =? 0 then totalSol else totalSol + Math_abs a
       | None => totalSol
       end)
    transfers 0.

(** [legs?.[0]?.mint] *)
Definition first_leg_mint (legs : option (list TokenLeg.t)) : option string :=
  match legs with
  | Some (leg :: _) => TokenLeg.mint leg
  | _ => None
  end.

(** The first account of [tx.accountData] that is a DEX pool. *)
Fixpoint find_pool (accounts : list AccountData.t) : option string :=
  match accounts with
  | [] => None
  | acc :: rest =>
      match AccountData.account acc with
      | Some a =>
          if negb (String.eqb a "") && isDexPool a then Some a else find_pool rest
      | None => find_pool rest
      end
  end.

(** The variables of [parseSwapTransaction] once the token transfers, the
    native transfers and the parsed swap event have been read. *)
Definition swap_vars (tx : Tx.t) : SwapVars :=
  (* token transfers *)
  let v1 :=
    fold_left (transfer_step (Tx.feePayer tx))
      (default [] (Tx.tokenTransfers tx)) initial_vars in
  (* native transfers *)
  let totalSol := total_native (default [] (Tx.nativeTransfers tx)) in
  let amountSol2 :=
    if (0 <? totalSol) && negb (truthy_num (amountSol v1))
    then Some (inject_Z totalSol / 1000000000)%Q
    else amountSol v1 in
  (* parsed swap event *)
  match Tx.swap tx with
  | Some swap =>
      let tokenMint' :=
        or_str (or_str (tokenMint v1) (first_leg_mint (SwapEvent.tokenOutputs swap)))
               (first_leg_mint (SwapEvent.tokenInputs swap)) in
      if truthy_num (opt_member (SwapEvent.nativeOutput swap) NativeLeg.amount)
      then mkVars tokenMint' "sell" (amountToken v1) amountSol2
             (buyer v1) (Tx.feePayer tx)
      else if truthy_num (opt_member (SwapEvent.nativeInput swap) NativeLeg.amount)
      then mkVars tokenMint' "buy" (amountToken v1) amountSol2
             (Tx.feePayer tx) (seller v1)
      else mkVars tokenMint' (side v1) (amountToken v1) amountSol2
             (buyer v1) (seller v1)
  | None =>
      mkVars (tokenMint v1) (side v1) (amountToken v1) amountSol2
        (buyer v1) (seller v1)
  end.

(** [parseSwapTransaction(tx)], evaluated when the clock reads [now]: no
    record without a token, none for a quote asset. *)
Definition parseSwapTransaction (now : Z) (tx : Tx.t) : option SwapRecord.t :=
  let timestamp :=
    match Tx.timestamp tx with
    | Some t => if t =? 0 then now else t * 1000
    | None => now
    end in
  let v := swap_vars tx in
  let poolAddress := find_pool (default [] (Tx.accountData tx)) in
  if negb (truthy_str (tokenMint v)) then None
  else if is_quote (tokenMint v) then None
  else
    Some (SwapRecord.mk (default "" (tokenMint v)) (Tx.signature tx) timestamp
            (side v) None (amountToken v) (amountSol v) (buyer v) (seller v)
            poolAddress
            (default "unknown" (or_str (Tx.source tx) None))
            (Tx.type tx) (Tx.feePayer tx)).

End Helius.

(* ===================================================================== *)
(** * supabase.js: swap metrics and the alerts table *)
(* ===================================================================== *)

(** A row of [swaps] as [getSwapMetrics] selects it; [ts] in milliseconds. *)
Module SwapRow.
Record t : Type := mk {
  ts : Z;
  side : option string;
  amount_usd : option Q;
  buyer : option string;
  seller : option string;
}.
End SwapRow.

(** The object [getSwapMetrics] returns. *)
Module SwapMetrics.
Record t : Type := mk {
  swaps_1m : Z;
  swaps_5m : Z;
  swaps_15m : Z;
  unique_buyers_1m : nat;
  unique_buyers_5m : nat;
  unique_buyers_15m : nat;
  unique_sellers_1m : nat;
  unique_sellers_5m : nat;
  volume_usd_1m : Q;
  volume_usd_5m : Q;
  volume_usd_15m : Q;
  buy_volume_usd_1m : Q;
  sell_volume_usd_1m : Q;
}.
End SwapMetrics.

(** A row of [alerts]. *)
Module AlertRow.
Record t : Type := mk {
  last_score : option Z;
  last_sent_at : option Z;
  telegram_message_id : option string;
  telegram_chat_id : option string;
  alert_count : option Z;
  last_risk_flags : option (list string);
}.
End AlertRow.

Module Supabase.
Import Js.

(** [minutesAgo(minutes)] read back by [new Date(...).getTime()].  The
    clock reads of one [getSwapMetrics] call are taken at one instant. *)
Definition minutesAgo (now : Z) (minutes : Z) : Z := now - minutes * 60000.

(** The accumulator [metrics] of [getSwapMetrics]. *)
Record Acc : Type := mkAcc {
  swaps_1m : Z;
  swaps_5m : Z;
  swaps_15m : Z;
  unique_buyers_1m : gset string;
  unique_buyers_5m : gset string;
  unique_buyers_15m : gset string;
  unique_sellers_1m : gset string;
  unique_sellers_5m : gset string;
  volume_usd_1m : Q;
  volume_usd_5m : Q;
  volume_usd_15m : Q;
  buy_volume_usd_1m : Q;
  sell_volume_usd_1m : Q;
}.

Definition empty_acc : Acc :=
  mkAcc 0 0 0 ∅ ∅ ∅ ∅ ∅ 0 0 0 0 0.

(** [if (who) set.add(who)] *)
Definition add_if (who : option string) (set : gset string) : gset string :=
  match who with
  | Some w => if String.eqb w "" then set else {[ w ]} ∪ set
  | None => set
  end.

(** The 15-minute block of the loop body. *)
Definition step_15m (swap : SwapRow.t) (volume : Q) (m : Acc) : Acc :=
  mkAcc (swaps_1m m) (swaps_5m m) (swaps_15m m + 1)
    (unique_buyers_1m m) (unique_buyers_5m m)
    (add_if (SwapRow.buyer swap) (unique_buyers_15m m))
    (unique_sellers_1m m)
    (add_if (SwapRow.seller swap) (unique_sellers_5m m))
    (volume_usd_1m m) (volume_usd_5m m) (volume_usd_15m m + volume)%Q
    (buy_volume_usd_1m m) (sell_volume_usd_1m m).

(** The 5-minute block. *)
Definition step_5m (swap : SwapRow.t) (volume : Q) (m : Acc) : Acc :=
  mkAcc (swaps_1m m) (swaps_5m m + 1) (swaps_15m m)
    (unique_buyers_1m m)
    (add_if (SwapRow.buyer swap) (unique_buyers_5m m))
    (unique_buyers_15m m)
    (unique_sellers_1m m) (unique_sellers_5m m)
    (volume_usd_1m m) (volume_usd_5m m + volume)%Q (volume_usd_15m m)
    (buy_volume_usd_1m m) (sell_volume_usd_1m m).

(** The 1-minute block. *)
Definition step_1m (swap : SwapRow.t) (volume : Q) (m : Acc) : Acc :=
  mkAcc (swaps_1m m + 1) (swaps_5m m) (swaps_15m m)
    (add_if (SwapRow.buyer swap) (unique_buyers_1m m))
    (unique_buyers_5m m) (unique_buyers_15m m)
    (add_if (SwapRow.seller swap) (unique_sellers_1m m))
    (unique_sellers_5m m)
    (volume_usd_1m m + volume)%Q (volume_usd_5m m) (volume_usd_15m m)
    (if strict_eq (SwapRow.side swap) (Some "buy")
     then (buy_volume_usd_1m m + volume)%Q else buy_volume_usd_1m m)
    (if strict_eq (SwapRow.side swap) (Some "buy") then sell_volume_usd_1m m
     else if strict_eq (SwapRow.side swap) (Some "sell")
     then (sell_volume_usd_1m m + volume)%Q else sell_volume_usd_1m m).

(** One round of the loop over the swaps. *)
Definition swap_step (now : Z) (m : Acc) (swap : SwapRow.t) : Acc :=
  let swapTime := SwapRow.ts swap in
  let oneMinTime := minutesAgo now 1 in
  let fiveMinTime := minutesAgo now 5 in
  let volume := or_zero (SwapRow.amount_usd swap) in
  let m1 := step_15m swap volume m in
  let m2 := if fiveMinTime <=? swapTime then step_5m swap volume m1 else m1 in
  if oneMinTime <=? swapTime then step_1m swap volume m2 else m2.

Definition snapshot (m : Acc) : SwapMetrics.t :=
  SwapMetrics.mk (swaps_1m m) (swaps_5m m) (swaps_15m m)
    (size (unique_buyers_1m m)) (size (unique_buyers_5m m))
    (size (unique_buyers_15m m))
    (size (unique_sellers_1m m)) (size (unique_sellers_5m m))
    (volume_usd_1m m) (volume_usd_5m m) (volume_usd_15m m)
    (buy_volume_usd_1m m) (sell_volume_usd_1m m).

(** [getSwapMetrics], from the rows the query returned ([swaps], those of
    the token in the last 15 minutes) when the clock reads [now]. *)
Definition getSwapMetrics (now : Z) (swaps : option (list SwapRow.t))
  : SwapMetrics.t :=
  match swaps with
  | None | Some [] => SwapMetrics.mk 0 0 0 0 0 0 0 0 0 0 0 0 0
  | Some rows => snapshot (fold_left (swap_step now) rows empty_acc)
  end.

(** The row [insert({ token_mint })] creates: the column defaults. *)
Definition new_alert : AlertRow.t :=
  AlertRow.mk None None None None (Some 0) (Some []).

(** [getOrCreateAlert]: the row of the token, created when there is none.
    The storage calls of this section are taken to succeed. *)
Definition getOrCreateAlert (tokenMint : string) (alerts : gmap string AlertRow.t)
  : AlertRow.t * gmap string AlertRow.t :=
  match alerts !! tokenMint with
  | Some alert => (alert, alerts)
  | None => (new_alert, <[tokenMint := new_alert]> alerts)
  end.

(** [updateAlert]: the update writes every field this model holds, on the
    row of the token if there is one. *)
Definition updateAlert (tokenMint : string) (updateData : AlertRow.t)
    (alerts : gmap string AlertRow.t) : gmap string AlertRow.t :=
  match alerts !! tokenMint with
  | Some _ => <[tokenMint := updateData]> alerts
  | None => alerts
  end.

End Supabase.

(* ===================================================================== *)
(** * telegram/bot.js and workers/score_worker.js: alert dispatch *)
(* ===================================================================== *)

(** What the notification collaborator answers: the id of the message
    sent or edited, or nothing when the call failed ([sendMessage] and
    [editMessage] catch the failure and return [null]). *)
Module Telegram.
Record t : Type := mk {
  (* [editMessage(chatId, messageId, text)] *)
  editMessage : string -> string -> option string;
  (* [sendMessage(chatId, text)] *)
  sendMessage : string -> option string;
}.
End Telegram.

Module Bot.
Import Js Supabase.

(** The module state and environment [sendTokenAlert] reads. *)
Record Env : Type := mkEnv {
  chatId : option string;
  ENABLE_TELEGRAM_ALERTS : option string;
  telegram : Telegram.t;
}.

(** The attempt of [sendTokenAlert]: edit the previous message when there
    is one, send a new one when there is none or the edit failed. *)
Definition deliver (env : Env) (chat : string) (alert : AlertRow.t)
  : option string :=
  let previousScore := AlertRow.last_score alert in
  let isUpdate :=
    negb (bool_decide (previousScore = None))
    && truthy_str (AlertRow.telegram_message_id alert) in
  if isUpdate then
    match Telegram.editMessage (telegram env) chat
            (default "" (AlertRow.telegram_message_id alert)) with
    | Some result => Some result
    | None => Telegram.sendMessage (telegram env) chat
    end
  else Telegram.sendMessage (telegram env) chat.

(** [sendTokenAlert(token, scoreResult, metrics, holders)] on the alerts
    table, when the clock reads [now]. *)
Definition sendTokenAlert (env : Env) (now : Z) (token : Token.t)
    (scoreResult : ScoreResult.t) (alerts : gmap string AlertRow.t)
  : gmap string AlertRow.t :=
  match chatId env with
  | None => alerts
  | Some chat =>
      if String.eqb chat "" then alerts
      else if strict_eq (ENABLE_TELEGRAM_ALERTS env) (Some "false") then alerts
      else
        let (alert, alerts1) := getOrCreateAlert (Token.mint token) alerts in
        match deliver env chat alert with
        | Some message_id =>
            updateAlert (Token.mint token)
              (AlertRow.mk
                 (Some (ScoreResult.score scoreResult))
                 (Some now)
                 (Some message_id)
                 (Some chat)
                 (Some (match AlertRow.alert_count alert with
                        | Some n => n + 1
                        | None => 0 + 1
                        end))
                 (Some (ScoreResult.risk_flags scoreResult)))
              alerts1
        | None => alerts1
        end
  end.

End Bot.

Module ScoreWorker.
Import Js Rules Supabase Bot.

(** The tables [scoreToken] writes. *)
Record Db : Type := mkDb {
  scores : list (string * ScoreResult.t);
  alerts : gmap string AlertRow.t;
}.

(** [scoreToken(token)]: [metrics], [holders] and [pools] are what the
    four reads returned; the answer is [{ score, alerted }] and the tables
    after the call. *)
Definition scoreToken (cfg : AlertThresholds) (env : Env) (now : Z)
    (token : Token.t) (metrics : option Metrics.t) (holders : option Holders.t)
    (pools : option (list Pool.t)) (db : Db)
  : result ((Z * bool) * Db) :=
  let pool := opt_member pools head in
  scoreResult ← Score.score now (TokenState.mk (Some token) metrics holders pool);
  let scores1 := scores db ++ [(Token.mint token, scoreResult)] in
  let (alert, alerts1) := getOrCreateAlert (Token.mint token) (alerts db) in
  let alertCheck :=
    Score.shouldAlert cfg scoreResult (AlertRow.last_score alert)
      (default [] (AlertRow.last_risk_flags alert)) in
  if AlertCheck.shouldSend alertCheck
  then mret ((ScoreResult.score scoreResult, true),
             mkDb scores1 (sendTokenAlert env now token scoreResult alerts1))
  else mret ((ScoreResult.score scoreResult, false), mkDb scores1 alerts1).

End ScoreWorker.


(* ===================================================================== *)
(** * workers/score_worker.js: the scoring cycle *)
(* ===================================================================== *)

(** What one round of the loop of [scoreBatch] reads: the token, the clock
    and what the reads of [scoreToken] return. *)
Module Round.
Record t : Type := mk {
  token : Token.t;
  now : Z;
  metrics : option Metrics.t;
  holders : option Holders.t;
  pools : option (list Pool.t);
}.
End Round.

Module ScoreCycle.
Import Js Rules ScoreWorker.

(** The counters of [scoreBatch]. *)
Record Tally : Type := mkTally { scored : Z; alerted : Z }.

(** One round of the loop: a token whose scoring throws is skipped. *)
Definition batch_step (cfg : AlertThresholds) (env : Bot.Env)
    (st : Tally * Db) (round : Round.t) : Tally * Db :=
  match scoreToken cfg env (Round.now round) (Round.token round)
          (Round.metrics round) (Round.holders round) (Round.pools round)
          (snd st) with
  | Ok (result, db) =>
      (mkTally (scored (fst st) + 1)
         (if snd result then alerted (fst st) + 1 else alerted (fst st)),
       db)
  | Throw _ => st
  end.

(** [scoreBatch()], on the active tokens the query returned, one round
    each: the counters it logs (none for an empty batch) and the tables
    after the batch. *)
Definition scoreBatch (cfg : AlertThresholds) (env : Bot.Env)
    (rounds : list Round.t) (db : Db) : option Tally * Db :=
  match rounds with
  | [] => (None, db)
  | _ :: _ =>
      let st := fold_left (batch_step cfg env) rounds (mkTally 0 0, db) in
      (Some (fst st), snd st)
  end.

End ScoreCycle.

(* ===================================================================== *)
(** * utils/dedupe.js: the other operations of the cache *)
(* ===================================================================== *)

Module Lru.
Import Dedupe.

(** [LRUCache.get]: the value held for the key, which becomes the most
    recently used; [undefined] for a key not held.  As in [has], [map_get]
    finds a value whenever [map_has] holds. *)
Definition get (key : string) (c : LRUCache) : option bool * LRUCache :=
  if negb (map_has key (cache c)) then (None, c)
  else
    match map_get key (cache c) with
    | Some value =>
        (Some value,
         mkLRU (maxSize c) (map_set key value (map_delete key (cache c))))
    | None => (None, c)
    end.

(** [LRUCache.delete]: [Map.delete] answers whether the key was held. *)
Definition delete (key : string) (c : LRUCache) : bool * LRUCache :=
  (map_has key (cache c), mkLRU (maxSize c) (map_delete key (cache c))).

(** [LRUCache.clear] *)
Definition clear (c : LRUCache) : LRUCache := mkLRU (maxSize c) [].

End Lru.

(* ===================================================================== *)
(** * helius.js: the rest of the event normalizer *)
(* ===================================================================== *)

(** One entry of [tx.instructions]. *)
Module Instruction.
Record t : Type := mk {
  programId : option string;
  program : option string;
  accounts : option (list string);
}.
End Instruction.

(** One entry of [tokenBalanceChanges]. *)
Module BalanceChange.
Record t : Type := mk { mint : option string }.
End BalanceChange.

(** One entry of [tx.accountData], with every field the normalizer reads. *)
Module AccountEntry.
Record t : Type := mk {
  account : option string;
  programId : option string;
  program : option string;
  tokenBalanceChanges : option (list BalanceChange.t);
}.
End AccountEntry.

(** A raw transaction with every field the normalizer reads; [to_tx] is
    the part of it swap extraction reads. *)
Module RawTx.
Record t : Type := mk {
  signature : option string;
  timestamp : option Z;
  type : option string;
  source : option string;
  feePayer : option string;
  tokenTransfers : option (list TokenTransfer.t);
  nativeTransfers : option (list NativeTransfer.t);
  swap : option SwapEvent.t;
  accountData : option (list AccountEntry.t);
  instructions : option (list Instruction.t);
}.

Definition to_tx (tx : t) : Tx.t :=
  Tx.mk (signature tx) (timestamp tx) (type tx) (source tx) (feePayer tx)
    (tokenTransfers tx) (nativeTransfers tx) (swap tx)
    (map (fun a => AccountData.mk (AccountEntry.account a)) <$> accountData tx).
End RawTx.

(** A token candidate: [{ mint, source }]. *)
Module TokenCandidate.
Record t : Type := mk { mint : option string; source : string }.
End TokenCandidate.

(** The pool record [parsePoolCreation] returns; [created_at] in
    milliseconds. *)
Module PoolRecord.
Record t : Type := mk {
  token_mint : string;
  pool_address : option string;
  dex : string;
  base_mint : option string;
  quote_mint : option string;
  created_at : Z;
  meta_signature : option string;
  meta_fee_payer : option string;
}.
End PoolRecord.

(** The headers and query parameter [validateWebhookSecret] reads. *)
Module Request.
Record t : Type := mk {
  authorization : option string;
  x_webhook_secret : option string;
  query_secret : option string;
}.
End Request.

Module Normalizer.
Import Js Dedupe Helius.

(** [Object.entries(DEX_PROGRAMS)], in the order the keys are written. *)
Definition DEX_PROGRAMS : list (string * string) :=
  [ ("RAYDIUM_V4", "675kPX9MHTjS2zt1qfr1NYHuzeLXfQM9H24wFSUt1Mp8");
    ("RAYDIUM_CLMM", "CAMMCzo5YL8w4VFF8KVHrK22GGUsp5VTaW7grrKgrWqK");
    ("RAYDIUM_CP", "CPMMoo8L3F4NbTegBCKVNunggL7H1ZpdTHKxQB5qKP1C");
    ("ORCA_WHIRLPOOL", "whirLbMiicVdio4qvUfM5KAg6Ct8VwpYzGff3uctyCc");
    ("METEORA_DLMM", "LBUZKhRxPF3XUpBCjp4YzTKgLccjZhTSDM9YuVaPwxo");
    ("METEORA_POOLS", "Eo7WjKq67rjJQSZxS6z3YkapzY3eMj6Xy8X5EQVn5UaB");
    ("PUMP_FUN", "6EF8rrecthR5Dkzon8Nwu78hRvfCKubJ14M5uBEwF6P");
    ("PUMP_FUN_AMM", "pAMMBay6oceH9fJKBRHGP5D4bD4sWpmSwMn52FMfXEA");
    ("JUPITER_V6", "JUP6LkbZbjS1jKKwapdHNy74zcZ3tLUZoi5QNyVTaV4");
    ("MOONSHOT", "MoonCVVNZFSYkqNXP6bxHLPL6QQJiMagDL3qcqUQTrG") ].

(** [validateWebhookSecret(request)], with [secret] the value of
    [HELIUS_WEBHOOK_SECRET] in the environment. *)
Definition validateWebhookSecret (secret : option string) (request : Request.t)
  : bool :=
  if negb (truthy_str secret) then true
  else
    let authHeader :=
      or_str (Request.authorization request) (Request.x_webhook_secret request) in
    if strict_eq authHeader secret
       || strict_eq authHeader (Some ("Bearer " ++ default "" secret)%string)
    then true
    else strict_eq (Request.query_secret request) secret.

(** [name.toLowerCase()] on the names of [DEX_PROGRAMS], which hold only
    capital letters, digits and underscores. *)
Definition lower_ascii (c : ascii) : ascii :=
  let n := nat_of_ascii c in
  if ((65 <=? n) && (n <=? 90))%nat then ascii_of_nat (n + 32) else c.

Fixpoint lower_name (s : string) : string :=
  match s with
  | EmptyString => EmptyString
  | String c s' => String (lower_ascii c) (lower_name s')
  end.

(** [s.includes(sub)] *)
Definition str_includes (s sub : string) : bool :=
  match String.index 0 sub s with
  | Some _ => true
  | None => false
  end.

(** [Object.values(DEX_PROGRAMS).includes(programId)] *)
Definition is_dex_program (programId : string) : bool :=
  existsb (String.eqb programId) (map snd DEX_PROGRAMS).

(** [identifyTransactionType(tx)]; [toUpperCase] is the upper-casing of
    strings of the runtime. *)
Definition identifyTransactionType (toUpperCase : string -> string)
    (tx : RawTx.t) : string :=
  let by_source :=
    if truthy_str (RawTx.source tx) then
      let source := toUpperCase (default "" (RawTx.source tx)) in
      if str_includes source "RAYDIUM" || str_includes source "ORCA"
         || str_includes source "METEORA"
      then true
      else str_includes source "PUMP"
    else false in
  if by_source then "SWAP"
  else if truthy_str (RawTx.type tx)
  then toUpperCase (default "" (RawTx.type tx))
  else
    (* [tx.instructions || tx.accountData || []], each entry read through
       [programId || program]; an array is truthy even when empty *)
    let programs :=
      match RawTx.instructions tx with
      | Some ixs =>
          map (fun ix => or_str (Instruction.programId ix) (Instruction.program ix))
            ixs
      | None =>
          match RawTx.accountData tx with
          | Some accs =>
              map (fun a => or_str (AccountEntry.programId a) (AccountEntry.program a))
                accs
          | None => []
          end
      end in
    if existsb (fun programId =>
                  truthy_str programId && is_dex_program (default "" programId))
         programs
    then "SWAP"
    else
      match RawTx.tokenTransfers tx with
      | Some (_ :: _) => "TRANSFER"
      | _ => "UNKNOWN"
      end.

(** The loop of [parsePoolCreation] that names the DEX: the lower-cased
    name of the first entry of [DEX_PROGRAMS] whose id is the program of
    the instruction. *)
Fixpoint dex_of (programId : option string) (entries : list (string * string))
  : option string :=
  match entries with
  | [] => None
  | (name, id) :: rest =>
      if strict_eq programId (Some id) then Some (lower_name name)
      else dex_of programId rest
  end.

(** One round of the loop over [tx.instructions]: the variables [dex] and
    [poolAddress]. *)
Definition instruction_step (st : string * option string) (ix : Instruction.t)
  : string * option string :=
  let dex := default (fst st) (dex_of (Instruction.programId ix) DEX_PROGRAMS) in
  let poolAddress :=
    match Instruction.accounts ix with
    | Some (first :: _) => or_str (snd st) (Some first)
    | _ => snd st
    end in
  (dex, poolAddress).

(** The variables the transfer loop of [parsePoolCreation] updates. *)
Record PoolVars : Type := mkPoolVars {
  pv_tokenMint : option string;
  pv_baseMint : option string;
  pv_quoteMint : option string;
}.

Definition mint_step (v : PoolVars) (transfer : TokenTransfer.t) : PoolVars :=
  let mint := TokenTransfer.mint transfer in
  if strict_eq mint (Some WSOL_MINT)
  then mkPoolVars (pv_tokenMint v) (pv_baseMint v) (Some WSOL_MINT)
  else if match mint with
          | Some m => existsb (String.eqb m) STABLECOIN_MINTS
          | None => false
          end
  then mkPoolVars (pv_tokenMint v) (pv_baseMint v) mint
  else mkPoolVars mint mint (pv_quoteMint v).

(** [parsePoolCreation(tx)], evaluated when the clock reads [now]. *)
Definition parsePoolCreation (now : Z) (tx : RawTx.t) : option PoolRecord.t :=
  let st :=
    fold_left instruction_step (default [] (RawTx.instructions tx))
      ("unknown", None) in
  let v :=
    fold_left mint_step (default [] (RawTx.tokenTransfers tx))
      (mkPoolVars None None None) in
  if negb (truthy_str (pv_tokenMint v)) then None
  else
    Some (PoolRecord.mk (default "" (pv_tokenMint v)) (snd st) (fst st)
            (pv_baseMint v) (pv_quoteMint v)
            (match RawTx.timestamp tx with
             | Some t => if t =? 0 then now else t * 1000
             | None => now
             end)
            (RawTx.signature tx) (RawTx.feePayer tx)).

(** [parseTokenFromTransfer(tx)]: the mint of the first transfer outside
    the quote set, whatever it holds. *)
Definition parseTokenFromTransfer (tx : RawTx.t) : option TokenCandidate.t :=
  match RawTx.tokenTransfers tx with
  | None | Some [] => None
  | Some transfers =>
      match find (fun transfer => negb (is_quote (TokenTransfer.mint transfer)))
              transfers with
      | Some transfer => Some (TokenCandidate.mk (TokenTransfer.mint transfer) "transfer")
      | None => None
      end
  end.

(** [mint && mint !== WSOL_MINT && !STABLECOIN_MINTS.has(mint)] *)
Definition relevant_mint (mint : option string) : bool :=
  truthy_str mint && negb (is_quote mint).

(** [extractMintFromTransaction(tx)] *)
Definition extractMintFromTransaction (tx : RawTx.t) : option TokenCandidate.t :=
  match find (fun transfer => relevant_mint (TokenTransfer.mint transfer))
          (default [] (RawTx.tokenTransfers tx)) with
  | Some transfer => Some (TokenCandidate.mk (TokenTransfer.mint transfer) "transaction")
  | None =>
      let changes :=
        flat_map (fun acc => default [] (AccountEntry.tokenBalanceChanges acc))
          (default [] (RawTx.accountData tx)) in
      match find (fun change => relevant_mint (BalanceChange.mint change)) changes with
      | Some change => Some (TokenCandidate.mk (BalanceChange.mint change) "account_data")
      | None => None
      end
  end.

(** What [parseTransaction] returns. *)
Record Parsed : Type := mkParsed {
  token : option TokenCandidate.t;
  swap : option SwapRecord.t;
  pool : option PoolRecord.t;
}.

Definition empty_parsed : Parsed := mkParsed None None None.

(** [parseTransaction(tx)] on the signature cache, when the clock reads
    [now]; a [null] entry of the payload is [None]. *)
Definition parseTransaction (toUpperCase : string -> string) (now : Z)
    (tx : option RawTx.t) (c : LRUCache) : Parsed * LRUCache :=
  match tx with
  | None => (empty_parsed, c)
  | Some tx =>
      let signature := RawTx.signature tx in
      let (first_time, c1) :=
        if truthy_str signature
        then checkAndMarkSignature (default "" signature) c
        else (true, c) in
      if negb first_time then (empty_parsed, c1)
      else
        let type :=
          if truthy_str (RawTx.type tx) then default "" (RawTx.type tx)
          else identifyTransactionType toUpperCase tx in
        let result :=
          if String.eqb type "SWAP" then
            let swap := parseSwapTransaction now (RawTx.to_tx tx) in
            mkParsed
              ((fun s => TokenCandidate.mk (Some (SwapRecord.token_mint s)) "swap")
                 <$> swap)
              swap None
          else if String.eqb type "CREATE_POOL" || String.eqb type "INITIALIZE_POOL"
          then
            let pool := parsePoolCreation now tx in
            mkParsed
              ((fun p => TokenCandidate.mk (Some (PoolRecord.token_mint p))
                           "pool_creation") <$> pool)
              None pool
          else if String.eqb type "TRANSFER" || String.eqb type "TOKEN_MINT"
          then mkParsed (parseTokenFromTransfer tx) None None
          else mkParsed (extractMintFromTransaction tx) None None in
        (result, c1)
  end.

(** The webhook body: an array of transactions, or a single one. *)
Inductive Payload : Type :=
| Batch (transactions : list (option RawTx.t))
| Single (transaction : option RawTx.t).

(** What [parseWebhookPayload] collects ([raw] is the payload itself). *)
Record Results : Type := mkResults {
  tokens : list TokenCandidate.t;
  swaps : list SwapRecord.t;
  pools : list PoolRecord.t;
}.

Definition push {A} (l : list A) (x : option A) : list A :=
  match x with
  | Some a => l ++ [a]
  | None => l
  end.

(** One round of the loop of [parseWebhookPayload]. *)
Definition payload_step (toUpperCase : string -> string) (now : Z)
    (st : Results * LRUCache) (tx : option RawTx.t) : Results * LRUCache :=
  let (parsed, c) := parseTransaction toUpperCase now tx (snd st) in
  (mkResults (push (tokens (fst st)) (token parsed))
     (push (swaps (fst st)) (swap parsed))
     (push (pools (fst st)) (pool parsed)),
   c).

(** [parseWebhookPayload(payload)] on the signature cache; the clock reads
    of one call are taken at one instant.  On the transactions of this
    model [parseTransaction] does not throw, so the handler of the loop is
    never entered. *)
Definition parseWebhookPayload (toUpperCase : string -> string) (now : Z)
    (payload : Payload) (c : LRUCache) : Results * LRUCache :=
  let transactions :=
    match payload with
    | Batch transactions => transactions
    | Single transaction => [transaction]
    end in
  fold_left (payload_step toUpperCase now) transactions (mkResults [] [] [], c).

(** [getEventType(tx)] *)
Definition getEventType (tx : RawTx.t) : string :=
  if truthy_str (RawTx.type tx) then default "" (RawTx.type tx)
  else if truthy_str (RawTx.source tx)
  then (default "" (RawTx.source tx) ++ "_TRANSACTION")%string
  else "UNKNOWN".

End Normalizer.

(* ===================================================================== *)
(** * supabase.js: the ranking of [getTopScoredTokens] *)
(* ===================================================================== *)

(** A row of [scores] as the ranking reads it. *)
Module ScoreRow.
Record t : Type := mk { token_mint : string; score : Z; ts : Z }.
End ScoreRow.

Module Ranking.

(** The loop of [getTopScoredTokens] over the rows the query returned:
    [seen] is the set of mints met, [unique] the rows kept. *)
Fixpoint dedupe_loop (limit : Z) (seen : gset string) (unique : list ScoreRow.t)
    (data : list ScoreRow.t) : list ScoreRow.t :=
  match data with
  | [] => unique
  | score :: rest =>
      if bool_decide (ScoreRow.token_mint score ∈ seen)
      then dedupe_loop limit seen unique rest
      else
        let seen1 := {[ ScoreRow.token_mint score ]} ∪ seen in
        let unique1 := unique ++ [score] in
        if limit <=? Z.of_nat (length unique1) then unique1
        else dedupe_loop limit seen1 unique1 rest
  end.

(** [getTopScoredTokens(minutes, limit)], from the rows the query returned
    ([data], the scores since [minutes] ago by descending score). *)
Definition getTopScoredTokens (limit : Z) (data : option (list ScoreRow.t))
  : list ScoreRow.t :=
  dedupe_loop limit ∅ [] (default [] data).

End Ranking.

(* ===================================================================== *)
(** * workers/enrich_worker.js: holder distribution, best pool, retries *)
(* ===================================================================== *)

(** One of the largest accounts of a token, as the RPC lists them; [amount]
    is the numeric value of the decimal string. *)
Module HolderAccount.
Record t : Type := mk {
  address : option string;
  uiAmount : option Q;
  amount : option Q;
}.
End HolderAccount.

(** The snapshot [calculateHolderDistribution] returns. *)
Module HolderSnapshot.
Record meta : Type := mkMeta {
  total_from_top : Q;
  top_holders : list (option string * option Q);
}.
Record t : Type := mk {
  holder_count : Z;
  top1_pct : Q;
  top5_pct : Q;
  top10_pct : Q;
  top20_pct : Q;
  details : option meta;
}.
End HolderSnapshot.

Module EnrichWorker.
Import Js.

(** [parseFloat(h.uiAmount || h.amount || 0)] *)
Definition amount_of (h : HolderAccount.t) : Q :=
  or_zero (or_num (HolderAccount.uiAmount h) (HolderAccount.amount h)).

(** [[...holders].sort((a, b) => amountB - amountA)]: descending by
    amount, equal amounts kept in their original order. *)
Fixpoint insert_holder (x : HolderAccount.t) (l : list HolderAccount.t)
  : list HolderAccount.t :=
  match l with
  | [] => [x]
  | y :: l' =>
      if Qle_bool (amount_of y) (amount_of x) then x :: l
      else y :: insert_holder x l'
  end.

Definition sort_holders (l : list HolderAccount.t) : list HolderAccount.t :=
  fold_right insert_holder [] l.

(** [l.reduce((sum, h) => sum + parseFloat(...), 0)] *)
Definition sum_amounts (l : list HolderAccount.t) : Q :=
  fold_left (fun sum h => (sum + amount_of h)%Q) l 0%Q.

(** [calculateHolderDistribution(holders)] *)
Definition calculateHolderDistribution (holders : option (list HolderAccount.t))
  : HolderSnapshot.t :=
  match holders with
  | None | Some [] => HolderSnapshot.mk 0 0 0 0 0 None
  | Some holders =>
      let sorted := sort_holders holders in
      let totalFromTop := sum_amounts sorted in
      if Qeq_bool totalFromTop 0
      then HolderSnapshot.mk (Z.of_nat (length sorted)) 0 0 0 0 None
      else
        let top1Amount := sum_amounts (firstn 1 sorted) in
        let top5Amount := sum_amounts (firstn 5 sorted) in
        let top10Amount := sum_amounts (firstn 10 sorted) in
        let top20Amount := sum_amounts (firstn 20 sorted) in
        HolderSnapshot.mk (Z.of_nat (length sorted))
          (top1Amount / totalFromTop * 100)%Q
          (top5Amount / totalFromTop * 100)%Q
          (top10Amount / totalFromTop * 100)%Q
          (top20Amount / totalFromTop * 100)%Q
          (Some (HolderSnapshot.mkMeta totalFromTop
                   (map (fun h =>
                           (HolderAccount.address h,
                            or_num (HolderAccount.uiAmount h) (HolderAccount.amount h)))
                      (firstn 5 sorted))))
  end.

(** The pool [enrichToken] reads the liquidity from:
    [pools.reduce((best, p) =>
       (p.liquidity_usd || 0) > (best?.liquidity_usd || 0) ? p : best, null)]. *)
Definition bestPool (pools : list Pool.t) : option Pool.t :=
  fold_left
    (fun best p =>
       if Score.gt (or_zero (Pool.liquidity_usd p))
            (or_zero (opt_member best Pool.liquidity_usd))
       then Some p else best)
    pools None.

(** What one call of the function under retry does: it resolves with a
    value or rejects with an error. *)
Inductive Attempt (A E : Type) : Type :=
| Resolves (a : A)
| Rejects (err : E).
Arguments Resolves {A E} a.
Arguments Rejects {A E} err.

(** How [retryWithBackoff] ends: with the value, or throwing [lastError],
    which is [undefined] when no call was made. *)
Inductive Outcome (A E : Type) : Type :=
| Returns (a : A)
| Throws (err : option E).
Arguments Returns {A E} a.
Arguments Throws {A E} err.

(** What [retryWithBackoff] does, in order: calls of [fn] and sleeps. *)
Inductive Event : Type :=
| Call (attempt : nat)
| Sleep (ms : Z).

Definition MAX_RETRIES : Z := 3.
Definition RETRY_DELAY_MS : Z := 1000.

Section Retry.
Context {A E : Type}.
(** [err.status]; the answer of the [i]-th call of [fn]. *)
Variable status : E -> option Z.
Variable fn : nat -> Attempt A E.
Variable maxRetries : Z.
Variable delay : Z.

(** The loop of [retryWithBackoff] from round [i], with [remaining] rounds
    to go. *)
Fixpoint retry_loop (remaining : nat) (i : nat) (lastError : option E)
    (trace : list Event) : Outcome A E * list Event :=
  match remaining with
  | O => (Throws lastError, trace)
  | S remaining' =>
      match fn i with
      | Resolves a => (Returns a, trace ++ [Call i])
      | Rejects err =>
          if bool_decide (status err = Some 404)
             || bool_decide (status err = Some 400)
          then (Throws (Some err), trace ++ [Call i])
          else if Z.of_nat i <? maxRetries - 1
          then retry_loop remaining' (S i) (Some err)
                 (trace ++ [Call i; Sleep (delay * 2 ^ Z.of_nat i)])
          else retry_loop remaining' (S i) (Some err) (trace ++ [Call i])
      end
  end.

(** [retryWithBackoff(fn, maxRetries, delay)]: the outcome and what was
    done to reach it. *)
Definition retryWithBackoff : Outcome A E * list Event :=
  retry_loop (Z.to_nat maxRetries) 0 None [].

End Retry.

End EnrichWorker.

(* ===================================================================== *)
(** * scoring/rules.js: score labels; telegram/format.js: escaping *)
(* ===================================================================== *)

Module Labels.

(** [Object.entries(SCORE_LABELS)]: integer keys come in ascending order;
    each key is held as the number [parseInt] and the subtraction of the
    comparator read it as. *)
Definition SCORE_LABELS : list (Z * string) :=
  [ (0, "Very Poor"); (40, "Poor"); (50, "Weak"); (60, "Moderate");
    (70, "Strong"); (80, "Very Strong"); (90, "Exceptional") ].

(** [.sort((a, b) => b[0] - a[0])] *)
Fixpoint insert_label (x : Z * string) (l : list (Z * string)) : list (Z * string) :=
  match l with
  | [] => [x]
  | y :: l' => if fst y <=? fst x then x :: l else y :: insert_label x l'
  end.

Definition sort_labels (l : list (Z * string)) : list (Z * string) :=
  fold_right insert_label [] l.

(** [getScoreLabel(score)] *)
Definition getScoreLabel (score : Z) : string :=
  match find (fun entry => fst entry <=? score) (sort_labels SCORE_LABELS) with
  | Some entry => snd entry
  | None => "Very Poor"
  end.

End Labels.

Module Format.
Import Js.

(** The characters of the class [[_*[\]()~`>#+=|{}.!-]]; all of them are
    ASCII, so on the bytes of a UTF-8 text they match exactly where they
    match in the text. *)
Definition special_characters : string := "_*[]()~`>#+=|{}.!-".

Definition is_special (c : ascii) : bool :=
  existsb (Ascii.eqb c) (list_ascii_of_string special_characters).

Definition backslash : ascii := ascii_of_nat 92.

(** [text.replace(/[...]/g, '\\$&')]: a backslash before every special
    character. *)
Fixpoint escape (s : string) : string :=
  match s with
  | EmptyString => EmptyString
  | String c s' =>
      if is_special c then String backslash (String c (escape s'))
      else String c (escape s')
  end.

(** [escapeMarkdown(text)] *)
Definition escapeMarkdown (text : option string) : string :=
  if truthy_str text then escape (default "" text) else "".

End Format.

(* ===================================================================== *)
(** * Properties *)
(* ===================================================================== *)

Section DedupeFacts.
Import Dedupe.
#[local] Arguments map_has : simpl never.

Lemma map_has_In key m : map_has key m = true <-> In key (map fst m).
Proof.
  unfold map_has. rewrite existsb_exists. split.
  - intros [[k v] [Hin Heq]]. apply String.eqb_eq in Heq. simpl in Heq. subst.
    apply in_map_iff. exists (key, v). auto.
  - intros Hin. apply in_map_iff in Hin. destruct Hin as [[k v] [Hk Hin]].
    simpl in Hk. subst. exists (key, v). split; [assumption|]. apply String.eqb_refl.
Qed.

Lemma map_has_cons key k v m :
  map_has key ((k, v) :: m) = String.eqb k key || map_has key m.
Proof. reflexivity. Qed.

Lemma map_has_app key m1 m2 :
  map_has key (m1 ++ m2) = map_has key m1 || map_has key m2.
Proof. unfold map_has. apply existsb_app. Qed.

Lemma map_delete_absent key m : map_has key m = false -> map_delete key m = m.
Proof.
  induction m as [|[k v] m IH]; simpl; [reflexivity|].
  rewrite map_has_cons. intros H. apply orb_false_iff in H as [Hk Hm].
  rewrite Hk. f_equal. auto.
Qed.

Lemma map_has_delete key k m :
  map_has k (map_delete key m) = negb (String.eqb key k) && map_has k m.
Proof.
  induction m as [|[k0 v] m IH]; simpl.
  - now rewrite andb_false_r.
  - destruct (String.eqb_spec k0 key) as [->|Hne].
    + rewrite IH, map_has_cons. destruct (String.eqb key k); reflexivity.
    + rewrite !map_has_cons, IH.
      destruct (String.eqb_spec k0 k) as [->|Hne2]; simpl; [|reflexivity].
      destruct (String.eqb_spec key k) as [->|_]; [congruence | reflexivity].
Qed.

Lemma map_set_absent key v m :
  map_has key m = false -> map_set key v m = m ++ [(key, v)].
Proof.
  induction m as [|[k0 v0] m IH]; simpl; [reflexivity|].
  rewrite map_has_cons. intros H. apply orb_false_iff in H as [Hk Hm].
  rewrite Hk. f_equal. auto.
Qed.

Lemma map_get_has key m :
  map_has key m = true -> exists v, map_get key m = Some v.
Proof.
  induction m as [|[k0 v0] m IH]; simpl; [discriminate|].
  rewrite map_has_cons. destruct (String.eqb k0 key); simpl; eauto.
Qed.

Lemma keys_map_delete key m :
  map fst (map_delete key m) = filter (fun k => k <> key) (map fst m).
Proof.
  induction m as [|[k v] m IH]; simpl; [reflexivity|].
  destruct (String.eqb_spec k key) as [->|Hne]; simpl.
  - rewrite filter_cons_False by (intros H; now apply H). assumption.
  - rewrite filter_cons_True by assumption. now f_equal.
Qed.

Lemma map_has_elem key m : map_has key m = true <-> key ∈ map fst m.
Proof. rewrite map_has_In. symmetry. apply list_elem_of_In. Qed.

Lemma map_has_not_elem key m : map_has key m = false <-> key ∉ map fst m.
Proof.
  rewrite <- map_has_elem. destruct (map_has key m); split; congruence.
Qed.

(** What [has] does, in one equation: an absent key leaves the cache as
    it was; a present key is taken out and put back last. *)
Lemma has_eq key c :
  has key c =
    if map_has key (cache c)
    then (true,
          mkLRU (maxSize c)
            (map_delete key (cache c)
               ++ [(key, default true (map_get key (cache c)))]))
    else (false, c).
Proof.
  unfold has. destruct (map_has key (cache c)) eqn:Hhas; simpl; [|reflexivity].
  destruct (map_get_has _ _ Hhas) as [v ->]. simpl.
  rewrite map_set_absent; [reflexivity|].
  rewrite map_has_delete, String.eqb_refl. reflexivity.
Qed.

Lemma wf_delete_set key v c :
  wf c -> wf (mkLRU (maxSize c) (map_delete key (cache c) ++ [(key, v)])).
Proof.
  unfold wf, keys. simpl. intros Hnd.
  rewrite map_app, keys_map_delete. simpl.
  apply NoDup_app. split; [now apply NoDup_filter|]. split.
  - intros x Hin Hx. apply list_elem_of_filter in Hin as [Hne _].
    apply list_elem_of_singleton in Hx. contradiction.
  - apply NoDup_singleton.
Qed.

Lemma has_wf key c : wf c -> wf (snd (has key c)).
Proof.
  intros Hwf. rewrite has_eq. destruct (map_has key (cache c)); simpl; [|assumption].
  now apply wf_delete_set.
Qed.

(** What [add] does to a key the cache does not hold. *)
Lemma add_absent_eq key v c :
  map_has key (cache c) = false ->
  wf c ->
  add key v c =
    mkLRU (maxSize c)
      ((if (maxSize c <=? length (cache c))%nat then tl (cache c) else cache c)
         ++ [(key, v)]).
Proof.
  intros Habs Hwf. unfold add, map_size. rewrite Habs.
  destruct (maxSize c <=? length (cache c))%nat eqn:Hfull.
  - destruct (cache c) as [|[k0 v0] m] eqn:Hc; simpl.
    + reflexivity.
    + rewrite String.eqb_refl.
      assert (Hk0 : map_has k0 m = false).
      { unfold wf, keys in Hwf. rewrite Hc in Hwf. simpl in Hwf.
        apply NoDup_cons in Hwf as [Hnin _]. now apply map_has_not_elem. }
      rewrite (map_delete_absent _ _ Hk0).
      rewrite map_set_absent; [reflexivity|].
      rewrite map_has_cons in Habs. apply orb_false_iff in Habs. tauto.
  - rewrite map_set_absent; [reflexivity | assumption].
Qed.

(** What [checkAndMarkSignature] does, in one equation. *)
Lemma checkAndMark_eq key c :
  wf c ->
  checkAndMarkSignature key c =
    if map_has key (cache c)
    then (false, snd (has key c))
    else (true,
          mkLRU (maxSize c)
            ((if (maxSize c <=? length (cache c))%nat
              then tl (cache c) else cache c) ++ [(key, true)])).
Proof.
  intros Hwf. unfold checkAndMarkSignature. rewrite has_eq.
  destruct (map_has key (cache c)) eqn:Hhas; simpl; [reflexivity|].
  now rewrite add_absent_eq.
Qed.

Lemma wf_snoc key v n m :
  NoDup (map fst m) -> map_has key m = false ->
  wf (mkLRU n (m ++ [(key, v)])).
Proof.
  intros Hnd Habs. unfold wf, keys. simpl. rewrite map_app. simpl.
  apply NoDup_app. split; [assumption|split].
  - intros x Hin Hx. apply list_elem_of_singleton in Hx. subst.
    now apply map_has_not_elem in Habs.
  - apply NoDup_singleton.
Qed.

Lemma wf_tl_snoc key v n m :
  NoDup (map fst m) -> map_has key m = false ->
  wf (mkLRU n (tl m ++ [(key, v)])).
Proof.
  intros Hnd Habs. destruct m as [|[k0 v0] m]; simpl.
  - now apply (wf_snoc key v n []).
  - simpl in Hnd. apply NoDup_cons in Hnd as [_ Hnd].
    rewrite map_has_cons in Habs. apply orb_false_iff in Habs as [_ Habs].
    now apply wf_snoc.
Qed.

Lemma checkAndMark_wf key c : wf c -> wf (snd (checkAndMarkSignature key c)).
Proof.
  intros Hwf. rewrite checkAndMark_eq by assumption.
  destruct (map_has key (cache c)) eqn:Hhas; simpl.
  - now apply has_wf.
  - destruct (maxSize c <=? length (cache c))%nat.
    + now apply wf_tl_snoc.
    + now apply wf_snoc.
Qed.

(** Below capacity, fresh distinct keys are appended in order and every
    call answers [true]. *)
Lemma checkAndMark_all_room (ks : list string) : forall c,
  wf c ->
  NoDup ks ->
  (forall k, In k ks -> map_has k (cache c) = false) ->
  (length (cache c) + length ks <= maxSize c)%nat ->
  checkAndMark_all ks c =
    (repeat true (length ks),
     mkLRU (maxSize c) (cache c ++ map (fun k => (k, true)) ks)).
Proof.
  induction ks as [|k ks IH]; intros c Hwf Hnd Hfresh Hlen; simpl.
  - rewrite app_nil_r. now destruct c.
  - rewrite checkAndMark_eq by assumption.
    rewrite (Hfresh k) by now left.
    simpl in Hlen.
    destruct (maxSize c <=? length (cache c))%nat eqn:Hfull.
    { apply Nat.leb_le in Hfull. lia. }
    apply NoDup_cons in Hnd as [Hk Hnd].
    rewrite IH; simpl.
    + now rewrite <- app_assoc.
    + apply wf_snoc; [exact Hwf | apply Hfresh; now left].
    + assumption.
    + intros k' Hin. rewrite map_has_app, (Hfresh k') by now right.
      simpl. rewrite map_has_cons. simpl. rewrite orb_false_r.
      destruct (String.eqb_spec k k') as [->|]; [|reflexivity].
      exfalso. apply Hk. now apply list_elem_of_In.
    + rewrite length_app. simpl. lia.
Qed.

Lemma wf_snoc_all (ks : list string) (n : nat) :
  NoDup ks -> wf (mkLRU n ([] ++ map (fun k => (k, true)) ks)).
Proof.
  intros Hnd. unfold wf, keys. simpl. rewrite map_map. simpl.
  now rewrite map_id.
Qed.

Lemma map_delete_app key m1 m2 :
  map_delete key (m1 ++ m2) = map_delete key m1 ++ map_delete key m2.
Proof.
  induction m1 as [|[k v] m1 IH]; simpl; [reflexivity|].
  destruct (String.eqb k key); simpl; [assumption | now f_equal].
Qed.

Lemma map_delete_length key m : (length (map_delete key m) <= length m)%nat.
Proof.
  induction m as [|[k v] m IH]; simpl; [lia|].
  destruct (String.eqb k key); simpl; lia.
Qed.

(** [key] is held with at most [j] keys used more recently. *)
Definition recent (key : string) (j : nat) (c : LRUCache) : Prop :=
  exists pre v post,
    cache c = pre ++ (key, v) :: post /\ (length post <= j)%nat.

Lemma recent_has key j c : recent key j c -> map_has key (cache c) = true.
Proof.
  intros (pre & v & post & -> & _).
  rewrite map_has_app, map_has_cons, String.eqb_refl. simpl. apply orb_true_r.
Qed.

Lemma checkAndMark_recent key c :
  wf c -> recent key 0 (snd (checkAndMarkSignature key c)).
Proof.
  intros Hwf. rewrite checkAndMark_eq by assumption.
  destruct (map_has key (cache c)) eqn:Hhas; simpl.
  - rewrite has_eq, Hhas. simpl. eexists _, _, []. split; [reflexivity|simpl; lia].
  - eexists _, _, []. split; [reflexivity|simpl; lia].
Qed.

(** A call for another key pushes a held key back by at most one place,
    and cannot evict it while fewer than [maxSize - 1] keys are more
    recent. *)
Lemma recent_step key k j c :
  wf c -> k <> key -> recent key j c -> (S j < maxSize c)%nat ->
  recent key (S j) (snd (checkAndMarkSignature k c)).
Proof.
  intros Hwf Hne (pre & v & post & Hc & Hlen) Hj.
  rewrite checkAndMark_eq by assumption.
  destruct (map_has k (cache c)) eqn:Hhas; simpl.
  - rewrite has_eq, Hhas. simpl. rewrite Hc, map_delete_app. simpl.
    destruct (String.eqb_spec key k) as [->|_]; [contradiction|].
    exists (map_delete k pre), v, (map_delete k post ++ [(k, default true (map_get k (pre ++ (key, v) :: post)))]).
    split; [now rewrite <- app_assoc|].
    rewrite length_app. simpl. pose proof (map_delete_length k post). lia.
  - destruct (maxSize c <=? length (cache c))%nat eqn:Hfull.
    + apply Nat.leb_le in Hfull. rewrite Hc in *. rewrite length_app in Hfull.
      simpl in Hfull. destruct pre as [|e pre]; simpl in *; [lia|].
      exists pre, v, (post ++ [(k, true)]).
      split; [now rewrite <- app_assoc|]. rewrite length_app. simpl. lia.
    + rewrite Hc. exists pre, v, (post ++ [(k, true)]).
      split; [now rewrite <- app_assoc|]. rewrite length_app. simpl. lia.
Qed.

Lemma checkAndMark_maxSize key c :
  wf c -> maxSize (snd (checkAndMarkSignature key c)) = maxSize c.
Proof.
  intros Hwf. rewrite checkAndMark_eq by assumption.
  destruct (map_has key (cache c)) eqn:Hhas; simpl; [|reflexivity].
  rewrite has_eq, Hhas. reflexivity.
Qed.

Lemma recent_all key (ks : list string) : forall j c,
  wf c -> Forall (fun k => k <> key) ks -> recent key j c ->
  (j + length ks < maxSize c)%nat ->
  recent key (j + length ks) (snd (checkAndMark_all ks c)).
Proof.
  induction ks as [|k ks IH]; intros j c Hwf Hks Hrec Hlen; simpl.
  - now rewrite Nat.add_0_r.
  - apply Forall_cons in Hks as [Hk Hks]. simpl in Hlen.
    pose proof (recent_step key k j c Hwf Hk Hrec ltac:(lia)) as Hstep.
    pose proof (checkAndMark_wf k c Hwf) as Hwf1.
    pose proof (checkAndMark_maxSize k c Hwf) as Hmax.
    destruct (checkAndMarkSignature k c) as [b c1]. simpl in *.
    specialize (IH (S j) c1 Hwf1 Hks Hstep ltac:(lia)).
    destruct (checkAndMark_all ks c1) as [bs c2]. simpl in *.
    now replace (j + S (length ks))%nat with (S j + length ks)%nat by lia.
Qed.

Lemma checkAndMark_all_wf (ks : list string) : forall c,
  wf c -> wf (snd (checkAndMark_all ks c)).
Proof.
  induction ks as [|k ks IH]; intros c Hwf; simpl; [assumption|].
  pose proof (checkAndMark_wf k c Hwf) as Hwf1.
  destruct (checkAndMarkSignature k c) as [b c1]. simpl in *.
  specialize (IH c1 Hwf1). now destruct (checkAndMark_all ks c1).
Qed.

End DedupeFacts.

Section DedupeClaims.
Import Dedupe.
#[local] Arguments map_has : simpl never.

Lemma map_get_app_absent k m1 m2 :
  map_has k m1 = false -> map_get k (m1 ++ m2) = map_get k m2.
Proof.
  induction m1 as [|[k0 v0] m1 IH]; simpl; [reflexivity|].
  rewrite map_has_cons. intros H. apply orb_false_iff in H as [Hk Hm].
  rewrite Hk. auto.
Qed.

Lemma map_get_app_present k m1 m2 :
  map_has k m1 = true -> map_get k (m1 ++ m2) = map_get k m1.
Proof.
  induction m1 as [|[k0 v0] m1 IH]; simpl; [discriminate|].
  rewrite map_has_cons. destruct (String.eqb k0 k); simpl; auto.
Qed.

Lemma map_get_absent k m : map_has k m = false -> map_get k m = None.
Proof.
  induction m as [|[k0 v0] m IH]; simpl; [reflexivity|].
  rewrite map_has_cons. intros H. apply orb_false_iff in H as [Hk Hm].
  rewrite Hk. auto.
Qed.

Lemma map_get_delete_ne key k m :
  key <> k -> map_get k (map_delete key m) = map_get k m.
Proof.
  intros Hne. induction m as [|[k0 v0] m IH]; simpl; [reflexivity|].
  destruct (String.eqb_spec k0 key) as [->|Hk0]; simpl.
  - destruct (String.eqb_spec key k); [contradiction | assumption].
  - now rewrite IH.
Qed.

(** C5, as amended.  The membership test [has] (reached through
    [hasSeenSignature]) answers whether the key is present and never
    changes the capacity, which keys are present or the values they hold.
    An absent key leaves the eviction order as it was; a present key is
    promoted: it moves to the most-recently-used end of the eviction
    order, and the other keys keep their relative order. *)
Theorem has_promotes_present_key (key : string) (c : LRUCache) :
  fst (hasSeenSignature key c) = map_has key (cache c) /\
  maxSize (snd (hasSeenSignature key c)) = maxSize c /\
  (forall k, map_has k (cache (snd (hasSeenSignature key c)))
             = map_has k (cache c)) /\
  (forall k, map_get k (cache (snd (hasSeenSignature key c)))
             = map_get k (cache c)) /\
  keys (snd (hasSeenSignature key c)) =
    (if map_has key (cache c)
     then filter (fun k => k <> key) (keys c) ++ [key]
     else keys c).
Proof.
  unfold hasSeenSignature. rewrite has_eq.
  destruct (map_has key (cache c)) eqn:Hhas; simpl.
  2:{ repeat split; reflexivity. }
  split; [reflexivity|]. split; [reflexivity|]. split; [|split].
  - intros k. rewrite map_has_app, map_has_delete, map_has_cons.
    destruct (String.eqb_spec key k) as [->|Hne]; simpl.
    + now rewrite Hhas.
    + now rewrite orb_false_r.
  - intros k. destruct (String.eqb_spec key k) as [->|Hne].
    + rewrite map_get_app_absent
        by (rewrite map_has_delete, String.eqb_refl; reflexivity).
      simpl. rewrite String.eqb_refl.
      destruct (map_get_has _ _ Hhas) as [v ->]. reflexivity.
    + destruct (map_has k (cache c)) eqn:Hk.
      * rewrite map_get_app_present.
        -- now apply map_get_delete_ne.
        -- rewrite map_has_delete, Hk.
           destruct (String.eqb_spec key k); [contradiction | reflexivity].
      * rewrite map_get_app_absent
          by (rewrite map_has_delete, Hk; apply andb_false_r).
        simpl. destruct (String.eqb_spec key k); [contradiction|].
        symmetry. now apply map_get_absent.
  - unfold keys. simpl. rewrite map_app, keys_map_delete. reflexivity.
Qed.

(** C5, the claim as stated fails: on the cache holding [a] then [b],
    asking whether [a] was seen reverses the eviction order, and the next
    insertion at capacity evicts [b] where it would have evicted [a]. *)
Lemma has_changes_eviction_order :
  keys (snd (hasSeenSignature "a" (mkLRU 2 [("a", true); ("b", true)])))
    <> keys (mkLRU 2 [("a", true); ("b", true)]) /\
  keys (add "c" true (mkLRU 2 [("a", true); ("b", true)])) = ["b"; "c"] /\
  keys (add "c" true
          (snd (hasSeenSignature "a" (mkLRU 2 [("a", true); ("b", true)]))))
    = ["a"; "c"].
Proof. repeat split; [discriminate]. Qed.

(** C6.  On a cache that holds each key once:
    - [checkAndMarkSignature] answers [true] exactly when the key is not
      in the cache, so the first call for a key answers [true] and a later
      call answers [false] for as long as the key is held; after the call
      the key is held;
    - a call for another key removes a held key only by evicting it: the
      call was for a new key, the cache was full, and the removed key was
      the least recently used one;
    - after a call for a key, any sequence of fewer than [maxSize] calls
      for other keys leaves it held, so the next call for it answers
      [false];
    - a new key put into a full cache of positive capacity evicts the
      least recently used key and no other;
    - [capacity + 1] distinct keys put into an empty cache of positive
      capacity all answer [true] and leave every key but the first. *)
Theorem checkAndMark_first_true_then_false_until_evicted :
  (forall (c : LRUCache) (key : string),
      wf c ->
      fst (checkAndMarkSignature key c) = negb (map_has key (cache c)) /\
      map_has key (cache (snd (checkAndMarkSignature key c))) = true /\
      wf (snd (checkAndMarkSignature key c)) /\
      maxSize (snd (checkAndMarkSignature key c)) = maxSize c /\
      (forall k, k <> key -> map_has k (cache c) = true ->
         map_has k (cache (snd (checkAndMarkSignature key c))) = false ->
         fst (checkAndMarkSignature key c) = true /\
         (maxSize c <= size c)%nat /\
         map_first_key (cache c) = Some k)) /\
  (forall (c : LRUCache) (key : string) (others : list string),
      wf c -> Forall (fun k => k <> key) others ->
      (length others < maxSize c)%nat ->
      fst (checkAndMarkSignature key
             (snd (checkAndMark_all others
                     (snd (checkAndMarkSignature key c)))))
      = false) /\
  (forall (c : LRUCache) (key : string),
      wf c -> (0 < maxSize c)%nat -> size c = maxSize c ->
      map_has key (cache c) = false ->
      keys (snd (checkAndMarkSignature key c)) = tl (keys c) ++ [key]) /\
  (forall (n : nat) (ks : list string),
      (0 < n)%nat -> NoDup ks -> length ks = S n ->
      checkAndMark_all ks (new_cache n)
      = (repeat true (S n),
         mkLRU n (map (fun k => (k, true)) (tl ks)))).
Proof.
  split; [|split; [|split]].
  - intros c key Hwf. split; [|split; [|split; [|split]]].
    + rewrite checkAndMark_eq by assumption.
      now destruct (map_has key (cache c)).
    + rewrite checkAndMark_eq by assumption.
      destruct (map_has key (cache c)) eqn:Hhas; simpl.
      * rewrite has_eq, Hhas. simpl.
        rewrite map_has_app, map_has_cons, String.eqb_refl. simpl.
        apply orb_true_r.
      * rewrite map_has_app, map_has_cons, String.eqb_refl. simpl.
        apply orb_true_r.
    + now apply checkAndMark_wf.
    + rewrite checkAndMark_eq by assumption.
      destruct (map_has key (cache c)) eqn:Hhas; simpl; [|reflexivity].
      rewrite has_eq, Hhas. reflexivity.
    + intros k Hne Hk. rewrite checkAndMark_eq by assumption.
      destruct (map_has key (cache c)) eqn:Hhas; simpl.
      * rewrite has_eq, Hhas. simpl.
        rewrite map_has_app, map_has_delete, Hk.
        destruct (String.eqb_spec key k); [congruence | discriminate].
      * unfold size, map_size.
        destruct (maxSize c <=? length (cache c))%nat eqn:Hfull.
        -- apply Nat.leb_le in Hfull. intros Hgone.
           split; [reflexivity|]. split; [assumption|].
           destruct (cache c) as [|[k0 v0] m]; simpl in *.
           ++ discriminate.
           ++ rewrite map_has_cons in Hk. rewrite map_has_app in Hgone.
              apply orb_false_iff in Hgone as [Hm _]. rewrite Hm in Hk.
              rewrite orb_false_r in Hk. apply String.eqb_eq in Hk. now subst.
        -- rewrite map_has_app, Hk. discriminate.
  - intros c key others Hwf Hothers Hlen.
    pose proof (checkAndMark_wf key c Hwf) as Hwf1.
    pose proof (checkAndMark_recent key c Hwf) as Hrec.
    pose proof (checkAndMark_maxSize key c Hwf) as Hmax.
    pose proof (recent_all key others 0 _ Hwf1 Hothers Hrec) as Hall.
    rewrite Hmax in Hall. specialize (Hall Hlen).
    rewrite checkAndMark_eq by now apply checkAndMark_all_wf.
    now rewrite (recent_has _ _ _ Hall).
  - intros c key Hwf Hpos Hsize Habs.
    rewrite checkAndMark_eq by assumption. rewrite Habs.
    unfold size, map_size in Hsize. rewrite Hsize, Nat.leb_refl.
    unfold keys. simpl. rewrite map_app. simpl.
    now destruct (cache c).
  - intros n ks Hpos Hnd Hlen.
    destruct ks as [|k0 ks]; [discriminate|]. simpl in Hlen.
    assert (Hsplit : exists ks' kl, ks = ks' ++ [kl]).
    { destruct ks as [|k1 ks] using rev_ind; [simpl in Hlen; lia|]. eauto. }
    destruct Hsplit as (ks' & kl & ->).
    rewrite length_app in Hlen. simpl in Hlen.
    change (k0 :: ks' ++ [kl]) with ((k0 :: ks') ++ [kl]) in *.
    apply NoDup_app in Hnd as (Hnd1 & Hdisj & _).
    assert (Hrun :
      forall l1 l2 c0,
        checkAndMark_all (l1 ++ l2) c0
        = (fst (checkAndMark_all l1 c0)
             ++ fst (checkAndMark_all l2 (snd (checkAndMark_all l1 c0))),
           snd (checkAndMark_all l2 (snd (checkAndMark_all l1 c0))))).
    { induction l1 as [|x l1 IH]; intros l2 c0; simpl.
      - now destruct (checkAndMark_all l2 c0).
      - destruct (checkAndMarkSignature x c0) as [b c1]. rewrite IH.
        destruct (checkAndMark_all l1 c1) as [bs c2]. simpl.
        reflexivity. }
    rewrite Hrun.
    rewrite (checkAndMark_all_room (k0 :: ks') (new_cache n)).
    + simpl fst. simpl snd. simpl checkAndMark_all.
      rewrite checkAndMark_eq.
      * simpl cache. simpl maxSize.
        assert (Habs : map_has kl ((k0, true) :: map (fun k => (k, true)) ks')
                       = false).
        { apply map_has_not_elem. simpl. rewrite map_map. simpl. rewrite map_id.
          intros Hin. apply (Hdisj kl Hin). now apply list_elem_of_singleton. }
        rewrite Habs.
        assert (Hfull : (n <=? length ((k0, true) :: map (fun k => (k, true)) ks'))%nat
                        = true).
        { apply Nat.leb_le. simpl. rewrite length_map. lia. }
        rewrite Hfull. simpl.
        f_equal.
        -- replace n with (length ks' + 1)%nat by lia.
           now rewrite repeat_app.
        -- f_equal. now rewrite map_app.
      * apply (wf_snoc_all (k0 :: ks') n). assumption.
    + unfold wf, keys. simpl. constructor.
    + assumption.
    + reflexivity.
    + simpl. lia.
Qed.

Lemma checkAndMark_first_true_then_false_until_evicted_witness :
  checkAndMark_all ["s1"; "s2"; "s3"] (new_cache 2)
    = ([true; true; true], mkLRU 2 [("s2", true); ("s3", true)]) /\
  keys (snd (checkAndMarkSignature "s3" (mkLRU 2 [("s1", true); ("s2", true)])))
    = ["s2"; "s3"] /\
  fst (checkAndMarkSignature "s1" (mkLRU 2 [("s1", true); ("s2", true)]))
    = false /\
  fst (checkAndMarkSignature "s1"
         (snd (checkAndMark_all ["s2"; "s2"]
                 (snd (checkAndMarkSignature "s1" (new_cache 3))))))
    = false.
Proof.
  destruct checkAndMark_first_true_then_false_until_evicted
    as (Hstep & Hlater & Hfull & Hcap).
  split; [|split; [|split]].
  - apply (Hcap 2%nat ["s1"; "s2"; "s3"]).
    + lia.
    + apply (bool_decide_unpack _). reflexivity.
    + reflexivity.
  - apply (Hfull (mkLRU 2 [("s1", true); ("s2", true)]) "s3").
    + apply (bool_decide_unpack _). reflexivity.
    + simpl. lia.
    + reflexivity.
    + reflexivity.
  - apply (Hstep (mkLRU 2 [("s1", true); ("s2", true)]) "s1").
    apply (bool_decide_unpack _). reflexivity.
  - apply (Hlater (new_cache 3) "s1" ["s2"; "s2"]).
    + apply (bool_decide_unpack _). reflexivity.
    + repeat constructor; discriminate.
    + simpl. lia.
Defined.

End DedupeClaims.

Section ScoreFacts.
Import Js Rules Score.

Lemma ge_weaken (v v' m : Q) : (v <= v')%Q -> ge v m = true -> ge v' m = true.
Proof.
  unfold ge. rewrite !Qle_bool_iff. intros Hv Hm. now apply Qle_trans with v.
Qed.

(** The tier [scoreByThreshold] reads its answer from, on an ordered
    table: the first one reached, else the last. *)
Definition select (value : Q) (ordered : list Tier.t) : option Tier.t :=
  match first_reached value ordered with
  | Some t => Some t
  | None => last ordered
  end.

Lemma scoreByThreshold_select value thresholds :
  scoreByThreshold value thresholds =
    match select value (sort_desc thresholds) with
    | Some t => Ok (Tier.points t, Tier.reason t)
    | None => Throw "TypeError"
    end.
Proof.
  unfold scoreByThreshold, select.
  destruct (first_reached value (sort_desc thresholds)); [reflexivity|].
  now destruct (last (sort_desc thresholds)).
Qed.

Lemma first_reached_In value l t : first_reached value l = Some t -> In t l.
Proof.
  induction l as [|x l IH]; simpl; [discriminate|].
  destruct (ge value (Tier.min x)); [intros [= ->]; now left | auto].
Qed.

Lemma last_In {A} (l : list A) (x : A) : last l = Some x -> In x l.
Proof.
  intros H. apply list_elem_of_In. apply last_Some in H as [l' ->].
  apply elem_of_app. right. now apply list_elem_of_singleton.
Qed.

Lemma select_In value l t : select value l = Some t -> In t l.
Proof.
  unfold select. destruct (first_reached value l) eqn:E.
  - intros [= <-]. eapply first_reached_In; eauto.
  - apply last_In.
Qed.

Lemma select_cons_skip value x y l :
  ge value (Tier.min x) = false ->
  select value (x :: y :: l) = select value (y :: l).
Proof. intros H. unfold select. simpl. now rewrite H. Qed.

Lemma select_nonempty value l : l <> [] -> is_Some (select value l).
Proof.
  intros Hne. unfold select. destruct (first_reached value l); [eauto|].
  destruct l as [|x l] using rev_ind; [contradiction|].
  rewrite last_snoc. eauto.
Qed.

(** Points never go up along the ordered table. *)
Definition points_desc (l : list Tier.t) : Prop :=
  StronglySorted (fun a b => Tier.points b <= Tier.points a) l.

(** On a table ordered by descending minimum whose points descend with
    it, a larger value never selects a tier worth fewer points. *)
Lemma select_monotone (l : list Tier.t) :
  points_desc l ->
  forall v v' t t',
    (v <= v')%Q ->
    select v l = Some t -> select v' l = Some t' ->
    Tier.points t <= Tier.points t'.
Proof.
  induction 1 as [|x l Hl IH Hx]; intros v v' t t' Hv Ht Ht'.
  - discriminate.
  - destruct (ge v (Tier.min x)) eqn:Hvx.
    + pose proof (ge_weaken _ _ _ Hv Hvx) as Hvx'.
      unfold select in Ht, Ht'. simpl in Ht, Ht'. rewrite Hvx in Ht.
      rewrite Hvx' in Ht'. injection Ht as <-. injection Ht' as <-. lia.
    + destruct (ge v' (Tier.min x)) eqn:Hvx'.
      * unfold select in Ht'. simpl in Ht'. rewrite Hvx' in Ht'.
        injection Ht' as <-. apply select_In in Ht. destruct Ht as [->|Hin].
        -- lia.
        -- rewrite Forall_forall in Hx. now apply Hx, list_elem_of_In.
      * destruct l as [|y l].
        -- unfold select in Ht, Ht'. simpl in Ht, Ht'.
           rewrite Hvx in Ht. rewrite Hvx' in Ht'.
           injection Ht as <-. injection Ht' as <-. lia.
        -- rewrite select_cons_skip in Ht, Ht' by assumption. eauto.
Qed.

(** The seven tables are written in descending order already, and their
    points descend with their minimums. *)
Definition positive_tables : list (list Tier.t) :=
  [ LIQUIDITY_THRESHOLDS; UNIQUE_BUYERS_1M_THRESHOLDS; SWAPS_1M_THRESHOLDS;
    VOLUME_1M_THRESHOLDS; HOLDER_COUNT_THRESHOLDS;
    UNIQUE_BUYERS_5M_THRESHOLDS; BUY_PRESSURE_THRESHOLDS ].

Fixpoint points_desc_b (l : list Tier.t) : bool :=
  match l with
  | [] => true
  | x :: l' =>
      forallb (fun y => Tier.points y <=? Tier.points x) l' && points_desc_b l'
  end.

Lemma points_desc_b_sound l : points_desc_b l = true -> points_desc l.
Proof.
  induction l as [|x l IH]; simpl; intros H; [constructor|].
  apply andb_true_iff in H as [Hx Hl]. constructor.
  - now apply IH.
  - rewrite forallb_forall in Hx. apply Forall_forall. intros y Hy.
    apply Z.leb_le, Hx. now apply list_elem_of_In.
Qed.

Lemma tables_ordered :
  Forall (fun T => sort_desc T = T /\ points_desc T /\ T <> []) positive_tables.
Proof.
  repeat constructor; try discriminate;
    try (apply points_desc_b_sound; vm_compute; reflexivity).
Qed.

Lemma table_facts T :
  In T positive_tables -> sort_desc T = T /\ points_desc T /\ T <> [].
Proof.
  intros Hin. pose proof tables_ordered as H. rewrite Forall_forall in H.
  now apply H, list_elem_of_In.
Qed.

(** The points and reason [scoreByThreshold] answers on a table that is
    not empty (a total reading of it). *)
Definition pick (value : Q) (thresholds : list Tier.t) : Z * string :=
  match select value (sort_desc thresholds) with
  | Some t => (Tier.points t, Tier.reason t)
  | None => (0, "")
  end.

Lemma scoreByThreshold_pick value T :
  In T positive_tables -> scoreByThreshold value T = Ok (pick value T).
Proof.
  intros Hin. destruct (table_facts T Hin) as (Hs & _ & Hne).
  rewrite scoreByThreshold_select. unfold pick. rewrite Hs.
  now destruct (select_nonempty value T Hne) as [t ->].
Qed.

Lemma pick_monotone T v v' :
  In T positive_tables -> (v <= v')%Q -> fst (pick v T) <= fst (pick v' T).
Proof.
  intros Hin Hv. destruct (table_facts T Hin) as (Hs & Hd & Hne).
  unfold pick. rewrite Hs.
  destruct (select_nonempty v T Hne) as [t Ht].
  destruct (select_nonempty v' T Hne) as [t' Ht'].
  rewrite Ht, Ht'. simpl. eapply select_monotone; eauto.
Qed.

End ScoreFacts.

Section PenaltyFacts.
Import Js Rules Score.

(** The penalty [penaltyByThreshold] answers on an ordered table. *)
Definition penalty_of (value : Q) (ordered : list PenaltyTier.t) : Z :=
  match first_penalty_reached value ordered with
  | Some t => PenaltyTier.penalty t
  | None => 0
  end.

Lemma penaltyByThreshold_penalty_of value thresholds :
  fst (penaltyByThreshold value thresholds)
  = penalty_of value (sort_penalty_desc thresholds).
Proof.
  unfold penaltyByThreshold, penalty_of.
  now destruct (first_penalty_reached value (sort_penalty_desc thresholds)).
Qed.

(** Along the ordered table penalties only get milder, and none is a
    bonus. *)
Definition penalties_asc (l : list PenaltyTier.t) : Prop :=
  StronglySorted (fun a b => PenaltyTier.penalty a <= PenaltyTier.penalty b) l
  /\ Forall (fun a => PenaltyTier.penalty a <= 0) l.

Lemma first_penalty_reached_In value l t :
  first_penalty_reached value l = Some t -> In t l.
Proof.
  induction l as [|x l IH]; simpl; [discriminate|].
  destruct (ge value (PenaltyTier.min x)); [intros [= ->]; now left | auto].
Qed.

Lemma penalty_of_nonpos l value :
  Forall (fun a => PenaltyTier.penalty a <= 0) l -> penalty_of value l <= 0.
Proof.
  intros Hl. unfold penalty_of.
  destruct (first_penalty_reached value l) as [t|] eqn:E; [|lia].
  apply first_penalty_reached_In in E. rewrite Forall_forall in Hl.
  now apply Hl, list_elem_of_In.
Qed.

Lemma penalty_of_lower_bound l value x :
  Forall (fun b => PenaltyTier.penalty x <= PenaltyTier.penalty b) l ->
  PenaltyTier.penalty x <= 0 ->
  PenaltyTier.penalty x <= penalty_of value l.
Proof.
  intros Hl Hx. unfold penalty_of.
  destruct (first_penalty_reached value l) as [t|] eqn:E; [|assumption].
  apply first_penalty_reached_In in E. rewrite Forall_forall in Hl.
  now apply Hl, list_elem_of_In.
Qed.

Lemma penalty_of_antitone (l : list PenaltyTier.t) :
  penalties_asc l ->
  forall v v', (v <= v')%Q -> penalty_of v' l <= penalty_of v l.
Proof.
  intros [Hs Hneg]. induction Hs as [|x l Hl IH Hx]; intros v v' Hv.
  - reflexivity.
  - apply Forall_cons in Hneg as [Hx0 Hneg].
    unfold penalty_of at 1 2. simpl.
    destruct (ge v (PenaltyTier.min x)) eqn:Hvx.
    + now rewrite (ge_weaken _ _ _ Hv Hvx).
    + destruct (ge v' (PenaltyTier.min x)) eqn:Hvx'.
      * now apply penalty_of_lower_bound.
      * now apply IH.
Qed.

Fixpoint penalties_asc_b (l : list PenaltyTier.t) : bool :=
  match l with
  | [] => true
  | x :: l' =>
      (PenaltyTier.penalty x <=? 0)
      && forallb (fun y => PenaltyTier.penalty x <=? PenaltyTier.penalty y) l'
      && penalties_asc_b l'
  end.

Lemma penalties_asc_b_sound l : penalties_asc_b l = true -> penalties_asc l.
Proof.
  induction l as [|x l IH]; simpl; intros H.
  - split; constructor.
  - apply andb_true_iff in H as [H Hl]. apply andb_true_iff in H as [Hx0 Hx].
    destruct (IH Hl) as [Hs Hn]. split.
    + constructor; [assumption|]. rewrite forallb_forall in Hx.
      apply Forall_forall. intros y Hy. apply Z.leb_le, Hx.
      now apply list_elem_of_In.
    + constructor; [now apply Z.leb_le | assumption].
Qed.

Definition penalty_tables : list (list PenaltyTier.t) :=
  [ TOP10_CONCENTRATION_PENALTIES; TOP1_CONCENTRATION_PENALTIES ].

Lemma penalty_table_facts P :
  In P penalty_tables -> sort_penalty_desc P = P /\ penalties_asc P.
Proof.
  intros [<-|[<-|[]]]; (split; [reflexivity|]);
    apply penalties_asc_b_sound; vm_compute; reflexivity.
Qed.

(** The penalty the concentration step of [score] applies. *)
Lemma concentration_penalty_eq pct P :
  concentration_penalty (concentration pct P)
  = if gt pct 0 then penalty_of pct (sort_penalty_desc P) else 0.
Proof.
  unfold concentration. destruct (gt pct 0); [|reflexivity].
  simpl. apply penaltyByThreshold_penalty_of.
Qed.

Lemma concentration_penalty_antitone P v v' :
  In P penalty_tables -> (v <= v')%Q ->
  concentration_penalty (concentration v' P)
  <= concentration_penalty (concentration v P) <= 0.
Proof.
  intros Hin Hv. destruct (penalty_table_facts P Hin) as [Hs Ha].
  rewrite !concentration_penalty_eq, Hs.
  pose proof (penalty_of_nonpos P v (proj2 Ha)) as Hn.
  pose proof (penalty_of_nonpos P v' (proj2 Ha)) as Hn'.
  destruct (gt v 0) eqn:Hg.
  - assert (Hg' : gt v' 0 = true).
    { unfold gt in *. apply negb_true_iff in Hg. apply negb_true_iff.
      destruct (Qle_bool v' 0) eqn:E; [|reflexivity].
      apply Qle_bool_iff in E. assert (Qle_bool v 0 = true); [|congruence].
      apply Qle_bool_iff. now apply Qle_trans with v'. }
    rewrite Hg'. split; [|assumption]. now apply penalty_of_antitone.
  - destruct (gt v' 0); lia.
Qed.

End PenaltyFacts.

Section ScoreShape.
Import Js Rules Score.

(** Whether [token?.x && token.x !== null] holds. *)
Definition has_auth (token : option Token.t) (field : Token.t -> option string)
  : bool :=
  truthy_str (opt_member token field).

(** Whether the token counts as very new when the clock reads [now]. *)
Definition is_very_new (now : Z) (token : option Token.t) : bool :=
  match opt_member token Token.first_seen_at with
  | Some (ValidDate t) =>
      lt (inject_Z (now - t) / 60000)%Q NEW_TOKEN_thresholdMinutes
  | _ => false
  end.

Lemma has_authority_eq token field :
  has_authority token field = Ok (has_auth token field).
Proof.
  unfold has_authority, has_auth.
  destruct token as [tk|]; simpl; [|reflexivity].
  destruct (field tk) as [s|] eqn:E; simpl; [|reflexivity].
  destruct (negb (String.eqb s "")); reflexivity.
Qed.

Lemma very_new_eq now token : very_new now token = Ok (is_very_new now token).
Proof.
  unfold very_new, is_very_new.
  destruct token as [tk|]; simpl; [|reflexivity].
  destruct (Token.first_seen_at tk) as [[t|]|]; reflexivity.
Qed.

Lemma Math_round_Z (z : Z) : Math_round (inject_Z z) = z.
Proof.
  unfold Math_round, Qfloor, Qplus, inject_Z. simpl.
  symmetry. apply Z.div_unique with (r := 1); lia.
Qed.

End ScoreShape.

(** Evaluates [score] step by step: each table lookup, authority test and
    age test is replaced by its value and the continuation entered. *)
Ltac score_steps :=
  unfold Score.score;
  repeat
    (first
       [ rewrite scoreByThreshold_pick by (simpl; tauto)
       | rewrite has_authority_eq
       | rewrite very_new_eq ];
     cbn [mbind mret Js.result_bind Js.result_ret]).

Section ScoreClaims.
Import Js Rules Score.

(** The points of the seven tiered positive components of a breakdown. *)
Definition positive_sum (c : Components.t) : Z :=
  Component.points (Components.liquidity c)
  + Component.points (Components.unique_buyers_1m c)
  + Component.points (Components.swaps_1m c)
  + Component.points (Components.volume_1m c)
  + Component.points (Components.holder_count c)
  + Component.points (Components.unique_buyers_5m c)
  + Component.points (Components.buy_pressure c).

(** The penalty contributions of a breakdown: both concentrations and the
    authorities, each counted when it was evaluated. *)
Definition penalty_sum (c : Components.t) : Z :=
  concentration_penalty (Components.top10_concentration c)
  + concentration_penalty (Components.top1_concentration c)
  + from_option Authority.penalty 0 (Components.authority c).


(** The signal each positive component scores. *)
Definition metric (x : TokenState.t) (field : Metrics.t -> option Q) : Q :=
  or_zero (opt_member (TokenState.metrics x) field).

Definition liquidity_signal (x : TokenState.t) : Q :=
  or_zero (or_num (opt_member (TokenState.metrics x) Metrics.liquidity_usd)
                  (opt_member (TokenState.pool x) Pool.liquidity_usd)).

Definition holder_signal (x : TokenState.t) : Q :=
  or_zero (or_num (opt_member (TokenState.holders x) Holders.holder_count)
                  (opt_member (TokenState.metrics x) Metrics.holder_count)).

Definition buy_ratio (x : TokenState.t) : Q :=
  if gt (metric x Metrics.buy_volume_usd_1m
         + metric x Metrics.sell_volume_usd_1m)%Q 0
  then (metric x Metrics.buy_volume_usd_1m
        / (metric x Metrics.buy_volume_usd_1m
           + metric x Metrics.sell_volume_usd_1m))%Q
  else (1 # 2)%Q.


(** Scenario A; the token has no authority and any first-seen date. *)
Definition scenario_A (seen : option DateValue) : TokenState.t :=
  TokenState.mk
    (Some (Token.mk "MINT" None None seen))
    (Some (Metrics.mk (Some 60000%Q) (Some 25%Q) (Some 50%Q) (Some 60000%Q)
             (Some 250%Q) (Some 60%Q) (Some 42000%Q) (Some 18000%Q) None))
    None None.

(** [score] returns on every token state. *)
Lemma score_returns (now : Z) (x : TokenState.t) :
  exists r : ScoreResult.t, score now x = Ok r.
Proof. score_steps. eexists. reflexivity. Qed.


(** The seven positive components of a breakdown, each with its table. *)
Definition component_tables : list ((Components.t -> Component.t) * list Tier.t) :=
  [ (Components.liquidity, LIQUIDITY_THRESHOLDS);
    (Components.unique_buyers_1m, UNIQUE_BUYERS_1M_THRESHOLDS);
    (Components.swaps_1m, SWAPS_1M_THRESHOLDS);
    (Components.volume_1m, VOLUME_1M_THRESHOLDS);
    (Components.holder_count, HOLDER_COUNT_THRESHOLDS);
    (Components.unique_buyers_5m, UNIQUE_BUYERS_5M_THRESHOLDS);
    (Components.buy_pressure, BUY_PRESSURE_THRESHOLDS) ].

(** The two concentration entries of a breakdown, each with the holder
    percentage it reads and its table. *)
Definition concentration_tables
  : list ((Components.t -> option Concentration.t)
          * (Holders.t -> option Q) * list PenaltyTier.t) :=
  [ (Components.top10_concentration, Holders.top10_pct,
     TOP10_CONCENTRATION_PENALTIES);
    (Components.top1_concentration, Holders.top1_pct,
     TOP1_CONCENTRATION_PENALTIES) ].

Lemma score_component_points now x r comp T :
  score now x = Ok r ->
  In (comp, T) component_tables ->
  In T positive_tables /\
  Component.points (comp (ScoreResult.components r))
  = fst (pick (Component.value (comp (ScoreResult.components r))) T).
Proof.
  score_steps. intros [= <-] Hin. cbn [ScoreResult.components].
  simpl in Hin.
  repeat (destruct Hin as [[= <- <-]|Hin]; [split; [simpl; tauto | reflexivity]|]).
  destruct Hin.
Qed.

Lemma score_concentration now x r entry pct P :
  score now x = Ok r ->
  In (entry, pct, P) concentration_tables ->
  In P penalty_tables /\
  entry (ScoreResult.components r)
  = concentration (or_zero (opt_member (TokenState.holders x) pct)) P.
Proof.
  score_steps. intros [= <-] Hin. cbn [ScoreResult.components].
  simpl in Hin.
  repeat (destruct Hin as [[= <- <- <-]|Hin]; [split; [simpl; tauto | reflexivity]|]).
  destruct Hin.
Qed.

(** C8.  For each of the seven positive tables, a larger input never earns
    fewer points from [scoreByThreshold]; for both concentration tables, a
    larger percentage never draws a penalty of smaller magnitude from the
    concentration step (which applies [penaltyByThreshold] to a positive
    percentage and nothing otherwise).  So between any two results of
    [score], a positive component whose recorded input is larger holds at
    least as many points, and a concentration entry whose holder percentage
    is larger holds a penalty of at least the magnitude. *)
Theorem threshold_points_monotone :
  forall (v v' : Q),
    (v <= v')%Q ->
    (forall T : list Tier.t,
        In T [ LIQUIDITY_THRESHOLDS; UNIQUE_BUYERS_1M_THRESHOLDS;
               SWAPS_1M_THRESHOLDS; VOLUME_1M_THRESHOLDS;
               HOLDER_COUNT_THRESHOLDS; UNIQUE_BUYERS_5M_THRESHOLDS;
               BUY_PRESSURE_THRESHOLDS ] ->
        exists p p' r r',
          scoreByThreshold v T = Ok (p, r) /\
          scoreByThreshold v' T = Ok (p', r') /\
          p <= p') /\
    (forall P : list PenaltyTier.t,
        In P [ TOP10_CONCENTRATION_PENALTIES; TOP1_CONCENTRATION_PENALTIES ] ->
        Z.abs (fst (penaltyByThreshold v P))
        <= Z.abs (fst (penaltyByThreshold v' P)) /\
        Z.abs (concentration_penalty (concentration v P))
        <= Z.abs (concentration_penalty (concentration v' P))) /\
    (forall (now now' : Z) (x x' : TokenState.t) (r r' : ScoreResult.t),
        score now x = Ok r ->
        score now' x' = Ok r' ->
        (forall comp T,
            In (comp, T) component_tables ->
            Component.value (comp (ScoreResult.components r)) = v ->
            Component.value (comp (ScoreResult.components r')) = v' ->
            Component.points (comp (ScoreResult.components r))
            <= Component.points (comp (ScoreResult.components r'))) /\
        (forall entry pct P,
            In (entry, pct, P) concentration_tables ->
            or_zero (opt_member (TokenState.holders x) pct) = v ->
            or_zero (opt_member (TokenState.holders x') pct) = v' ->
            Z.abs (concentration_penalty (entry (ScoreResult.components r)))
            <= Z.abs (concentration_penalty (entry (ScoreResult.components r'))))).
Proof.
  intros v v' Hv. split; [|split]; cycle 2.
  { intros now now' x x' r r' Hr Hr'. split.
    - intros comp T Hin Hval Hval'.
      destruct (score_component_points now x r comp T Hr Hin) as [HT ->].
      destruct (score_component_points now' x' r' comp T Hr' Hin) as [_ ->].
      rewrite Hval, Hval'. now apply pick_monotone.
    - intros entry pct P Hin Hval Hval'.
      destruct (score_concentration now x r entry pct P Hr Hin) as [HP ->].
      destruct (score_concentration now' x' r' entry pct P Hr' Hin) as [_ ->].
      rewrite Hval, Hval'.
      pose proof (concentration_penalty_antitone P v v' HP Hv).
      pose proof (concentration_penalty_antitone P v' v' HP (Qle_refl v')). lia. }
  - intros T HT. change (In T positive_tables) in HT.
    rewrite !scoreByThreshold_pick by assumption.
    pose proof (pick_monotone T v v' HT Hv) as Hp.
    destruct (pick v T) as [p r], (pick v' T) as [p' r'].
    exists p, p', r, r'. auto.
  - intros P HP. change (In P penalty_tables) in HP.
    destruct (penalty_table_facts P HP) as [Hs Ha]. split.
    + rewrite !penaltyByThreshold_penalty_of, Hs.
      pose proof (penalty_of_antitone P Ha v v' Hv).
      pose proof (penalty_of_nonpos P v (proj2 Ha)).
      pose proof (penalty_of_nonpos P v' (proj2 Ha)). lia.
    + pose proof (concentration_penalty_antitone P v v' HP Hv).
      pose proof (concentration_penalty_antitone P v' v' HP (Qle_refl v')). lia.
Qed.

Lemma threshold_points_monotone_witness :
  (exists p p' r r',
      scoreByThreshold 7000 LIQUIDITY_THRESHOLDS = Ok (p, r) /\
      scoreByThreshold 25000 LIQUIDITY_THRESHOLDS = Ok (p', r') /\
      p <= p') /\
  Z.abs (concentration_penalty (concentration 55 TOP10_CONCENTRATION_PENALTIES))
  <= Z.abs (concentration_penalty
              (concentration 85 TOP10_CONCENTRATION_PENALTIES)).
Proof.
  assert (H : (7000 <= 25000)%Q) by (apply Qle_bool_iff; reflexivity).
  assert (H' : (55 <= 85)%Q) by (apply Qle_bool_iff; reflexivity).
  destruct (threshold_points_monotone 7000 25000 H) as (Hpos & _ & _).
  destruct (threshold_points_monotone 55 85 H') as (_ & Hpen & _).
  split.
  - apply Hpos. simpl. tauto.
  - apply Hpen. simpl. tauto.
Defined.

(** The token state with every absent record and field of metrics, holder
    snapshot and pool written out as zero. *)
Definition fill (v : option Q) : option Q :=
  match v with
  | Some q => Some q
  | None => Some 0%Q
  end.

Definition zero_filled (x : TokenState.t) : TokenState.t :=
  TokenState.mk
    (TokenState.token x)
    (Some (Metrics.mk
             (fill (opt_member (TokenState.metrics x) Metrics.liquidity_usd))
             (fill (opt_member (TokenState.metrics x) Metrics.unique_buyers_1m))
             (fill (opt_member (TokenState.metrics x) Metrics.swaps_1m))
             (fill (opt_member (TokenState.metrics x) Metrics.volume_usd_1m))
             (fill (opt_member (TokenState.metrics x) Metrics.holder_count))
             (fill (opt_member (TokenState.metrics x) Metrics.unique_buyers_5m))
             (fill (opt_member (TokenState.metrics x) Metrics.buy_volume_usd_1m))
             (fill (opt_member (TokenState.metrics x) Metrics.sell_volume_usd_1m))
             (fill (opt_member (TokenState.metrics x) Metrics.price_change_5m))))
    (Some (Holders.mk
             (fill (opt_member (TokenState.holders x) Holders.holder_count))
             (fill (opt_member (TokenState.holders x) Holders.top1_pct))
             (fill (opt_member (TokenState.holders x) Holders.top10_pct))))
    (Some (Pool.mk (fill (opt_member (TokenState.pool x) Pool.liquidity_usd)))).

(** A positive component lies within its range. *)
Definition in_range (c : Component.t) : Prop :=
  0 <= Component.points c <= Component.maxPoints c.

(** A well-formed result: an integer score in [0, 100], the seven positive
    reasons followed by at most three penalty reasons, at most seven flags,
    and every positive component within its range. *)
Definition well_formed (r : ScoreResult.t) : Prop :=
  0 <= ScoreResult.score r <= 100 /\
  (7 <= length (ScoreResult.reasons r) <= 10)%nat /\
  (length (ScoreResult.risk_flags r) <= 7)%nat /\
  in_range (Components.liquidity (ScoreResult.components r)) /\
  in_range (Components.unique_buyers_1m (ScoreResult.components r)) /\
  in_range (Components.swaps_1m (ScoreResult.components r)) /\
  in_range (Components.volume_1m (ScoreResult.components r)) /\
  in_range (Components.holder_count (ScoreResult.components r)) /\
  in_range (Components.unique_buyers_5m (ScoreResult.components r)) /\
  in_range (Components.buy_pressure (ScoreResult.components r)).

Lemma or_zero_fill v : or_zero (fill v) = or_zero v.
Proof. now destruct v. Qed.

Lemma or_zero_or_num_fill a b :
  or_zero (or_num (fill a) (fill b)) = or_zero (or_num a b).
Proof.
  destruct a as [q|]; simpl.
  - unfold or_num. simpl. destruct (negb (Qeq_bool q 0)); [reflexivity|].
    apply or_zero_fill.
  - unfold or_num. simpl. apply or_zero_fill.
Qed.

Lemma pick_bounds T lo hi v :
  In T positive_tables ->
  forallb (fun t => (lo <=? Tier.points t) && (Tier.points t <=? hi)) T = true ->
  lo <= fst (pick v T) <= hi.
Proof.
  intros Hin Hall. destruct (table_facts T Hin) as (Hs & _ & Hne).
  unfold pick. rewrite Hs. destruct (select_nonempty v T Hne) as [t Ht].
  rewrite Ht. simpl. apply select_In in Ht. rewrite forallb_forall in Hall.
  specialize (Hall t Ht). apply andb_true_iff in Hall as [H1 H2].
  split; now apply Z.leb_le.
Qed.

Lemma concentration_reasons_length c : (length (concentration_reasons c) <= 1)%nat.
Proof.
  destruct c as [r|]; simpl; [|lia].
  destruct (Concentration.penalty r <? 0); simpl; lia.
Qed.

Lemma flag_if_length b f : (length (flag_if b f) <= 1)%nat.
Proof. destruct b; simpl; lia. Qed.

(** C10.  On a token state whose token, metrics, holder snapshot and pool
    may each be absent or lack any field, [score] returns a result and does
    not throw; the result is well formed; the buy-pressure ratio is 0.5
    when the 1-minute buy and sell volumes add up to zero; and the result
    is the one obtained with every absent metric written out as zero. *)
Theorem score_total_on_partial_input :
  forall (now : Z) (x : TokenState.t),
    (exists r : ScoreResult.t,
        score now x = Ok r /\
        well_formed r /\
        ((or_zero (opt_member (TokenState.metrics x) Metrics.buy_volume_usd_1m)
          + or_zero (opt_member (TokenState.metrics x) Metrics.sell_volume_usd_1m)
          == 0)%Q ->
         Component.value (Components.buy_pressure (ScoreResult.components r))
         = (1 # 2)%Q)) /\
    score now (zero_filled x) = score now x.
Proof.
  intros now x. split.
  - score_steps. eexists. split; [reflexivity|]. split.
    + unfold well_formed, in_range.
      cbn [ScoreResult.score ScoreResult.components ScoreResult.reasons
           ScoreResult.risk_flags Components.liquidity
           Components.unique_buyers_1m Components.swaps_1m Components.volume_1m
           Components.holder_count Components.unique_buyers_5m
           Components.buy_pressure Component.points Component.maxPoints].
      split; [lia|]. split; [|split].
      * rewrite !length_app. simpl length.
        pose proof (concentration_reasons_length
                      (concentration
                         (or_zero (opt_member (TokenState.holders x) Holders.top10_pct))
                         TOP10_CONCENTRATION_PENALTIES)).
        pose proof (concentration_reasons_length
                      (concentration
                         (or_zero (opt_member (TokenState.holders x) Holders.top1_pct))
                         TOP1_CONCENTRATION_PENALTIES)).
        destruct (authority_of _ _) as [[? ?]|]; simpl; lia.
      * rewrite !length_app.
        repeat match goal with
               | |- context [length (flag_if ?b ?f)] =>
                   let H := fresh "Hf" in
                   pose proof (flag_if_length b f) as H;
                   generalize dependent (length (flag_if b f)); intros
               end.
        destruct (authority_of _ _) as [[? ?]|]; simpl; lia.
      * repeat match goal with
               | |- (_ <= _ <= _) /\ _ => split
               end;
          (apply pick_bounds; [simpl; tauto | reflexivity]).
    + intros Hzero.
      cbn [ScoreResult.components Components.buy_pressure Component.value].
      unfold gt. replace (Qle_bool _ 0) with true; [reflexivity|].
      symmetry. apply Qle_bool_iff. rewrite Hzero. apply Qle_refl.
  - unfold score, zero_filled.
    cbn [TokenState.token TokenState.metrics TokenState.holders TokenState.pool
         opt_member Metrics.liquidity_usd Metrics.unique_buyers_1m
         Metrics.swaps_1m Metrics.volume_usd_1m Metrics.holder_count
         Metrics.unique_buyers_5m Metrics.buy_volume_usd_1m
         Metrics.sell_volume_usd_1m Metrics.price_change_5m
         Holders.holder_count Holders.top1_pct Holders.top10_pct
         Pool.liquidity_usd].
    rewrite !or_zero_or_num_fill, !or_zero_fill. reflexivity.
Qed.

(** The token state with nothing in it. *)
Definition empty_state : TokenState.t := TokenState.mk None None None None.

Lemma score_total_on_partial_input_witness :
  exists r : ScoreResult.t,
    score 0 empty_state = Ok r /\
    Component.value (Components.buy_pressure (ScoreResult.components r))
    = (1 # 2)%Q.
Proof.
  destruct (score_total_on_partial_input 0 empty_state)
    as [(r & Hr & _ & Hhalf) _].
  exists r. split; [exact Hr|]. apply Hhalf. reflexivity.
Defined.

(** Drops the very-new-token flag from a list of flags. *)
Definition without_new_token (flags : list string) : list string :=
  List.filter (fun f => negb (String.eqb f NEW_TOKEN_flag)) flags.

Lemma without_new_token_app l1 l2 :
  without_new_token (l1 ++ l2) = without_new_token l1 ++ without_new_token l2.
Proof. apply List.filter_app. Qed.

Lemma without_new_token_flag b :
  without_new_token (flag_if b NEW_TOKEN_flag) = [].
Proof. now destruct b. Qed.

Lemma In_flag_if x b f : In x (flag_if b f) <-> b = true /\ x = f.
Proof.
  destruct b; simpl; split.
  - intros [<-|[]]. auto.
  - intros [_ ->]. now left.
  - intros [].
  - intros [? _]. discriminate.
Qed.

(** C7, as amended.  Two evaluations of [score] on the same token state,
    at any two clock readings, both return, with the same score, the same
    reasons and the same components; their risk flags are the same once the
    very-new-token flag is set aside, and that flag is raised exactly when
    the token's age at the evaluation is under five minutes.  When the two
    evaluations see the token on the same side of that age (as they do at
    equal clock readings, or for a token with no first-seen date), the two
    results are identical. *)
Theorem score_clock_only_new_token_flag :
  forall (now1 now2 : Z) (x : TokenState.t),
    exists r1 r2 : ScoreResult.t,
      score now1 x = Ok r1 /\
      score now2 x = Ok r2 /\
      ScoreResult.score r1 = ScoreResult.score r2 /\
      ScoreResult.reasons r1 = ScoreResult.reasons r2 /\
      ScoreResult.components r1 = ScoreResult.components r2 /\
      without_new_token (ScoreResult.risk_flags r1)
      = without_new_token (ScoreResult.risk_flags r2) /\
      (In NEW_TOKEN_flag (ScoreResult.risk_flags r1)
       <-> is_very_new now1 (TokenState.token x) = true) /\
      (In NEW_TOKEN_flag (ScoreResult.risk_flags r2)
       <-> is_very_new now2 (TokenState.token x) = true) /\
      (is_very_new now1 (TokenState.token x)
       = is_very_new now2 (TokenState.token x) -> r1 = r2).
Proof.
  intros now1 now2 x. score_steps. do 2 eexists.
  split; [reflexivity|]. split; [reflexivity|].
  cbn [ScoreResult.score ScoreResult.reasons ScoreResult.components
       ScoreResult.risk_flags].
  split; [reflexivity|]. split; [reflexivity|]. split; [reflexivity|].
  assert (Hflag : forall now,
    In NEW_TOKEN_flag
      (from_option (fun a : Authority.t * string => [snd a]) []
         (authority_of (has_auth (TokenState.token x) Token.mint_authority)
            (has_auth (TokenState.token x) Token.freeze_authority))
       ++ flag_if
            (lt (or_zero
                   (or_num (opt_member (TokenState.metrics x) Metrics.liquidity_usd)
                      (opt_member (TokenState.pool x) Pool.liquidity_usd)))
               LOW_LIQUIDITY_threshold) LOW_LIQUIDITY_flag
       ++ flag_if (is_very_new now (TokenState.token x)) NEW_TOKEN_flag
       ++ flag_if
            (lt (or_zero
                   (or_num (opt_member (TokenState.holders x) Holders.holder_count)
                      (opt_member (TokenState.metrics x) Metrics.holder_count)))
               LOW_HOLDERS_threshold) LOW_HOLDERS_flag
       ++ flag_if
            (le (or_zero (opt_member (TokenState.metrics x) Metrics.volume_usd_1m))
               NO_VOLUME_threshold) NO_VOLUME_flag
       ++ flag_if
            (gt (or_zero (opt_member (TokenState.holders x) Holders.top1_pct))
               WHALE_CONCENTRATION_threshold) WHALE_CONCENTRATION_flag
       ++ flag_if
            (lt (or_zero (opt_member (TokenState.metrics x) Metrics.price_change_5m))
               RAPID_PRICE_DROP_threshold) RAPID_PRICE_DROP_flag)
    <-> is_very_new now (TokenState.token x) = true).
  { intros now. rewrite !in_app_iff, !In_flag_if. split.
    - intros [H|[H|[H|[H|[H|[H|H]]]]]]; try (destruct H as [_ H]; discriminate).
      + destruct (authority_of _ _) as [[a f]|] eqn:E; simpl in H; [|contradiction].
        destruct H as [H|[]]. unfold authority_of in E.
        destruct (has_auth _ Token.mint_authority),
                 (has_auth _ Token.freeze_authority);
          simpl in E; inversion E; subst; discriminate.
      + tauto.
    - intros H. right. right. left. auto. }
  split; [|split; [apply Hflag | split; [apply Hflag|]]].
  - rewrite !without_new_token_app, !without_new_token_flag. reflexivity.
  - intros ->. reflexivity.
Qed.

(** A token first seen at the epoch, with nothing else known. *)
Definition seen_at_epoch : TokenState.t :=
  TokenState.mk (Some (Token.mk "MINT" None None (Some (ValidDate 0))))
    None None None.

(** C7, the claim as stated fails: the same token state, scored one minute
    and ten minutes after the token was first seen, gets two different
    results, the flag lists differing by the very-new-token flag. *)
Lemma score_risk_flags_differ_with_clock :
  exists r1 r2 : ScoreResult.t,
    score 60000 seen_at_epoch = Ok r1 /\
    score 600000 seen_at_epoch = Ok r2 /\
    ScoreResult.risk_flags r1
    = ["LOW_LIQUIDITY_WARNING"; "VERY_NEW_TOKEN"; "LOW_HOLDER_COUNT";
       "NO_RECENT_VOLUME"] /\
    ScoreResult.risk_flags r2
    = ["LOW_LIQUIDITY_WARNING"; "LOW_HOLDER_COUNT"; "NO_RECENT_VOLUME"] /\
    ScoreResult.risk_flags r1 <> ScoreResult.risk_flags r2 /\
    r1 <> r2.
Proof.
  do 2 eexists. split; [vm_compute; reflexivity|].
  split; [vm_compute; reflexivity|]. simpl.
  repeat split; discriminate.
Qed.

Lemma score_clock_only_new_token_flag_witness :
  exists r1 r2 : ScoreResult.t,
    score 600000 seen_at_epoch = Ok r1 /\
    score 900000 seen_at_epoch = Ok r2 /\
    r1 = r2.
Proof.
  destruct (score_clock_only_new_token_flag 600000 900000 seen_at_epoch)
    as (r1 & r2 & H1 & H2 & _ & _ & _ & _ & _ & _ & Hsame).
  exists r1, r2. split; [exact H1|]. split; [exact H2|].
  apply Hsame. reflexivity.
Defined.

(** Scenario B: scenario A with both authorities present. *)
Definition scenario_B (seen : option DateValue) : TokenState.t :=
  TokenState.mk
    (Some (Token.mk "MINT" (Some "mint-authority") (Some "freeze-authority") seen))
    (TokenState.metrics (scenario_A seen)) None None.

(** Scenario C: every metric zero, holder count zero, no authority. *)
Definition scenario_C (seen : option DateValue) : TokenState.t :=
  TokenState.mk
    (Some (Token.mk "MINT" None None seen))
    (Some (Metrics.mk (Some 0%Q) (Some 0%Q) (Some 0%Q) (Some 0%Q) (Some 0%Q)
             (Some 0%Q) (Some 0%Q) (Some 0%Q) (Some 0%Q)))
    (Some (Holders.mk (Some 0%Q) None None))
    None.

(** On scenario B the score is 100 - 20 = 80, the combined authority reason
    is given and the combined authority flag raised. *)
Theorem score_scenario_B :
  forall (now : Z) (seen : option DateValue),
    exists r : ScoreResult.t,
      score now (scenario_B seen) = Ok r /\
      ScoreResult.score r = 80 /\
      In "BOTH_AUTHORITIES_PRESENT" (ScoreResult.reasons r) /\
      In "FULL_AUTHORITY_RISK" (ScoreResult.risk_flags r).
Proof.
  intros now seen. score_steps. eexists. split; [reflexivity|].
  split; [vm_compute; reflexivity|].
  cbn [ScoreResult.reasons ScoreResult.risk_flags].
  split; [vm_compute; tauto|]. simpl. now left.
Qed.

(** On scenario C the score is 4, not 0: with no volume the buy-pressure
    ratio defaults to 0.5, which earns the four points of the neutral tier;
    the low-liquidity, low-holder and no-volume flags are all raised. *)
Theorem score_scenario_C :
  forall (now : Z) (seen : option DateValue),
    exists r : ScoreResult.t,
      score now (scenario_C seen) = Ok r /\
      ScoreResult.score r = 4 /\
      Component.value (Components.buy_pressure (ScoreResult.components r))
      = (1 # 2)%Q /\
      Component.points (Components.buy_pressure (ScoreResult.components r)) = 4 /\
      In "LOW_LIQUIDITY_WARNING" (ScoreResult.risk_flags r) /\
      In "LOW_HOLDER_COUNT" (ScoreResult.risk_flags r) /\
      In "NO_RECENT_VOLUME" (ScoreResult.risk_flags r).
Proof.
  intros now seen. score_steps. eexists. split; [reflexivity|].
  split; [vm_compute; reflexivity|]. split; [vm_compute; reflexivity|].
  split; [vm_compute; reflexivity|].
  cbn [ScoreResult.risk_flags]. simpl.
  destruct (is_very_new now _); simpl; tauto.
Qed.

End ScoreClaims.

Section SortFacts.
Import Js.

(** The order of [sort]: at most, by code unit. *)
Definition str_le (a b : string) : Prop := String.leb a b = true.

Lemma str_le_lt_eq a b : str_le a b <-> a = b \/ String_as_OT.lt a b.
Proof.
  unfold str_le, String.leb. split.
  - destruct (String.compare a b) eqn:E; intros H; try discriminate.
    + left. now apply String_as_OT.cmp_eq.
    + right. now apply String_as_OT.cmp_lt.
  - intros [->|H].
    + assert (E : String.compare b b = Eq) by now apply String_as_OT.cmp_eq.
      now rewrite E.
    + apply String_as_OT.cmp_lt in H. unfold String_as_OT.cmp in H.
      now rewrite H.
Qed.

#[local] Instance str_le_trans : Transitive str_le.
Proof.
  intros a b c Hab Hbc. apply str_le_lt_eq in Hab, Hbc. apply str_le_lt_eq.
  destruct Hab as [->|Hab], Hbc as [->|Hbc]; auto.
  right. eapply String_as_OT.lt_trans; eauto.
Qed.

#[local] Instance str_le_antisym : AntiSymm (=) str_le.
Proof. intros a b Hab Hba. now apply String.leb_antisym. Qed.

Lemma str_le_total a b : str_le a b \/ str_le b a.
Proof. apply String.leb_total. Qed.

Lemma sort_insert_perm x l : sort_insert x l ≡ₚ x :: l.
Proof.
  induction l as [|y l IH]; simpl; [reflexivity|].
  destruct (String.leb x y); [reflexivity|].
  rewrite IH. apply Permutation_swap.
Qed.

Lemma sort_perm l : sort l ≡ₚ l.
Proof.
  induction l as [|x l IH]; simpl; [reflexivity|].
  now rewrite sort_insert_perm, IH.
Qed.

Lemma sort_insert_sorted x l :
  StronglySorted str_le l -> StronglySorted str_le (sort_insert x l).
Proof.
  induction 1 as [|y l Hl IH Hy]; simpl.
  - repeat constructor.
  - destruct (String.leb x y) eqn:E.
    + constructor; [now constructor|]. constructor; [exact E|].
      eapply Forall_impl; [exact Hy|]. intros z Hz. now transitivity y.
    + constructor; [assumption|].
      rewrite (sort_insert_perm x l). constructor; [|assumption].
      destruct (str_le_total x y) as [H|H]; [|assumption].
      unfold str_le in H. congruence.
Qed.

Lemma sort_sorted l : StronglySorted str_le (sort l).
Proof.
  induction l as [|x l IH]; simpl; [constructor|].
  now apply sort_insert_sorted.
Qed.

Lemma array_eqb_eq a b : array_eqb a b = true <-> a = b.
Proof.
  revert b. induction a as [|x a IH]; intros [|y b]; simpl;
    try (split; [discriminate | congruence]); [tauto|].
  rewrite andb_true_iff, String.eqb_eq, IH. split.
  - intros [-> ->]. reflexivity.
  - intros [= -> ->]. auto.
Qed.

(** Two arrays of flags sort to the same array exactly when one is a
    rearrangement of the other. *)
Lemma sorted_equal_iff_permutation a b :
  array_eqb (sort a) (sort b) = true <-> a ≡ₚ b.
Proof.
  rewrite array_eqb_eq. split.
  - intros H. rewrite <- (sort_perm a), H. apply sort_perm.
  - intros H. apply (StronglySorted_unique str_le); try apply sort_sorted.
    now rewrite !sort_perm.
Qed.

End SortFacts.

Section AlertClaims.
Import Js Rules Score.

(** A flag list holds a hard flag: the mint-authority, freeze-authority or
    combined-authority flag. *)
Definition has_hard_flag (flags : list string) : Prop :=
  exists f, In f flags /\ In f hard_flags.

(** The flags of a list, as a set. *)
Definition flag_set (flags : list string) : gset string := list_to_set flags.

(** The outcome of an alert check in the words of the state machine: from
    Unalerted ([last_score] absent) a positive check is a [Send], from
    Alerted an [Update]; a negative one is a [Suppress]. *)
Inductive Decision : Type := Send | Update | Suppress.

Definition decision (previousScore : option Z) (check : AlertCheck.t) : Decision :=
  if AlertCheck.shouldSend check
  then match previousScore with
       | None => Send
       | Some _ => Update
       end
  else Suppress.

Lemma hasHardFlags_iff flags :
  existsb (includes hard_flags) flags = true <-> has_hard_flag flags.
Proof.
  unfold has_hard_flag, includes. rewrite existsb_exists. split.
  - intros (f & Hf & Hh). exists f. split; [assumption|].
    apply existsb_exists in Hh as (g & Hg & Heq).
    apply String.eqb_eq in Heq. now subst.
  - intros (f & Hf & Hh). exists f. split; [assumption|].
    apply existsb_exists. exists f. split; [assumption | apply String.eqb_refl].
Qed.

Lemma permutation_iff_flag_set (a b : list string) :
  NoDup a -> NoDup b -> (a ≡ₚ b <-> flag_set a = flag_set b).
Proof.
  intros Ha Hb. unfold flag_set. split.
  - intros H. apply set_eq. intros x. rewrite !elem_of_list_to_set. now rewrite H.
  - intros H. apply NoDup_Permutation; [assumption..|].
    intros x. rewrite <- !(elem_of_list_to_set (C := gset string)). now rewrite H.
Qed.

Lemma flag_if_sublist b f : flag_if b f `sublist_of` [f].
Proof. destruct b; [reflexivity | apply sublist_nil_l]. Qed.

(** The risk flags [score] returns never repeat a flag. *)
Lemma score_flags_NoDup now x r :
  score now x = Ok r -> NoDup (ScoreResult.risk_flags r).
Proof.
  score_steps. intros [= <-]. cbn [ScoreResult.risk_flags].
  unfold authority_of.
  destruct (has_auth _ Token.mint_authority),
           (has_auth _ Token.freeze_authority); simpl from_option;
    (eapply sublist_NoDup; cycle 1;
     [ repeat (apply sublist_app; [first [apply flag_if_sublist | reflexivity]|]);
       apply flag_if_sublist
     | apply (bool_decide_unpack _); vm_compute; reflexivity ]).
Qed.

(** C2.  The alert decision of [shouldAlert]:
    - with no previous score (Unalerted) it sends exactly when the score
      reaches [SCORE_THRESHOLD] with no hard flag present, or reaches
      [SCORE_THRESHOLD_WITH_FLAGS];
    - with a previous score (Alerted) it sends exactly when the score moved
      by at least [SCORE_CHANGE_THRESHOLD], or the flags are not a
      rearrangement of the previous ones (for flag lists without repeats:
      the flag set changed) while the score reaches [SCORE_THRESHOLD];
    - with the default thresholds, an unalerted token at 75 without hard
      flags gives Send; then 83 with the same flags gives Suppress; then 60
      gives Update (against the stored 75, and against 83 as well). *)
Theorem shouldAlert_decision :
  (forall (cfg : AlertThresholds) (r : ScoreResult.t) (previousFlags : list string),
      AlertCheck.shouldSend (shouldAlert cfg r None previousFlags) = true <->
      (SCORE_THRESHOLD cfg <= ScoreResult.score r
       /\ ~ has_hard_flag (ScoreResult.risk_flags r))
      \/ SCORE_THRESHOLD_WITH_FLAGS cfg <= ScoreResult.score r) /\
  (forall (cfg : AlertThresholds) (r : ScoreResult.t) (last : Z)
          (previousFlags : list string),
      AlertCheck.shouldSend (shouldAlert cfg r (Some last) previousFlags) = true <->
      SCORE_CHANGE_THRESHOLD cfg <= Z.abs (ScoreResult.score r - last)
      \/ (~ ScoreResult.risk_flags r ≡ₚ previousFlags
          /\ SCORE_THRESHOLD cfg <= ScoreResult.score r)) /\
  (forall (cfg : AlertThresholds) (r : ScoreResult.t) (last : Z)
          (previousFlags : list string),
      NoDup (ScoreResult.risk_flags r) -> NoDup previousFlags ->
      (AlertCheck.shouldSend (shouldAlert cfg r (Some last) previousFlags) = true <->
       SCORE_CHANGE_THRESHOLD cfg <= Z.abs (ScoreResult.score r - last)
       \/ (flag_set (ScoreResult.risk_flags r) <> flag_set previousFlags
           /\ SCORE_THRESHOLD cfg <= ScoreResult.score r))) /\
  (forall (reasons flags : list string) (c : Components.t),
      ~ has_hard_flag flags ->
      decision None
        (shouldAlert default_thresholds (ScoreResult.mk 75 reasons flags c) None [])
      = Send /\
      decision (Some 75)
        (shouldAlert default_thresholds (ScoreResult.mk 83 reasons flags c)
           (Some 75) flags)
      = Suppress /\
      decision (Some 75)
        (shouldAlert default_thresholds (ScoreResult.mk 60 reasons flags c)
           (Some 75) flags)
      = Update /\
      decision (Some 83)
        (shouldAlert default_thresholds (ScoreResult.mk 60 reasons flags c)
           (Some 83) flags)
      = Update).
Proof.
  assert (Hnew : forall cfg r previousFlags,
      AlertCheck.shouldSend (shouldAlert cfg r None previousFlags) = true <->
      (SCORE_THRESHOLD cfg <= ScoreResult.score r
       /\ ~ has_hard_flag (ScoreResult.risk_flags r))
      \/ SCORE_THRESHOLD_WITH_FLAGS cfg <= ScoreResult.score r).
  { intros cfg r previousFlags. unfold shouldAlert.
    rewrite <- hasHardFlags_iff.
    destruct (existsb (includes hard_flags) (ScoreResult.risk_flags r));
      destruct (SCORE_THRESHOLD cfg <=? ScoreResult.score r) eqn:E1;
      destruct (SCORE_THRESHOLD_WITH_FLAGS cfg <=? ScoreResult.score r) eqn:E2;
      simpl; rewrite ?Z.leb_le, ?Z.leb_gt in *;
      (split;
       [ intros Hs; try discriminate;
         first [ left; split; [lia | congruence] | right; lia ]
       | intros [[? Hn]|?]; try reflexivity;
         first [ lia | exfalso; apply Hn; reflexivity ] ]). }
  assert (Hold : forall cfg r last previousFlags,
      AlertCheck.shouldSend (shouldAlert cfg r (Some last) previousFlags) = true <->
      SCORE_CHANGE_THRESHOLD cfg <= Z.abs (ScoreResult.score r - last)
      \/ (~ ScoreResult.risk_flags r ≡ₚ previousFlags
          /\ SCORE_THRESHOLD cfg <= ScoreResult.score r)).
  { intros cfg r last previousFlags. unfold shouldAlert, Math_abs.
    rewrite <- sorted_equal_iff_permutation.
    destruct (array_eqb (sort (ScoreResult.risk_flags r)) (sort previousFlags));
      destruct (SCORE_CHANGE_THRESHOLD cfg
                <=? Z.abs (ScoreResult.score r - last)) eqn:E1;
      destruct (SCORE_THRESHOLD cfg <=? ScoreResult.score r) eqn:E2;
      simpl; rewrite ?Z.leb_le, ?Z.leb_gt in *;
      (split;
       [ intros Hs; try discriminate;
         first [ left; lia | right; split; [congruence | lia] ]
       | intros [?|[Hn ?]]; try reflexivity;
         first [ lia | exfalso; apply Hn; reflexivity ] ]). }
  split; [exact Hnew|]. split; [exact Hold|]. split.
  - intros cfg r last previousFlags Hnd Hnd'. rewrite Hold.
    now rewrite (permutation_iff_flag_set _ _ Hnd Hnd').
  - intros reasons flags c Hhard.
    assert (Hh : existsb (includes hard_flags) flags = false).
    { destruct (existsb (includes hard_flags) flags) eqn:E; [|reflexivity].
      apply hasHardFlags_iff in E. contradiction. }
    assert (Hsame : array_eqb (sort flags) (sort flags) = true)
      by now apply array_eqb_eq.
    unfold decision, shouldAlert.
    cbn [ScoreResult.score ScoreResult.risk_flags]. rewrite Hh, Hsame.
    repeat split; reflexivity.
Qed.

(** A breakdown with nothing in it, for results of which only the score
    and the flags matter. *)
Definition no_components : Components.t :=
  Components.mk
    (Component.mk 0 0 0 "") (Component.mk 0 0 0 "") (Component.mk 0 0 0 "")
    (Component.mk 0 0 0 "") (Component.mk 0 0 0 "") (Component.mk 0 0 0 "")
    (Component.mk 0 0 0 "") None None None.

Lemma shouldAlert_decision_witness :
  decision None
    (shouldAlert default_thresholds
       (ScoreResult.mk 75 [] ["LOW_HOLDER_COUNT"] no_components) None [])
  = Send /\
  (AlertCheck.shouldSend
     (shouldAlert default_thresholds
        (ScoreResult.mk 72 [] ["LOW_HOLDER_COUNT"; "NO_RECENT_VOLUME"]
           no_components)
        (Some 75) ["NO_RECENT_VOLUME"; "LOW_HOLDER_COUNT"]) = true
   <-> 10 <= Z.abs (72 - 75)
       \/ (flag_set ["LOW_HOLDER_COUNT"; "NO_RECENT_VOLUME"]
           <> flag_set ["NO_RECENT_VOLUME"; "LOW_HOLDER_COUNT"]
           /\ 70 <= 72)).
Proof.
  destruct shouldAlert_decision as (_ & _ & Hset & Hscenario).
  split.
  - apply Hscenario. intros (f & Hf & Hh). simpl in Hf, Hh.
    destruct Hf as [<-|[]]. intuition discriminate.
  - apply (Hset default_thresholds
             (ScoreResult.mk 72 [] ["LOW_HOLDER_COUNT"; "NO_RECENT_VOLUME"] _)
             75 ["NO_RECENT_VOLUME"; "LOW_HOLDER_COUNT"]);
      apply (bool_decide_unpack _); reflexivity.
Defined.

End AlertClaims.

Section SwapClaims.
Import Js Helius.
#[local] Arguments is_quote : simpl never.

(** A transfer whose asset is not in the quote set. *)
Definition non_quote (t : TokenTransfer.t) : bool :=
  negb (is_quote (TokenTransfer.mint t)).

Definition first_non_quote (l : list TokenTransfer.t) : option TokenTransfer.t :=
  head (List.filter non_quote l).

Definition last_non_quote (l : list TokenTransfer.t) : option TokenTransfer.t :=
  last (List.filter non_quote l).

(** The subject token the extraction settles on: the mint of the last
    transfer outside the quote set; when that is missing or empty and the
    transaction carries a parsed swap event, the mint of its first token
    output, else of its first token input. *)
Definition subject_candidate (tx : Tx.t) : option string :=
  let from_transfers :=
    match last_non_quote (default [] (Tx.tokenTransfers tx)) with
    | Some t => TokenTransfer.mint t
    | None => None
    end in
  match Tx.swap tx with
  | Some swap =>
      or_str (or_str from_transfers (first_leg_mint (SwapEvent.tokenOutputs swap)))
             (first_leg_mint (SwapEvent.tokenInputs swap))
  | None => from_transfers
  end.

Lemma tokenMint_transfer_step feePayer v t :
  tokenMint (transfer_step feePayer v t)
  = if non_quote t then TokenTransfer.mint t else tokenMint v.
Proof.
  unfold transfer_step, non_quote.
  destruct (is_quote (TokenTransfer.mint t)); simpl.
  - now destruct (truthy_num (TokenTransfer.tokenAmount t)).
  - destruct (strict_eq (TokenTransfer.toUserAccount t) feePayer); [reflexivity|].
    now destruct (strict_eq (TokenTransfer.fromUserAccount t) feePayer).
Qed.

(** After the loop, [tokenMint] is the mint of the last transfer outside
    the quote set, and untouched when there is none. *)
Lemma tokenMint_after_loop feePayer (l : list TokenTransfer.t) : forall v,
  tokenMint (fold_left (transfer_step feePayer) l v)
  = match last_non_quote l with
    | Some t => TokenTransfer.mint t
    | None => tokenMint v
    end.
Proof.
  unfold last_non_quote.
  induction l as [|x l IH]; intros v; simpl; [reflexivity|].
  rewrite IH, tokenMint_transfer_step.
  destruct (non_quote x); [|reflexivity].
  rewrite last_cons. now destruct (last (List.filter non_quote l)).
Qed.

Lemma tokenMint_swap_vars tx : tokenMint (swap_vars tx) = subject_candidate tx.
Proof.
  unfold swap_vars, subject_candidate. rewrite tokenMint_after_loop. simpl.
  destruct (Tx.swap tx) as [swap|]; [|reflexivity].
  destruct (truthy_num (opt_member (SwapEvent.nativeOutput swap) NativeLeg.amount));
    [reflexivity|].
  now destruct (truthy_num (opt_member (SwapEvent.nativeInput swap) NativeLeg.amount)).
Qed.

Lemma truthy_str_Some m : truthy_str (Some m) = true <-> m <> "".
Proof.
  simpl. rewrite negb_true_iff. apply String.eqb_neq.
Qed.





End SwapClaims.

Section MetricsClaims.
Import Js Supabase.

(** The swaps at or after a cutoff. *)
Definition since (cutoff : Z) (swaps : list SwapRow.t) : list SwapRow.t :=
  List.filter (fun swap => cutoff <=? SwapRow.ts swap) swaps.



(** The distinct wallets in one column of some swaps, empty entries left
    out, added to [set]. *)
Definition wallets_from (who : SwapRow.t -> option string) (set : gset string)
    (swaps : list SwapRow.t) : gset string :=
  fold_left (fun s swap => add_if (who swap) s) swaps set.

Definition wallets (who : SwapRow.t -> option string) (swaps : list SwapRow.t)
  : gset string :=
  wallets_from who ∅ swaps.

(** The USD volume of some swaps, added to [total] in list order. *)
Definition volume_from (total : Q) (swaps : list SwapRow.t) : Q :=
  fold_left (fun v swap => (v + or_zero (SwapRow.amount_usd swap))%Q) swaps total.

Definition volume (swaps : list SwapRow.t) : Q := volume_from 0 swaps.

(** A sale ten minutes old: inside the 15-minute range, outside the
    5-minute window. *)
Definition stale_sale : SwapRow.t :=
  SwapRow.mk 300000 (Some "sell") (Some 100%Q) None (Some "seller-wallet").

(** C4, where the code departs from the claim: at the clock reading
    900000 (fifteen minutes), the only swap is ten minutes old, so no swap
    meets the 5-minute cutoff, and yet [unique_sellers_5m] is 1, while
    [swaps_5m], [volume_usd_5m] and the distinct sellers at or after the
    cutoff are all zero. *)
Theorem getSwapMetrics_counts_stale_seller_in_5m :
  since (minutesAgo 900000 5) [stale_sale] = [] /\
  SwapMetrics.swaps_5m (getSwapMetrics 900000 (Some [stale_sale])) = 0 /\
  SwapMetrics.volume_usd_5m (getSwapMetrics 900000 (Some [stale_sale])) = 0%Q /\
  size (wallets SwapRow.seller (since (minutesAgo 900000 5) [stale_sale])) = 0%nat /\
  SwapMetrics.unique_sellers_5m (getSwapMetrics 900000 (Some [stale_sale])) = 1%nat.
Proof. vm_compute. repeat split; reflexivity. Qed.





End MetricsClaims.

Section DispatchClaims.
Import Js Rules Supabase Bot ScoreWorker.

(** The AlertState of a token as the pipeline reads it: its row, or the
    column defaults when it has none yet. *)
Definition alert_state (alerts : gmap string AlertRow.t) (mint : string)
  : AlertRow.t :=
  default new_alert (alerts !! mint).

(** The outcome of the notification attempt of [sendTokenAlert] for a
    token whose AlertState is [alert]: the id of the message sent or
    edited, or nothing when no chat is configured, alerts are disabled, or
    both the edit (if tried) and the send failed. *)
Definition attempt (env : Env) (alert : AlertRow.t) : option string :=
  match chatId env with
  | None => None
  | Some chat =>
      if String.eqb chat "" then None
      else if strict_eq (ENABLE_TELEGRAM_ALERTS env) (Some "false") then None
      else deliver env chat alert
  end.

(** The AlertState written after a successful send or edit. *)
Definition updated_state (env : Env) (now : Z) (scoreResult : ScoreResult.t)
    (before : AlertRow.t) (message_id : string) : AlertRow.t :=
  AlertRow.mk
    (Some (ScoreResult.score scoreResult))
    (Some now)
    (Some message_id)
    (chatId env)
    (Some (default 0 (AlertRow.alert_count before) + 1))
    (Some (ScoreResult.risk_flags scoreResult)).

Lemma getOrCreateAlert_state mint alerts :
  fst (getOrCreateAlert mint alerts) = alert_state alerts mint /\
  snd (getOrCreateAlert mint alerts) !! mint = Some (alert_state alerts mint) /\
  forall m, alert_state (snd (getOrCreateAlert mint alerts)) m = alert_state alerts m.
Proof.
  unfold getOrCreateAlert, alert_state.
  destruct (alerts !! mint) as [a|] eqn:E; simpl.
  - rewrite E. auto.
  - rewrite lookup_insert_eq. split; [reflexivity|]. split; [reflexivity|].
    intros m. destruct (decide (mint = m)) as [->|Hne].
    + now rewrite lookup_insert_eq, E.
    + now rewrite lookup_insert_ne.
Qed.

Lemma updateAlert_state mint data alerts m :
  is_Some (alerts !! mint) ->
  alert_state (updateAlert mint data alerts) m
  = if decide (mint = m) then data else alert_state alerts m.
Proof.
  intros [a Ha]. unfold updateAlert, alert_state. rewrite Ha.
  destruct (decide (mint = m)) as [->|Hne].
  - now rewrite lookup_insert_eq.
  - now rewrite lookup_insert_ne.
Qed.

(** What [sendTokenAlert] does to the AlertState of every token. *)
Lemma sendTokenAlert_state env now token scoreResult alerts m :
  alert_state (sendTokenAlert env now token scoreResult alerts) m
  = match attempt env (alert_state alerts (Token.mint token)) with
    | Some message_id =>
        if decide (Token.mint token = m)
        then updated_state env now scoreResult
               (alert_state alerts (Token.mint token)) message_id
        else alert_state alerts m
    | None => alert_state alerts m
    end.
Proof.
  unfold sendTokenAlert, attempt.
  destruct (chatId env) as [chat|] eqn:Hchat; [|reflexivity].
  destruct (String.eqb chat ""); [reflexivity|].
  destruct (strict_eq (ENABLE_TELEGRAM_ALERTS env) (Some "false")); [reflexivity|].
  destruct (getOrCreateAlert_state (Token.mint token) alerts) as (Ha & Hrow & Hrest).
  destruct (getOrCreateAlert (Token.mint token) alerts) as [alert alerts1].
  simpl in Ha, Hrow, Hrest. subst alert.
  destruct (deliver env chat (alert_state alerts (Token.mint token))) as [id|].
  - rewrite updateAlert_state by (rewrite Hrow; eauto).
    destruct (decide (Token.mint token = m)); [|apply Hrest].
    unfold updated_state. rewrite Hchat.
    now destruct (AlertRow.alert_count (alert_state alerts (Token.mint token))).
  - apply Hrest.
Qed.

(** A failed attempt leaves the table as it is, once the token has a row. *)
Lemma sendTokenAlert_failed env now token scoreResult alerts :
  is_Some (alerts !! Token.mint token) ->
  attempt env (alert_state alerts (Token.mint token)) = None ->
  sendTokenAlert env now token scoreResult alerts = alerts.
Proof.
  intros [a Ha]. unfold sendTokenAlert, attempt, alert_state, getOrCreateAlert.
  rewrite Ha. simpl.
  destruct (chatId env) as [chat|]; [|reflexivity].
  destruct (String.eqb chat ""); [reflexivity|].
  destruct (strict_eq (ENABLE_TELEGRAM_ALERTS env) (Some "false")); [reflexivity|].
  now intros ->.
Qed.

(** C9.  [scoreToken] always returns.  With [before] the token's
    AlertState and [check] the alert decision on the fresh score:
    - when the decision is Suppress, every AlertState is as before, and
      the alerts table is as reading the token's AlertState left it (the
      same table, with the default row added if the token had none);
    - when the notification attempt fails (no chat, alerts disabled, or no
      successful send or edit), likewise;
    - an AlertState that did change is the scored token's, the decision
      was to send, the attempt succeeded, and the new state holds the new
      score, flags, timestamp and message id with the count raised by one. *)
Theorem alert_state_changes_only_after_delivery :
  forall (cfg : AlertThresholds) (env : Env) (now : Z) (token : Token.t)
         (metrics : option Metrics.t) (holders : option Holders.t)
         (pools : option (list Pool.t)) (db : Db),
  exists (scoreResult : ScoreResult.t) (alerted : bool) (db' : Db),
    Score.score now
      (TokenState.mk (Some token) metrics holders (opt_member pools head))
    = Ok scoreResult /\
    scoreToken cfg env now token metrics holders pools db
    = Ok ((ScoreResult.score scoreResult, alerted), db') /\
    let before := alert_state (alerts db) (Token.mint token) in
    let check :=
      Score.shouldAlert cfg scoreResult (AlertRow.last_score before)
        (default [] (AlertRow.last_risk_flags before)) in
    alerted = AlertCheck.shouldSend check /\
    (AlertCheck.shouldSend check = false ->
     (forall m, alert_state (alerts db') m = alert_state (alerts db) m) /\
     alerts db' = snd (getOrCreateAlert (Token.mint token) (alerts db))) /\
    (attempt env before = None ->
     (forall m, alert_state (alerts db') m = alert_state (alerts db) m) /\
     alerts db' = snd (getOrCreateAlert (Token.mint token) (alerts db))) /\
    (forall m,
        alert_state (alerts db') m <> alert_state (alerts db) m ->
        m = Token.mint token /\
        AlertCheck.shouldSend check = true /\
        exists message_id,
          attempt env before = Some message_id /\
          alert_state (alerts db') m
          = updated_state env now scoreResult before message_id).
Proof.
  intros cfg env now token metrics holders pools db.
  destruct (score_returns now
              (TokenState.mk (Some token) metrics holders (opt_member pools head)))
    as [scoreResult Hscore].
  unfold scoreToken. rewrite Hscore. cbn [mbind Js.result_bind].
  destruct (getOrCreateAlert_state (Token.mint token) (alerts db))
    as (Ha & Hrow & Hrest).
  destruct (getOrCreateAlert (Token.mint token) (alerts db)) as [alert alerts1].
  simpl in Ha, Hrow, Hrest. subst alert. cbn [snd].
  set (before := alert_state (alerts db) (Token.mint token)) in *.
  set (check := Score.shouldAlert cfg scoreResult (AlertRow.last_score before)
                  (default [] (AlertRow.last_risk_flags before))).
  assert (Hbefore1 : alert_state alerts1 (Token.mint token) = before)
    by apply Hrest.
  destruct (AlertCheck.shouldSend check) eqn:Hsend.
  - exists scoreResult, true,
      (mkDb (scores db ++ [(Token.mint token, scoreResult)])
         (sendTokenAlert env now token scoreResult alerts1)).
    split; [reflexivity|]. split; [reflexivity|]. cbv zeta.
    fold before. fold check. rewrite Hsend. split; [reflexivity|].
    split; [discriminate|]. cbn [alerts]. split.
    + intros Hfail. split.
      * intros m. rewrite sendTokenAlert_state, Hbefore1, Hfail. apply Hrest.
      * apply sendTokenAlert_failed; [rewrite Hrow; eauto|].
        now rewrite Hbefore1.
    + intros m. rewrite sendTokenAlert_state, Hbefore1.
      destruct (attempt env before) as [id|]; [|rewrite Hrest; congruence].
      destruct (decide (Token.mint token = m)) as [<-|Hne];
        [|rewrite Hrest; congruence].
      intros _. split; [reflexivity|]. split; [reflexivity|].
      exists id. split; reflexivity.
  - exists scoreResult, false,
      (mkDb (scores db ++ [(Token.mint token, scoreResult)]) alerts1).
    split; [reflexivity|]. split; [reflexivity|]. cbv zeta.
    fold before. fold check. rewrite Hsend. split; [reflexivity|].
    cbn [alerts]. split; [intros _; split; [exact Hrest | reflexivity]|].
    split; [intros _; split; [exact Hrest | reflexivity]|].
    intros m Hm. exfalso. apply Hm, Hrest.
Qed.

(** A configured chat whose every send and edit fails. *)
Definition unreachable_chat : Env :=
  mkEnv (Some "chat") None (Telegram.mk (fun _ _ => None) (fun _ => None)).

(** The token and metrics of scenario A. *)
Definition token_A : Token.t := Token.mk "MINT" None None None.

Definition metrics_A : Metrics.t :=
  Metrics.mk (Some 60000%Q) (Some 25%Q) (Some 50%Q) (Some 60000%Q)
    (Some 250%Q) (Some 60%Q) (Some 42000%Q) (Some 18000%Q) None.

Lemma alert_state_changes_only_after_delivery_witness :
  exists (alerted : bool) (db' : Db),
    scoreToken default_thresholds unreachable_chat 0 token_A (Some metrics_A)
      None None (mkDb [] ∅)
    = Ok ((100, alerted), db') /\
    forall m, alert_state (alerts db') m = alert_state ∅ m.
Proof.
  destruct (alert_state_changes_only_after_delivery default_thresholds
              unreachable_chat 0 token_A (Some metrics_A) None None (mkDb [] ∅))
    as (r & alerted & db' & Hscore & Hrun & Hrest).
  cbv zeta in Hrest. destruct Hrest as (_ & _ & Hfail & _).
  exists alerted, db'. split.
  - assert (Hr : ScoreResult.score r = 100).
    { vm_compute in Hscore. injection Hscore as <-. reflexivity. }
    rewrite <- Hr. exact Hrun.
  - apply Hfail. reflexivity.
Defined.

End DispatchClaims.

(* ===================================================================== *)
(** * Further properties of the scoring engine *)
(* ===================================================================== *)

Section ScoreBounds.
Import Js Rules Score.

(** A holder percentage as [score] reads it. *)
Definition holder_pct (x : TokenState.t) (field : Holders.t -> option Q) : Q :=
  or_zero (opt_member (TokenState.holders x) field).

(** The authority step on a token state. *)
Definition authority_step (x : TokenState.t) : option (Authority.t * string) :=
  authority_of (has_auth (TokenState.token x) Token.mint_authority)
    (has_auth (TokenState.token x) Token.freeze_authority).

(** The points of the seven positive components on a token state. *)
Definition points_of (x : TokenState.t) : Z :=
  fst (pick (liquidity_signal x) LIQUIDITY_THRESHOLDS)
  + fst (pick (metric x Metrics.unique_buyers_1m) UNIQUE_BUYERS_1M_THRESHOLDS)
  + fst (pick (metric x Metrics.swaps_1m) SWAPS_1M_THRESHOLDS)
  + fst (pick (metric x Metrics.volume_usd_1m) VOLUME_1M_THRESHOLDS)
  + fst (pick (holder_signal x) HOLDER_COUNT_THRESHOLDS)
  + fst (pick (metric x Metrics.unique_buyers_5m) UNIQUE_BUYERS_5M_THRESHOLDS)
  + fst (pick (buy_ratio x) BUY_PRESSURE_THRESHOLDS).

(** The two concentration penalties. *)
Definition concentration_of (x : TokenState.t) : Z :=
  concentration_penalty
    (concentration (holder_pct x Holders.top10_pct) TOP10_CONCENTRATION_PENALTIES)
  + concentration_penalty
      (concentration (holder_pct x Holders.top1_pct) TOP1_CONCENTRATION_PENALTIES).

Definition authority_penalty_of (x : TokenState.t) : Z :=
  from_option (fun a : Authority.t * string => Authority.penalty (fst a)) 0
    (authority_step x).

(** The flags [score] raises, in the order it pushes them. *)
Definition flags_of (now : Z) (x : TokenState.t) : list string :=
  from_option (fun a : Authority.t * string => [snd a]) [] (authority_step x)
  ++ flag_if (lt (liquidity_signal x) LOW_LIQUIDITY_threshold) LOW_LIQUIDITY_flag
  ++ flag_if (is_very_new now (TokenState.token x)) NEW_TOKEN_flag
  ++ flag_if (lt (holder_signal x) LOW_HOLDERS_threshold) LOW_HOLDERS_flag
  ++ flag_if (le (metric x Metrics.volume_usd_1m) NO_VOLUME_threshold) NO_VOLUME_flag
  ++ flag_if (gt (holder_pct x Holders.top1_pct) WHALE_CONCENTRATION_threshold)
       WHALE_CONCENTRATION_flag
  ++ flag_if (lt (metric x Metrics.price_change_5m) RAPID_PRICE_DROP_threshold)
       RAPID_PRICE_DROP_flag.

(** What [score] returns, read off its body. *)
Lemma score_shape now x r :
  score now x = Ok r ->
  ScoreResult.score r
  = Z.max 0 (Z.min 100 (points_of x + concentration_of x + authority_penalty_of x)) /\
  ScoreResult.risk_flags r = flags_of now x /\
  positive_sum (ScoreResult.components r) = points_of x /\
  concentration_penalty (Components.top10_concentration (ScoreResult.components r))
  + concentration_penalty (Components.top1_concentration (ScoreResult.components r))
  = concentration_of x /\
  Component.points (Components.liquidity (ScoreResult.components r))
  = fst (pick (liquidity_signal x) LIQUIDITY_THRESHOLDS) /\
  Component.points (Components.volume_1m (ScoreResult.components r))
  = fst (pick (metric x Metrics.volume_usd_1m) VOLUME_1M_THRESHOLDS) /\
  Component.points (Components.holder_count (ScoreResult.components r))
  = fst (pick (holder_signal x) HOLDER_COUNT_THRESHOLDS) /\
  Component.points (Components.buy_pressure (ScoreResult.components r))
  = fst (pick (buy_ratio x) BUY_PRESSURE_THRESHOLDS) /\
  Component.reason (Components.buy_pressure (ScoreResult.components r))
  = snd (pick (buy_ratio x) BUY_PRESSURE_THRESHOLDS) /\
  concentration_penalty (Components.top1_concentration (ScoreResult.components r))
  = concentration_penalty
      (concentration (holder_pct x Holders.top1_pct) TOP1_CONCENTRATION_PENALTIES) /\
  penalty_sum (ScoreResult.components r)
  = concentration_of x + authority_penalty_of x /\
  In (snd (pick (buy_ratio x) BUY_PRESSURE_THRESHOLDS)) (ScoreResult.reasons r).
Proof.
  score_steps. intros [= <-].
  cbn [ScoreResult.score ScoreResult.risk_flags ScoreResult.components
       ScoreResult.reasons].
  unfold positive_sum, penalty_sum.
  cbn [Components.liquidity Components.unique_buyers_1m Components.swaps_1m
       Components.volume_1m Components.holder_count Components.unique_buyers_5m
       Components.buy_pressure Components.top10_concentration
       Components.top1_concentration Components.authority
       Component.points Component.reason].
  rewrite Math_round_Z.
  unfold points_of, concentration_of, authority_penalty_of, authority_step,
    flags_of, buy_ratio, authority_step, liquidity_signal, holder_signal,
    holder_pct, metric.
  split; [do 2 apply f_equal; lia|].
  repeat (split; [reflexivity|]). split.
  - now destruct (authority_of _ _) as [[? ?]|].
  - simpl. do 6 right. left. reflexivity.
Qed.

Lemma points_of_bounds x :
  0 <= points_of x <= 100 /\
  0 <= fst (pick (buy_ratio x) BUY_PRESSURE_THRESHOLDS) <= 10 /\
  points_of x - fst (pick (buy_ratio x) BUY_PRESSURE_THRESHOLDS) >= 0.
Proof.
  unfold points_of.
  pose proof (pick_bounds LIQUIDITY_THRESHOLDS 0 25 (liquidity_signal x)
                ltac:(simpl; tauto) eq_refl).
  pose proof (pick_bounds UNIQUE_BUYERS_1M_THRESHOLDS 0 20
                (metric x Metrics.unique_buyers_1m) ltac:(simpl; tauto) eq_refl).
  pose proof (pick_bounds SWAPS_1M_THRESHOLDS 0 15
                (metric x Metrics.swaps_1m) ltac:(simpl; tauto) eq_refl).
  pose proof (pick_bounds VOLUME_1M_THRESHOLDS 0 10
                (metric x Metrics.volume_usd_1m) ltac:(simpl; tauto) eq_refl).
  pose proof (pick_bounds HOLDER_COUNT_THRESHOLDS 0 10
                (holder_signal x) ltac:(simpl; tauto) eq_refl).
  pose proof (pick_bounds UNIQUE_BUYERS_5M_THRESHOLDS 0 10
                (metric x Metrics.unique_buyers_5m) ltac:(simpl; tauto) eq_refl).
  pose proof (pick_bounds BUY_PRESSURE_THRESHOLDS 0 10
                (buy_ratio x) ltac:(simpl; tauto) eq_refl).
  lia.
Qed.

Lemma concentration_of_nonpos x : concentration_of x <= 0.
Proof.
  unfold concentration_of.
  pose proof (concentration_penalty_antitone TOP10_CONCENTRATION_PENALTIES
                (holder_pct x Holders.top10_pct) (holder_pct x Holders.top10_pct)
                ltac:(simpl; tauto) (Qle_refl _)).
  pose proof (concentration_penalty_antitone TOP1_CONCENTRATION_PENALTIES
                (holder_pct x Holders.top1_pct) (holder_pct x Holders.top1_pct)
                ltac:(simpl; tauto) (Qle_refl _)).
  lia.
Qed.

(** Which authority flag is raised, and the penalty that comes with it. *)
Lemma authority_step_cases x :
  let m := has_auth (TokenState.token x) Token.mint_authority in
  let f := has_auth (TokenState.token x) Token.freeze_authority in
  from_option (fun a : Authority.t * string => [snd a]) [] (authority_step x)
  = (if m && f then ["FULL_AUTHORITY_RISK"]
     else if m then ["MINT_AUTHORITY_RISK"]
     else if f then ["FREEZE_AUTHORITY_RISK"] else []) /\
  authority_penalty_of x
  = (if m && f then -20 else if m then -10 else if f then -10 else 0).
Proof.
  unfold authority_penalty_of, authority_step, authority_of. cbv zeta.
  destruct (has_auth _ Token.mint_authority), (has_auth _ Token.freeze_authority);
    split; reflexivity.
Qed.

(** Membership of a flag in the list [score] builds. *)
Lemma In_flags_of now x flag :
  In flag (flags_of now x) <->
  In flag (from_option (fun a : Authority.t * string => [snd a]) [] (authority_step x))
  \/ (lt (liquidity_signal x) LOW_LIQUIDITY_threshold = true
      /\ flag = LOW_LIQUIDITY_flag)
  \/ (is_very_new now (TokenState.token x) = true /\ flag = NEW_TOKEN_flag)
  \/ (lt (holder_signal x) LOW_HOLDERS_threshold = true /\ flag = LOW_HOLDERS_flag)
  \/ (le (metric x Metrics.volume_usd_1m) NO_VOLUME_threshold = true
      /\ flag = NO_VOLUME_flag)
  \/ (gt (holder_pct x Holders.top1_pct) WHALE_CONCENTRATION_threshold = true
      /\ flag = WHALE_CONCENTRATION_flag)
  \/ (lt (metric x Metrics.price_change_5m) RAPID_PRICE_DROP_threshold = true
      /\ flag = RAPID_PRICE_DROP_flag).
Proof. unfold flags_of. rewrite !in_app_iff, !In_flag_if. reflexivity. Qed.

(** A hard flag is raised by the authority step alone. *)
Lemma hard_flag_cases now x flag :
  In flag hard_flags ->
  In flag (flags_of now x) <->
  In flag
    (if has_auth (TokenState.token x) Token.mint_authority
        && has_auth (TokenState.token x) Token.freeze_authority
     then ["FULL_AUTHORITY_RISK"]
     else if has_auth (TokenState.token x) Token.mint_authority
     then ["MINT_AUTHORITY_RISK"]
     else if has_auth (TokenState.token x) Token.freeze_authority
     then ["FREEZE_AUTHORITY_RISK"] else []).
Proof.
  intros Hhard. destruct (authority_step_cases x) as [Hauth _].
  cbv zeta in Hauth. rewrite In_flags_of, Hauth. split; [|tauto].
  intros [H|H]; [exact H|]. exfalso.
  destruct Hhard as [<-|[<-|[<-|[]]]];
    repeat (destruct H as [[_ H]|H]; [discriminate|]);
    destruct H as [_ H]; discriminate.
Qed.

(** With the combined authority flag the score is at most 80. *)
Lemma full_authority_score now x r :
  score now x = Ok r ->
  In "FULL_AUTHORITY_RISK" (ScoreResult.risk_flags r) ->
  ScoreResult.score r <= 80.
Proof.
  intros Hr Hfull.
  destruct (score_shape now x r Hr) as (Hscore & Hflags & _).
  rewrite Hflags in Hfull. apply hard_flag_cases in Hfull; [|simpl; tauto].
  destruct (authority_step_cases x) as [_ Hpen]. cbv zeta in Hpen.
  pose proof (points_of_bounds x) as (Hp & _).
  pose proof (concentration_of_nonpos x) as Hc.
  destruct (has_auth _ Token.mint_authority),
           (has_auth _ Token.freeze_authority); simpl in Hfull, Hpen;
    try (destruct Hfull as [Hfull|[]]; discriminate); try contradiction.
  lia.
Qed.

(** X2.  The authority flags and the ceiling they put on the score.  The
    combined flag is raised exactly when both authorities are present, the
    mint (freeze) flag exactly when only that authority is; so at most one
    of the three is ever raised.  With the combined flag the score is at
    most 80, with any hard flag at most 90.  Under the default thresholds
    a first alert for a token with both authorities therefore needs a score
    of exactly 80: all seven positive components at their maximum and no
    concentration penalty. *)
Theorem score_authority_flags_cap_score :
  forall (now : Z) (x : TokenState.t) (r : ScoreResult.t),
    score now x = Ok r ->
    let m := has_auth (TokenState.token x) Token.mint_authority in
    let f := has_auth (TokenState.token x) Token.freeze_authority in
    (In "FULL_AUTHORITY_RISK" (ScoreResult.risk_flags r)
     <-> m = true /\ f = true) /\
    (In "MINT_AUTHORITY_RISK" (ScoreResult.risk_flags r)
     <-> m = true /\ f = false) /\
    (In "FREEZE_AUTHORITY_RISK" (ScoreResult.risk_flags r)
     <-> m = false /\ f = true) /\
    (In "FULL_AUTHORITY_RISK" (ScoreResult.risk_flags r) ->
     ScoreResult.score r <= 80) /\
    (has_hard_flag (ScoreResult.risk_flags r) -> ScoreResult.score r <= 90) /\
    (forall previousFlags : list string,
        In "FULL_AUTHORITY_RISK" (ScoreResult.risk_flags r) ->
        AlertCheck.shouldSend (shouldAlert default_thresholds r None previousFlags)
        = true ->
        ScoreResult.score r = 80 /\
        positive_sum (ScoreResult.components r) = 100 /\
        concentration_penalty
          (Components.top10_concentration (ScoreResult.components r)) = 0 /\
        concentration_penalty
          (Components.top1_concentration (ScoreResult.components r)) = 0).
Proof.
  intros now x r Hr m f.
  destruct (score_shape now x r Hr)
    as (Hscore & Hflags & Hpos & Hconc & _).
  destruct (authority_step_cases x) as [Hauth Hpen]. cbv zeta in Hauth, Hpen.
  fold m f in Hauth, Hpen.
  pose proof (points_of_bounds x) as (Hp & _).
  pose proof (concentration_of_nonpos x) as Hc.
  assert (Hin : forall flag,
             In flag hard_flags ->
             (In flag (ScoreResult.risk_flags r) <->
              In flag (if m && f then ["FULL_AUTHORITY_RISK"]
                       else if m then ["MINT_AUTHORITY_RISK"]
                       else if f then ["FREEZE_AUTHORITY_RISK"] else []))).
  { intros flag Hhard. rewrite Hflags. now apply hard_flag_cases. }
  assert (Hfull : In "FULL_AUTHORITY_RISK" (ScoreResult.risk_flags r)
                  <-> m = true /\ f = true).
  { rewrite Hin by (simpl; tauto).
    destruct m, f; simpl; split; intros H; try tauto;
      try (destruct H as [H|[]]; discriminate); destruct H; discriminate. }
  assert (Hmint : In "MINT_AUTHORITY_RISK" (ScoreResult.risk_flags r)
                  <-> m = true /\ f = false).
  { rewrite Hin by (simpl; tauto).
    destruct m, f; simpl; split; intros H; try tauto;
      try (destruct H as [H|[]]; discriminate); destruct H; discriminate. }
  assert (Hfreeze : In "FREEZE_AUTHORITY_RISK" (ScoreResult.risk_flags r)
                    <-> m = false /\ f = true).
  { rewrite Hin by (simpl; tauto).
    destruct m, f; simpl; split; intros H; try tauto;
      try (destruct H as [H|[]]; discriminate); destruct H; discriminate. }
  split; [exact Hfull|]. split; [exact Hmint|]. split; [exact Hfreeze|].
  split; [|split].
  - intros H. apply Hfull in H as [Hm Hf]. rewrite Hm, Hf in Hpen.
    simpl in Hpen. lia.
  - intros (flag & Hflag & Hhard).
    assert (Hcase : (m = true /\ f = true) \/ (m = true /\ f = false)
                    \/ (m = false /\ f = true)).
    { destruct Hhard as [<-|[<-|[<-|[]]]]; tauto. }
    destruct Hcase as [[Hm Hf]|[[Hm Hf]|[Hm Hf]]]; rewrite Hm, Hf in Hpen;
      simpl in Hpen; lia.
  - intros previousFlags H Hsend. apply Hfull in H as [Hm Hf].
    rewrite Hm, Hf in Hpen. simpl in Hpen.
    assert (Hhard : existsb (includes hard_flags) (ScoreResult.risk_flags r) = true).
    { apply hasHardFlags_iff. exists "FULL_AUTHORITY_RISK".
      split; [apply Hfull; auto | simpl; tauto]. }
    unfold shouldAlert in Hsend. rewrite Hhard in Hsend.
    rewrite andb_false_r in Hsend. cbn [SCORE_THRESHOLD_WITH_FLAGS default_thresholds] in Hsend.
    destruct (80 <=? ScoreResult.score r) eqn:E; [|discriminate].
    apply Z.leb_le in E.
    pose proof (concentration_penalty_antitone TOP10_CONCENTRATION_PENALTIES
                  (holder_pct x Holders.top10_pct) (holder_pct x Holders.top10_pct)
                  ltac:(simpl; tauto) (Qle_refl _)) as H10.
    pose proof (concentration_penalty_antitone TOP1_CONCENTRATION_PENALTIES
                  (holder_pct x Holders.top1_pct) (holder_pct x Holders.top1_pct)
                  ltac:(simpl; tauto) (Qle_refl _)) as H1.
    destruct (score_shape now x r Hr)
      as (_ & _ & _ & _ & _ & _ & _ & _ & _ & Htop1 & _).
    unfold concentration_of in *. rewrite <- Htop1 in *.
    lia.
Qed.

(** Scenario B of the specification: both authorities, every positive
    component at its maximum. *)
Lemma score_authority_flags_cap_score_witness :
  exists r : ScoreResult.t,
    score 0 (scenario_B None) = Ok r /\
    In "FULL_AUTHORITY_RISK" (ScoreResult.risk_flags r) /\
    ScoreResult.score r <= 80.
Proof.
  destruct (score 0 (scenario_B None)) as [r|e] eqn:Hr;
    [|vm_compute in Hr; discriminate].
  exists r. split; [reflexivity|].
  destruct (score_authority_flags_cap_score 0 (scenario_B None) r Hr)
    as (Hfull & _ & _ & Hcap & _).
  assert (Hin : In "FULL_AUTHORITY_RISK" (ScoreResult.risk_flags r)).
  { apply Hfull. split; reflexivity. }
  split; [exact Hin | exact (Hcap Hin)].
Defined.

Lemma Qle_bool_false (a b : Q) : Qle_bool a b = false <-> (b < a)%Q.
Proof.
  split.
  - intros H. apply Qnot_le_lt. intros Hle. apply Qle_bool_iff in Hle. congruence.
  - intros H. destruct (Qle_bool a b) eqn:E; [|reflexivity].
    apply Qle_bool_iff in E. exfalso. now apply (Qlt_not_le b a).
Qed.

(** Turns the comparisons of the source into order facts on rationals. *)
Ltac order_facts :=
  unfold ge, gt, lt, le in *;
  repeat match goal with
         | H : negb _ = true |- _ => apply negb_true_iff in H
         | H : negb _ = false |- _ => apply negb_false_iff in H
         | H : Qle_bool _ _ = true |- _ => apply Qle_bool_iff in H
         | H : Qle_bool _ _ = false |- _ => apply Qle_bool_false in H
         end.

(** The points a table of five tiers gives, by the tier reached. *)
Lemma pick_five v (a b c d e : Tier.t) :
  In [a; b; c; d; e] positive_tables ->
  fst (pick v [a; b; c; d; e])
  = if ge v (Tier.min a) then Tier.points a
    else if ge v (Tier.min b) then Tier.points b
    else if ge v (Tier.min c) then Tier.points c
    else if ge v (Tier.min d) then Tier.points d
    else Tier.points e.
Proof.
  intros Hin. destruct (table_facts _ Hin) as (Hs & _ & _).
  unfold pick. rewrite Hs. unfold select. cbn [first_reached].
  destruct (ge v (Tier.min a)); [reflexivity|].
  destruct (ge v (Tier.min b)); [reflexivity|].
  destruct (ge v (Tier.min c)); [reflexivity|].
  destruct (ge v (Tier.min d)); [reflexivity|].
  destruct (ge v (Tier.min e)); reflexivity.
Qed.

(** A flag that is not an authority flag is raised exactly when its own
    test holds. *)
Lemma In_soft_flag now x flag :
  ~ In flag hard_flags ->
  In flag (flags_of now x) <->
  (lt (liquidity_signal x) LOW_LIQUIDITY_threshold = true
   /\ flag = LOW_LIQUIDITY_flag)
  \/ (is_very_new now (TokenState.token x) = true /\ flag = NEW_TOKEN_flag)
  \/ (lt (holder_signal x) LOW_HOLDERS_threshold = true /\ flag = LOW_HOLDERS_flag)
  \/ (le (metric x Metrics.volume_usd_1m) NO_VOLUME_threshold = true
      /\ flag = NO_VOLUME_flag)
  \/ (gt (holder_pct x Holders.top1_pct) WHALE_CONCENTRATION_threshold = true
      /\ flag = WHALE_CONCENTRATION_flag)
  \/ (lt (metric x Metrics.price_change_5m) RAPID_PRICE_DROP_threshold = true
      /\ flag = RAPID_PRICE_DROP_flag).
Proof.
  intros Hsoft. rewrite In_flags_of. split; [|tauto].
  intros [H|H]; [|exact H]. exfalso. apply Hsoft.
  destruct (authority_step_cases x) as [Hauth _]. cbv zeta in Hauth.
  rewrite Hauth in H.
  destruct (has_auth _ Token.mint_authority), (has_auth _ Token.freeze_authority);
    simpl in H; try contradiction; destruct H as [<-|[]]; simpl; tauto.
Qed.

(** X3.  With no 1-minute volume the buy-pressure component is not zero:
    when the 1-minute buy and sell volumes add up to zero, the ratio
    defaults to one half, which reaches the tier of four points, and the
    reason of that tier is listed.  The score is then at least four points
    plus the (negative) penalties; so a token with no authority and no
    holder concentration on record scores at least 4, never 0. *)
Theorem score_floor_without_volume :
  forall (now : Z) (x : TokenState.t) (r : ScoreResult.t),
    score now x = Ok r ->
    (metric x Metrics.buy_volume_usd_1m + metric x Metrics.sell_volume_usd_1m
     == 0)%Q ->
    Component.points (Components.buy_pressure (ScoreResult.components r)) = 4 /\
    Component.reason (Components.buy_pressure (ScoreResult.components r))
    = "BUY_PRESSURE_50_PCT" /\
    In "BUY_PRESSURE_50_PCT" (ScoreResult.reasons r) /\
    4 + penalty_sum (ScoreResult.components r) <= ScoreResult.score r /\
    (has_auth (TokenState.token x) Token.mint_authority = false ->
     has_auth (TokenState.token x) Token.freeze_authority = false ->
     (holder_pct x Holders.top10_pct <= 0)%Q ->
     (holder_pct x Holders.top1_pct <= 0)%Q ->
     4 <= ScoreResult.score r).
Proof.
  intros now x r Hr Hzero.
  destruct (score_shape now x r Hr)
    as (Hscore & _ & _ & _ & _ & _ & _ & Hbp & Hreason & _ & Hpen & Hin).
  assert (Hratio : buy_ratio x = (1 # 2)%Q).
  { unfold buy_ratio, gt. replace (Qle_bool _ 0) with true; [reflexivity|].
    symmetry. apply Qle_bool_iff. rewrite Hzero. apply Qle_refl. }
  rewrite Hratio in *.
  assert (Hpick : pick (1 # 2) BUY_PRESSURE_THRESHOLDS = (4, "BUY_PRESSURE_50_PCT"))
    by (vm_compute; reflexivity).
  rewrite Hpick in *. cbn [fst snd] in *.
  pose proof (points_of_bounds x) as (Hp & Hb & Hrest).
  rewrite Hratio, Hpick in Hb, Hrest. cbn [fst] in Hb, Hrest.
  pose proof (concentration_of_nonpos x) as Hc.
  destruct (authority_step_cases x) as [_ Hauth]. cbv zeta in Hauth.
  assert (Ha : authority_penalty_of x <= 0).
  { rewrite Hauth.
    destruct (has_auth _ Token.mint_authority),
             (has_auth _ Token.freeze_authority); simpl; lia. }
  split; [exact Hbp|]. split; [exact Hreason|]. split; [exact Hin|].
  split; [rewrite Hpen, Hscore; lia|].
  intros Hm Hf H10 H1. rewrite Hm, Hf in Hauth. simpl in Hauth.
  assert (Hc0 : concentration_of x = 0).
  { unfold concentration_of, concentration, gt.
    apply Qle_bool_iff in H10, H1. now rewrite H10, H1. }
  rewrite Hscore. lia.
Qed.

(** Scenario C of the specification: every metric zero. *)
Lemma score_floor_without_volume_witness :
  exists r : ScoreResult.t,
    score 0 (scenario_C None) = Ok r /\ 4 <= ScoreResult.score r.
Proof.
  destruct (score 0 (scenario_C None)) as [r|e] eqn:Hr;
    [|vm_compute in Hr; discriminate].
  exists r. split; [reflexivity|].
  destruct (score_floor_without_volume 0 (scenario_C None) r Hr) as (_ & _ & _ & _ & H).
  - reflexivity.
  - apply H; try reflexivity; apply Qle_bool_iff; reflexivity.
Defined.

(** X4.  The warning flags agree with the numeric components.  The
    low-liquidity flag is raised exactly when the liquidity component earns
    no point; the low-holder flag is raised only when the holder component
    earns none, the no-volume flag only when the volume component earns
    none; and with the whale flag the top-holder penalty is at least 10
    points. *)
Theorem score_flags_agree_with_components :
  forall (now : Z) (x : TokenState.t) (r : ScoreResult.t),
    score now x = Ok r ->
    (In "LOW_LIQUIDITY_WARNING" (ScoreResult.risk_flags r) <->
     Component.points (Components.liquidity (ScoreResult.components r)) = 0) /\
    (In "LOW_HOLDER_COUNT" (ScoreResult.risk_flags r) ->
     Component.points (Components.holder_count (ScoreResult.components r)) = 0) /\
    (In "NO_RECENT_VOLUME" (ScoreResult.risk_flags r) ->
     Component.points (Components.volume_1m (ScoreResult.components r)) = 0) /\
    (In "WHALE_CONCENTRATION" (ScoreResult.risk_flags r) ->
     concentration_penalty
       (Components.top1_concentration (ScoreResult.components r)) <= -10).
Proof.
  intros now x r Hr.
  destruct (score_shape now x r Hr)
    as (_ & Hflags & _ & _ & Hliq & Hvol & Hhold & _ & _ & Htop1 & _).
  rewrite Hflags, Hliq, Hvol, Hhold, Htop1.
  rewrite !In_soft_flag
    by (simpl; intros H; repeat (destruct H as [H|H]; [discriminate|]); exact H).
  unfold LIQUIDITY_THRESHOLDS, HOLDER_COUNT_THRESHOLDS, VOLUME_1M_THRESHOLDS.
  rewrite !pick_five by (simpl; tauto). cbn [Tier.min Tier.points].
  unfold LOW_LIQUIDITY_threshold, LOW_HOLDERS_threshold, NO_VOLUME_threshold,
    WHALE_CONCENTRATION_threshold, LOW_LIQUIDITY_flag, NEW_TOKEN_flag,
    LOW_HOLDERS_flag, NO_VOLUME_flag, WHALE_CONCENTRATION_flag,
    RAPID_PRICE_DROP_flag.
  repeat split.
  - intros H.
    repeat (destruct H as [[H Heq]|H]; [try discriminate Heq|]);
      [|destruct H as [_ Heq]; discriminate Heq].
    destruct (ge (liquidity_signal x) 50000) eqn:E1;
      [order_facts; lra|].
    destruct (ge (liquidity_signal x) 20000) eqn:E2;
      [order_facts; lra|].
    destruct (ge (liquidity_signal x) 10000) eqn:E3;
      [order_facts; lra|].
    destruct (ge (liquidity_signal x) 5000) eqn:E4;
      [order_facts; lra|].
    reflexivity.
  - intros H. left. split; [|reflexivity].
    destruct (ge (liquidity_signal x) 50000) eqn:E1; [discriminate|].
    destruct (ge (liquidity_signal x) 20000) eqn:E2; [discriminate|].
    destruct (ge (liquidity_signal x) 10000) eqn:E3; [discriminate|].
    destruct (ge (liquidity_signal x) 5000) eqn:E4; [discriminate|].
    unfold lt, ge in *. now rewrite E4.
  - intros H.
    repeat (destruct H as [[H Heq]|H]; [try discriminate Heq|]);
      [|destruct H as [_ Heq]; discriminate Heq].
    destruct (ge (holder_signal x) 200) eqn:E1; [order_facts; lra|].
    destruct (ge (holder_signal x) 100) eqn:E2; [order_facts; lra|].
    destruct (ge (holder_signal x) 50) eqn:E3; [order_facts; lra|].
    destruct (ge (holder_signal x) 20) eqn:E4; [order_facts; lra|].
    reflexivity.
  - intros H.
    repeat (destruct H as [[H Heq]|H]; [try discriminate Heq|]);
      [|destruct H as [_ Heq]; discriminate Heq].
    destruct (ge (metric x Metrics.volume_usd_1m) 50000) eqn:E1;
      [order_facts; lra|].
    destruct (ge (metric x Metrics.volume_usd_1m) 20000) eqn:E2;
      [order_facts; lra|].
    destruct (ge (metric x Metrics.volume_usd_1m) 10000) eqn:E3;
      [order_facts; lra|].
    destruct (ge (metric x Metrics.volume_usd_1m) 5000) eqn:E4;
      [order_facts; lra|].
    reflexivity.
  - intros H.
    repeat (destruct H as [[H Heq]|H]; [try discriminate Heq|]);
      [|destruct H as [_ Heq]; discriminate Heq].
    rewrite concentration_penalty_eq.
    assert (Hpos : gt (holder_pct x Holders.top1_pct) 0 = true).
    { unfold gt in *. apply negb_true_iff. apply Qle_bool_false.
      order_facts. lra. }
    rewrite Hpos. unfold penalty_of. cbn [sort_penalty_desc].
    replace (sort_penalty_desc TOP1_CONCENTRATION_PENALTIES)
      with TOP1_CONCENTRATION_PENALTIES by reflexivity.
    unfold TOP1_CONCENTRATION_PENALTIES. cbn [first_penalty_reached PenaltyTier.min].
    destruct (ge (holder_pct x Holders.top1_pct) 50) eqn:E1; [simpl; lia|].
    destruct (ge (holder_pct x Holders.top1_pct) 30) eqn:E2; [simpl; lia|].
    exfalso. order_facts. lra.
Qed.

(** A token with nothing on record: the low-liquidity flag and a
    liquidity component worth nothing. *)
Lemma score_flags_agree_with_components_witness :
  exists r : ScoreResult.t,
    score 0 empty_state = Ok r /\
    In "LOW_LIQUIDITY_WARNING" (ScoreResult.risk_flags r) /\
    Component.points (Components.liquidity (ScoreResult.components r)) = 0.
Proof.
  destruct (score 0 empty_state) as [r|e] eqn:Hr;
    [|vm_compute in Hr; discriminate].
  exists r. split; [reflexivity|].
  destruct (score_flags_agree_with_components 0 empty_state r Hr) as (Hliq & _).
  assert (Hin : In "LOW_LIQUIDITY_WARNING" (ScoreResult.risk_flags r)).
  { vm_compute in Hr. injection Hr as <-. simpl. tauto. }
  split; [exact Hin | now apply Hliq].
Defined.

End ScoreBounds.

(* ===================================================================== *)
(** * Consecutive scoring cycles *)
(* ===================================================================== *)

Section ScoringCycles.
Import Js Rules Supabase Bot ScoreWorker.

(** Two clock readings on the same side of the age limit give one result. *)
Lemma score_same_side now1 now2 x :
  is_very_new now1 (TokenState.token x) = is_very_new now2 (TokenState.token x) ->
  Score.score now1 x = Score.score now2 x.
Proof. score_steps. intros ->. reflexivity. Qed.

Lemma getOrCreateAlert_present mint alerts a :
  alerts !! mint = Some a -> getOrCreateAlert mint alerts = (a, alerts).
Proof. unfold getOrCreateAlert. now intros ->. Qed.

(** Once a token has a row, [sendTokenAlert] leaves it one. *)
Lemma sendTokenAlert_keeps_row env now token scoreResult alerts :
  is_Some (alerts !! Token.mint token) ->
  is_Some (sendTokenAlert env now token scoreResult alerts !! Token.mint token).
Proof.
  intros [a Ha]. unfold sendTokenAlert.
  destruct (chatId env) as [chat|]; [|eauto].
  destruct (String.eqb chat ""); [eauto|].
  destruct (strict_eq (ENABLE_TELEGRAM_ALERTS env) (Some "false")); [eauto|].
  rewrite (getOrCreateAlert_present _ _ _ Ha).
  destruct (deliver env chat a); [|eauto].
  unfold updateAlert. rewrite Ha, lookup_insert_eq. eauto.
Qed.

(** One run of [scoreToken], with the score it computed. *)
Lemma scoreToken_run cfg env now token metrics holders pools db r :
  Score.score now
    (TokenState.mk (Some token) metrics holders (opt_member pools head)) = Ok r ->
  scoreToken cfg env now token metrics holders pools db
  = Ok ((ScoreResult.score r,
         AlertCheck.shouldSend
           (Score.shouldAlert cfg r
              (AlertRow.last_score (alert_state (alerts db) (Token.mint token)))
              (default []
                 (AlertRow.last_risk_flags
                    (alert_state (alerts db) (Token.mint token)))))),
        mkDb (scores db ++ [(Token.mint token, r)])
          (if AlertCheck.shouldSend
                (Score.shouldAlert cfg r
                   (AlertRow.last_score (alert_state (alerts db) (Token.mint token)))
                   (default []
                      (AlertRow.last_risk_flags
                         (alert_state (alerts db) (Token.mint token)))))
           then sendTokenAlert env now token r
                  (snd (getOrCreateAlert (Token.mint token) (alerts db)))
           else snd (getOrCreateAlert (Token.mint token) (alerts db)))).
Proof.
  intros Hr. unfold scoreToken. rewrite Hr. cbn [mbind Js.result_bind].
  destruct (getOrCreateAlert_state (Token.mint token) (alerts db)) as (Ha & _).
  destruct (getOrCreateAlert (Token.mint token) (alerts db)) as [alert alerts1].
  simpl in Ha. subst alert. cbn [snd].
  now destruct (AlertCheck.shouldSend _).
Qed.

(** The check against the state a delivery has just written: nothing to
    report while the change threshold is positive. *)
Lemma shouldAlert_after_delivery cfg r :
  0 < SCORE_CHANGE_THRESHOLD cfg ->
  AlertCheck.shouldSend
    (Score.shouldAlert cfg r (Some (ScoreResult.score r)) (ScoreResult.risk_flags r))
  = false.
Proof.
  intros Hpos. unfold Score.shouldAlert, Math_abs.
  rewrite Z.sub_diag. change (Z.abs 0) with 0.
  destruct (SCORE_CHANGE_THRESHOLD cfg <=? 0) eqn:E; [apply Z.leb_le in E; lia|].
  assert (Hsame : array_eqb (sort (ScoreResult.risk_flags r))
                    (sort (ScoreResult.risk_flags r)) = true)
    by now apply array_eqb_eq.
  rewrite Hsame. reflexivity.
Qed.

(** X5.  Two consecutive scoring cycles on a token whose data did not
    change (same metrics, holders and pools, and the token on the same side
    of the five-minute age limit at both clock readings), with a positive
    score-change threshold: both cycles return with the same score, and the
    second one decides to alert exactly when the first one decided to alert
    and its notification attempt failed.  So an alert that was delivered is
    not repeated, a failed one is tried again, and a suppressed one stays
    suppressed; whenever the second cycle does not alert, it leaves the
    alerts table as it found it. *)
Theorem unchanged_token_alerts_again_only_after_failure :
  forall (cfg : AlertThresholds) (env : Env) (now1 now2 : Z) (token : Token.t)
         (metrics : option Metrics.t) (holders : option Holders.t)
         (pools : option (list Pool.t)) (db : Db),
    0 < SCORE_CHANGE_THRESHOLD cfg ->
    is_very_new now1 (Some token) = is_very_new now2 (Some token) ->
    exists (s : Z) (alerted1 alerted2 : bool) (db1 db2 : Db),
      scoreToken cfg env now1 token metrics holders pools db
      = Ok ((s, alerted1), db1) /\
      scoreToken cfg env now2 token metrics holders pools db1
      = Ok ((s, alerted2), db2) /\
      alerted2
      = alerted1
        && bool_decide (attempt env (alert_state (alerts db) (Token.mint token))
                        = None) /\
      (alerted2 = false -> alerts db2 = alerts db1).
Proof.
  intros cfg env now1 now2 token metrics holders pools db Hpos Hside.
  set (x := TokenState.mk (Some token) metrics holders (opt_member pools head)).
  destruct (score_returns now1 x) as [r Hr1].
  assert (Hr2 : Score.score now2 x = Ok r)
    by (rewrite <- (score_same_side now1 now2 x Hside); exact Hr1).
  pose proof (scoreToken_run cfg env now1 token metrics holders pools db r Hr1)
    as Hrun1.
  destruct (getOrCreateAlert_state (Token.mint token) (alerts db))
    as (_ & Hrow & Hrest).
  set (before := alert_state (alerts db) (Token.mint token)) in *.
  set (alerts1 := snd (getOrCreateAlert (Token.mint token) (alerts db))) in *.
  (* the second run, on any table where the token has a row *)
  assert (Hsecond : forall db1,
             is_Some (alerts db1 !! Token.mint token) ->
             exists db2,
               scoreToken cfg env now2 token metrics holders pools db1
               = Ok ((ScoreResult.score r,
                      AlertCheck.shouldSend
                        (Score.shouldAlert cfg r
                           (AlertRow.last_score
                              (alert_state (alerts db1) (Token.mint token)))
                           (default []
                              (AlertRow.last_risk_flags
                                 (alert_state (alerts db1) (Token.mint token)))))),
                     db2) /\
               (AlertCheck.shouldSend
                  (Score.shouldAlert cfg r
                     (AlertRow.last_score
                        (alert_state (alerts db1) (Token.mint token)))
                     (default []
                        (AlertRow.last_risk_flags
                           (alert_state (alerts db1) (Token.mint token)))))
                = false -> alerts db2 = alerts db1)).
  { intros db1 [a Ha]. eexists. split.
    - apply scoreToken_run. exact Hr2.
    - intros ->. cbn [alerts]. now rewrite (getOrCreateAlert_present _ _ _ Ha). }
  destruct (AlertCheck.shouldSend
              (Score.shouldAlert cfg r (AlertRow.last_score before)
                 (default [] (AlertRow.last_risk_flags before)))) eqn:Hsend.
  - (* the first cycle decides to alert *)
    set (db1 := mkDb (scores db ++ [(Token.mint token, r)])
                  (sendTokenAlert env now1 token r alerts1)) in *.
    assert (Hrow1 : is_Some (alerts db1 !! Token.mint token)).
    { apply sendTokenAlert_keeps_row. rewrite Hrow. eauto. }
    assert (Hstate1 : alert_state (alerts db1) (Token.mint token)
                      = match attempt env before with
                        | Some message_id =>
                            updated_state env now1 r before message_id
                        | None => before
                        end).
    { unfold db1. cbn [alerts].
      rewrite sendTokenAlert_state, Hrest. fold before.
      destruct (attempt env before); [|reflexivity].
      now destruct (decide (Token.mint token = Token.mint token)). }
    destruct (Hsecond db1 Hrow1) as (db2 & Hrun2 & Hquiet).
    rewrite Hstate1 in Hrun2, Hquiet.
    exists (ScoreResult.score r), true, (negb (bool_decide (attempt env before <> None))),
      db1, db2.
    split; [exact Hrun1|].
    destruct (attempt env before) as [message_id|] eqn:Hattempt.
    + unfold updated_state in Hrun2, Hquiet.
      cbn [AlertRow.last_score AlertRow.last_risk_flags from_option id]
        in Hrun2, Hquiet.
      rewrite (shouldAlert_after_delivery cfg r Hpos) in Hrun2, Hquiet.
      split; [exact Hrun2|]. split; [reflexivity|]. intros _. now apply Hquiet.
    + rewrite Hsend in Hrun2.
      split; [exact Hrun2|]. split; [reflexivity|]. discriminate.
  - (* the first cycle suppresses *)
    set (db1 := mkDb (scores db ++ [(Token.mint token, r)]) alerts1) in *.
    assert (Hrow1 : is_Some (alerts db1 !! Token.mint token)).
    { unfold db1. cbn [alerts]. rewrite Hrow. eauto. }
    destruct (Hsecond db1 Hrow1) as (db2 & Hrun2 & Hquiet).
    assert (Hstate1 : alert_state (alerts db1) (Token.mint token) = before)
      by apply Hrest.
    rewrite Hstate1, Hsend in Hrun2, Hquiet.
    exists (ScoreResult.score r), false, false, db1, db2.
    split; [exact Hrun1|]. split; [exact Hrun2|]. split; [reflexivity|].
    intros _. now apply Hquiet.
Qed.

(** A chat where every send and edit succeeds. *)
Definition reachable_chat : Env :=
  mkEnv (Some "chat") None (Telegram.mk (fun _ _ => Some "1") (fun _ => Some "1")).

Lemma unchanged_token_alerts_again_only_after_failure_witness :
  exists (s : Z) (alerted1 alerted2 : bool) (db1 db2 : Db),
    scoreToken default_thresholds reachable_chat 0 token_A (Some metrics_A)
      None None (mkDb [] ∅)
    = Ok ((s, alerted1), db1) /\
    scoreToken default_thresholds reachable_chat 10000 token_A (Some metrics_A)
      None None db1
    = Ok ((s, alerted2), db2) /\
    alerted2
    = alerted1
      && bool_decide (attempt reachable_chat (alert_state ∅ (Token.mint token_A))
                      = None) /\
    (alerted2 = false -> alerts db2 = alerts db1).
Proof.
  apply (unchanged_token_alerts_again_only_after_failure default_thresholds
           reachable_chat 0 10000 token_A (Some metrics_A) None None (mkDb [] ∅)).
  - reflexivity.
  - reflexivity.
Defined.

Import ScoreCycle.

(** The mints a batch scores. *)
Definition batch_mints (rounds : list Round.t) : list string :=
  map (fun round => Token.mint (Round.token round)) rounds.

Lemma batch_step_spec cfg env st round :
  let st' := batch_step cfg env st round in
  scored (fst st') = scored (fst st) + 1 /\
  alerted (fst st) <= alerted (fst st') <= alerted (fst st) + 1 /\
  map fst (scores (snd st'))
  = map fst (scores (snd st)) ++ [Token.mint (Round.token round)] /\
  (forall m, m <> Token.mint (Round.token round) ->
     alert_state (alerts (snd st')) m = alert_state (alerts (snd st)) m).
Proof.
  cbv zeta. unfold batch_step.
  destruct (score_returns (Round.now round)
              (TokenState.mk (Some (Round.token round)) (Round.metrics round)
                 (Round.holders round) (opt_member (Round.pools round) head)))
    as [r Hr].
  rewrite (scoreToken_run cfg env _ _ _ _ _ (snd st) r Hr).
  cbn [fst snd scored alerted scores alerts].
  destruct (getOrCreateAlert_state (Token.mint (Round.token round)) (alerts (snd st)))
    as (_ & _ & Hrest).
  split; [reflexivity|]. split.
  { destruct (AlertCheck.shouldSend _); lia. }
  split.
  { rewrite map_app. reflexivity. }
  intros m Hm.
  destruct (AlertCheck.shouldSend _); [|apply Hrest].
  rewrite sendTokenAlert_state.
  destruct (attempt env _); [|apply Hrest].
  destruct (decide (Token.mint (Round.token round) = m)) as [Heq|_];
    [congruence | apply Hrest].
Qed.

Lemma batch_loop_spec cfg env (rounds : list Round.t) : forall st,
  let st' := fold_left (batch_step cfg env) rounds st in
  scored (fst st') = scored (fst st) + Z.of_nat (length rounds) /\
  alerted (fst st) <= alerted (fst st')
  <= alerted (fst st) + Z.of_nat (length rounds) /\
  map fst (scores (snd st')) = map fst (scores (snd st)) ++ batch_mints rounds /\
  (forall m, ~ In m (batch_mints rounds) ->
     alert_state (alerts (snd st')) m = alert_state (alerts (snd st)) m).
Proof.
  induction rounds as [|round rounds IH]; intros st; cbv zeta.
  - simpl. rewrite app_nil_r. repeat split; try lia.
  - cbn [fold_left].
    destruct (batch_step_spec cfg env st round) as (H1 & H2 & H3 & H4).
    destruct (IH (batch_step cfg env st round)) as (I1 & I2 & I3 & I4).
    cbv zeta in *. split; [|split; [|split]].
    + rewrite I1, H1. cbn [length]. lia.
    + cbn [length]. lia.
    + rewrite I3, H3, <- app_assoc. reflexivity.
    + intros m Hm. rewrite I4, H4; [reflexivity| |].
      * intros ->. apply Hm. now left.
      * intros Hin. apply Hm. now right.
Qed.

(** X22.  One scoring cycle.  When the reads and writes of the database
    succeed, [scoreBatch] scores every token of the batch: the handler of
    its loop is never entered, the count of scored tokens is the size of
    the batch, the count of alerted ones lies between zero and it, the
    score table gains one row per token, in batch order, and the AlertState
    of a token that is not in the batch is what it was.  An empty batch
    changes nothing and logs no counters. *)
Theorem scoreBatch_scores_every_token :
  forall (cfg : AlertThresholds) (env : Env) (rounds : list Round.t) (db : Db),
    let out := scoreBatch cfg env rounds db in
    (rounds = [] -> out = (None, db)) /\
    (rounds <> [] ->
     exists tally,
       fst out = Some tally /\
       scored tally = Z.of_nat (length rounds) /\
       0 <= alerted tally <= scored tally) /\
    map fst (scores (snd out)) = map fst (scores db) ++ batch_mints rounds /\
    (forall m, ~ In m (batch_mints rounds) ->
       alert_state (alerts (snd out)) m = alert_state (alerts db) m).
Proof.
  intros cfg env rounds db out. subst out.
  destruct rounds as [|round rest] eqn:Hrounds.
  { simpl. rewrite app_nil_r. repeat split; auto. intros H. contradiction. }
  rewrite <- Hrounds.
  assert (Hout : scoreBatch cfg env rounds db
                 = (Some (fst (fold_left (batch_step cfg env) rounds
                                 (mkTally 0 0, db))),
                    snd (fold_left (batch_step cfg env) rounds (mkTally 0 0, db))))
    by (rewrite Hrounds; reflexivity).
  rewrite Hout. cbn [fst snd].
  destruct (batch_loop_spec cfg env rounds (mkTally 0 0, db)) as (H1 & H2 & H3 & H4).
  cbv zeta in *. cbn [fst snd scored alerted] in *.
  split; [intros H; rewrite H in Hrounds; discriminate|].
  split; [|split; [exact H3 | exact H4]].
  intros _. eexists. split; [reflexivity|]. split; [lia | lia].
Qed.

End ScoringCycles.

(* ===================================================================== *)
(** * Further properties of the deduplication cache *)
(* ===================================================================== *)

Section LruProperties.
Import Dedupe.
#[local] Arguments map_has : simpl never.

(** A call of a method of the cache. *)
Inductive CacheCall : Type :=
| CallHas (key : string)
| CallAdd (key : string) (value : bool)
| CallGet (key : string)
| CallDelete (key : string)
| CallClear
| CallCheckAndMark (key : string).

(** The cache after a call, and after a sequence of calls, oldest first. *)
Definition after_call (c : LRUCache) (call : CacheCall) : LRUCache :=
  match call with
  | CallHas key => snd (has key c)
  | CallAdd key value => add key value c
  | CallGet key => snd (Lru.get key c)
  | CallDelete key => snd (Lru.delete key c)
  | CallClear => Lru.clear c
  | CallCheckAndMark key => snd (checkAndMarkSignature key c)
  end.

Definition after_calls (calls : list CacheCall) (c : LRUCache) : LRUCache :=
  fold_left after_call calls c.

(** [get] moves the key as [has] does, and answers the value held. *)
Lemma get_eq key c :
  Lru.get key c = (map_get key (cache c), snd (has key c)).
Proof.
  unfold Lru.get, has. destruct (map_has key (cache c)) eqn:Hhas; simpl.
  - destruct (map_get_has _ _ Hhas) as [v ->]. reflexivity.
  - destruct (map_get key (cache c)) as [v|] eqn:Hget; [|reflexivity].
    exfalso. clear -Hhas Hget. induction (cache c) as [|[k0 v0] m IH]; simpl in *.
    + discriminate.
    + rewrite map_has_cons in Hhas. apply orb_false_iff in Hhas as [Hk Hm].
      rewrite Hk in Hget. auto.
Qed.

(** What [add] does, in one equation: the key ends up last, on a map that
    does not hold it. *)
Definition add_rest (key : string) (c : LRUCache) : JsMap :=
  if map_has key (cache c) then map_delete key (cache c)
  else if (maxSize c <=? map_size (cache c))%nat
       then map_delete_opt (map_first_key (cache c)) (cache c)
       else cache c.

Lemma map_has_delete_opt k key m :
  map_has key m = false -> map_has key (map_delete_opt k m) = false.
Proof.
  intros H. destruct k as [k|]; simpl; [|assumption].
  rewrite map_has_delete, H. apply andb_false_r.
Qed.

Lemma add_rest_absent key c : map_has key (add_rest key c) = false.
Proof.
  unfold add_rest. destruct (map_has key (cache c)) eqn:Hhas.
  - rewrite map_has_delete, String.eqb_refl. reflexivity.
  - destruct (maxSize c <=? map_size (cache c))%nat; [|assumption].
    now apply map_has_delete_opt.
Qed.

Lemma add_eq key v c :
  add key v c = mkLRU (maxSize c) (add_rest key c ++ [(key, v)]).
Proof.
  unfold add. fold (add_rest key c).
  now rewrite (map_set_absent _ _ _ (add_rest_absent key c)).
Qed.

Lemma map_get_snoc key v m :
  map_has key m = false -> map_get key (m ++ [(key, v)]) = Some v.
Proof.
  induction m as [|[k0 v0] m IH]; simpl.
  - now rewrite String.eqb_refl.
  - rewrite map_has_cons. intros H. apply orb_false_iff in H as [Hk Hm].
    rewrite Hk. auto.
Qed.

Lemma map_get_absent_none key m : map_has key m = false -> map_get key m = None.
Proof.
  induction m as [|[k0 v0] m IH]; simpl; [reflexivity|].
  rewrite map_has_cons. intros H. apply orb_false_iff in H as [Hk Hm].
  rewrite Hk. auto.
Qed.

Lemma map_delete_present_length key m :
  map_has key m = true -> (S (length (map_delete key m)) <= length m)%nat.
Proof.
  induction m as [|[k0 v0] m IH]; simpl; [discriminate|].
  rewrite map_has_cons. destruct (String.eqb k0 key); simpl.
  - intros _. pose proof (map_delete_length key m). lia.
  - intros H. specialize (IH H). lia.
Qed.

Lemma wf_delete key c : wf c -> wf (snd (Lru.delete key c)).
Proof.
  unfold wf, keys. simpl. rewrite keys_map_delete. apply NoDup_filter.
Qed.

Lemma add_wf key v c : wf c -> wf (add key v c).
Proof.
  intros Hwf. rewrite add_eq. apply wf_snoc; [|apply add_rest_absent].
  unfold add_rest. destruct (map_has key (cache c)).
  - apply (wf_delete key c Hwf).
  - destruct (maxSize c <=? map_size (cache c))%nat; [|exact Hwf].
    destruct (map_first_key (cache c)) as [k|]; simpl; [|exact Hwf].
    apply (wf_delete k c Hwf).
Qed.

(** [add] never takes the cache over its capacity, a capacity of zero
    counting as one. *)
Lemma add_size key v c :
  wf c -> (size c <= Nat.max 1 (maxSize c))%nat ->
  (size (add key v c) <= Nat.max 1 (maxSize c))%nat.
Proof.
  intros Hwf Hsize. rewrite add_eq. unfold size, map_size in *. simpl.
  rewrite length_app. simpl. unfold add_rest.
  destruct (map_has key (cache c)) eqn:Hhas.
  - pose proof (map_delete_present_length _ _ Hhas). lia.
  - unfold map_size. destruct (maxSize c <=? length (cache c))%nat eqn:Hfull.
    + destruct (cache c) as [|[k0 v0] m] eqn:Hc; simpl.
      * lia.
      * rewrite String.eqb_refl. pose proof (map_delete_length k0 m).
        simpl in Hsize. lia.
    + apply Nat.leb_gt in Hfull. lia.
Qed.

Lemma has_size key c : (size (snd (has key c)) <= size c)%nat.
Proof.
  rewrite has_eq. unfold size, map_size.
  destruct (map_has key (cache c)) eqn:Hhas; simpl; [|lia].
  rewrite length_app. simpl. pose proof (map_delete_present_length _ _ Hhas). lia.
Qed.

Lemma has_maxSize key c : maxSize (snd (has key c)) = maxSize c.
Proof. rewrite has_eq. now destruct (map_has key (cache c)). Qed.

(** The invariant every call keeps. *)
Definition bounded (n : nat) (c : LRUCache) : Prop :=
  wf c /\ maxSize c = n /\ (size c <= Nat.max 1 n)%nat.

Lemma after_call_bounded n c call : bounded n c -> bounded n (after_call c call).
Proof.
  intros (Hwf & Hmax & Hsize). subst n. destruct call as [k|k v|k|k| |k]; simpl.
  - split; [now apply has_wf|]. split; [apply has_maxSize|].
    pose proof (has_size k c). lia.
  - split; [now apply add_wf|]. split; [now rewrite add_eq|].
    now apply add_size.
  - rewrite get_eq. simpl.
    split; [now apply has_wf|]. split; [apply has_maxSize|].
    pose proof (has_size k c). lia.
  - split; [now apply wf_delete|]. split; [reflexivity|].
    unfold size, map_size in *. simpl. pose proof (map_delete_length k (cache c)). lia.
  - split; [apply NoDup_nil_2|]. split; [reflexivity|].
    unfold size, map_size. simpl. lia.
  - split; [now apply checkAndMark_wf|]. split; [now apply checkAndMark_maxSize|].
    unfold checkAndMarkSignature.
    pose proof (has_wf k c Hwf) as Hwf1.
    pose proof (has_size k c) as Hs1.
    pose proof (has_maxSize k c) as Hm1.
    destruct (has k c) as [seen c1]. simpl in *.
    destruct seen; simpl; [lia|].
    rewrite <- Hm1. apply add_size; [assumption|]. rewrite Hm1. lia.
Qed.

(** X6.  The cache never outgrows its capacity.  After any sequence of
    calls of its methods ([has], [add], [get], [delete], [clear] and the
    check-and-mark of the module) on a cache created with capacity [n], the
    cache holds each key once, its capacity is still [n], and it holds at
    most [n] keys; a cache created with capacity 0 holds at most one. *)
Theorem cache_size_never_exceeds_capacity :
  forall (n : nat) (calls : list CacheCall),
    wf (after_calls calls (new_cache n)) /\
    maxSize (after_calls calls (new_cache n)) = n /\
    (size (after_calls calls (new_cache n)) <= Nat.max 1 n)%nat.
Proof.
  intros n calls.
  assert (H : forall c, bounded n c -> bounded n (after_calls calls c)).
  { induction calls as [|call calls IH]; intros c Hc; simpl; [exact Hc|].
    apply IH. now apply after_call_bounded. }
  apply (H (new_cache n)). split; [apply NoDup_nil_2|]. split; [reflexivity|].
  unfold size, map_size. simpl. lia.
Qed.

(** X7.  Insert, look up, delete, clear.  On every cache: a key just
    added is held, with the value it was added with, and adding it again
    changes nothing; [get] answers the value held, or nothing for a key not
    held, and moves the key exactly as [has] does; [delete] reports whether
    the key was held and the key is gone afterwards; after [clear] no key
    is held, so the check-and-mark of any signature answers [true] again. *)
Theorem cache_insert_lookup_delete :
  forall (key : string) (value : bool) (c : LRUCache),
    fst (Lru.get key (add key value c)) = Some value /\
    fst (has key (add key value c)) = true /\
    add key value (add key value c) = add key value c /\
    Lru.get key c = (map_get key (cache c), snd (has key c)) /\
    (fst (has key c) = false -> fst (Lru.get key c) = None) /\
    fst (Lru.delete key c) = fst (has key c) /\
    fst (has key (snd (Lru.delete key c))) = false /\
    fst (Lru.get key (snd (Lru.delete key c))) = None /\
    fst (has key (Lru.clear c)) = false /\
    size (Lru.clear c) = 0%nat /\
    fst (checkAndMarkSignature key (Lru.clear c)) = true.
Proof.
  intros key value c.
  pose proof (add_rest_absent key c) as Habs.
  assert (Hheld : map_has key (cache (add key value c)) = true).
  { rewrite add_eq. simpl. rewrite map_has_app, map_has_cons, String.eqb_refl.
    apply orb_true_r. }
  assert (Hgone : map_has key (cache (snd (Lru.delete key c))) = false).
  { simpl. rewrite map_has_delete, String.eqb_refl. reflexivity. }
  split.
  { rewrite get_eq. cbn [fst]. rewrite add_eq. cbn [cache].
    now apply map_get_snoc. }
  split.
  { rewrite has_eq, Hheld. reflexivity. }
  split.
  { rewrite (add_eq key value (add key value c)). unfold add_rest.
    rewrite Hheld. rewrite add_eq. cbn [cache maxSize]. f_equal.
    rewrite map_delete_app. simpl. rewrite String.eqb_refl, app_nil_r.
    now rewrite map_delete_absent. }
  split; [apply get_eq|].
  split.
  { rewrite get_eq, has_eq. cbn [fst].
    destruct (map_has key (cache c)) eqn:Hhas; [discriminate|].
    intros _. now apply map_get_absent_none. }
  split.
  { rewrite has_eq. cbn [Lru.delete fst]. now destruct (map_has key (cache c)). }
  split.
  { rewrite has_eq, Hgone. reflexivity. }
  split.
  { rewrite get_eq. cbn [fst]. now apply map_get_absent_none. }
  repeat split.
Qed.

End LruProperties.

(* ===================================================================== *)
(** * Further properties of the swap metrics *)
(* ===================================================================== *)

Section MetricsProperties.
Import Js Supabase.

















End MetricsProperties.

(* ===================================================================== *)
(** * Properties of the event normalizer *)
(* ===================================================================== *)

Section NormalizerProperties.
Import Js Dedupe Helius Normalizer.
#[local] Arguments is_quote : simpl never.
#[local] Arguments map_has : simpl never.

(** A transfer whose asset is in the quote set. *)
Definition quote (t : TokenTransfer.t) : bool := is_quote (TokenTransfer.mint t).

(** The token a pool creation settles on: the mint of the last transfer
    outside the quote set. *)
Definition pool_subject (tx : RawTx.t) : option string :=
  match last_non_quote (default [] (RawTx.tokenTransfers tx)) with
  | Some t => TokenTransfer.mint t
  | None => None
  end.

(** The quote asset of a pool creation: the mint of the last transfer
    inside the quote set. *)
Definition pool_quote (tx : RawTx.t) : option string :=
  match last (List.filter quote (default [] (RawTx.tokenTransfers tx))) with
  | Some t => TokenTransfer.mint t
  | None => None
  end.

(** The names [parsePoolCreation] can put in [dex]. *)
Definition dex_names : list string :=
  [ "unknown"; "raydium_v4"; "raydium_clmm"; "raydium_cp"; "orca_whirlpool";
    "meteora_dlmm"; "meteora_pools"; "pump_fun"; "pump_fun_amm"; "jupiter_v6";
    "moonshot" ].

Lemma mint_step_eq v t :
  mint_step v t
  = if quote t
    then mkPoolVars (pv_tokenMint v) (pv_baseMint v) (TokenTransfer.mint t)
    else mkPoolVars (TokenTransfer.mint t) (TokenTransfer.mint t) (pv_quoteMint v).
Proof.
  unfold mint_step, quote, is_quote.
  destruct (TokenTransfer.mint t) as [m|]; simpl; [|reflexivity].
  destruct (String.eqb_spec m WSOL_MINT) as [->|Hne]; [reflexivity|].
  simpl. reflexivity.
Qed.

Lemma pool_vars_after_loop (l : list TokenTransfer.t) : forall v,
  fold_left mint_step l v
  = mkPoolVars
      (match last_non_quote l with
       | Some t => TokenTransfer.mint t
       | None => pv_tokenMint v
       end)
      (match last_non_quote l with
       | Some t => TokenTransfer.mint t
       | None => pv_baseMint v
       end)
      (match last (List.filter quote l) with
       | Some t => TokenTransfer.mint t
       | None => pv_quoteMint v
       end).
Proof.
  unfold last_non_quote.
  induction l as [|x l IH]; intros v; simpl; [now destruct v|].
  rewrite IH, mint_step_eq. unfold non_quote. fold (quote x).
  destruct (quote x); simpl.
  - rewrite last_cons. now destruct (last (List.filter quote l)).
  - rewrite last_cons.
    now destruct (last (List.filter (fun t => negb (is_quote (TokenTransfer.mint t))) l)).
Qed.

Lemma last_filter_holds {A} (p : A -> bool) (l : list A) (x : A) :
  last (List.filter p l) = Some x -> p x = true /\ In x l.
Proof.
  intros H. apply last_Some in H as [l' Hl'].
  assert (Hin : In x (List.filter p l)).
  { rewrite Hl'. apply in_or_app. right. now left. }
  apply filter_In in Hin. tauto.
Qed.

Lemma dex_of_names programId name :
  dex_of programId DEX_PROGRAMS = Some name -> In name dex_names.
Proof.
  unfold DEX_PROGRAMS. cbn [dex_of].
  repeat (destruct (strict_eq programId _);
          [intros [= <-]; vm_compute; tauto|]).
  discriminate.
Qed.

Lemma dex_after_loop (l : list Instruction.t) : forall st,
  In (fst st) dex_names -> In (fst (fold_left instruction_step l st)) dex_names.
Proof.
  induction l as [|ix l IH]; intros st Hst; simpl; [exact Hst|].
  apply IH. unfold instruction_step. cbn [fst].
  destruct (dex_of (Instruction.programId ix) DEX_PROGRAMS) as [name|] eqn:E;
    simpl; [|exact Hst].
  eapply dex_of_names; eauto.
Qed.

(** What a pool record holds. *)
Lemma parsePoolCreation_record now tx p :
  parsePoolCreation now tx = Some p ->
  pool_subject tx = Some (PoolRecord.token_mint p) /\
  PoolRecord.base_mint p = Some (PoolRecord.token_mint p) /\
  PoolRecord.token_mint p <> "" /\
  is_quote (Some (PoolRecord.token_mint p)) = false /\
  PoolRecord.quote_mint p = pool_quote tx /\
  In (PoolRecord.dex p) dex_names.
Proof.
  unfold parsePoolCreation. rewrite pool_vars_after_loop.
  cbn [pv_tokenMint pv_baseMint pv_quoteMint].
  fold (pool_subject tx). fold (pool_quote tx).
  destruct (truthy_str (pool_subject tx)) eqn:Ht; simpl; [|discriminate].
  intros [= <-].
  cbn [PoolRecord.token_mint PoolRecord.base_mint PoolRecord.quote_mint
       PoolRecord.dex].
  destruct (pool_subject tx) as [m|] eqn:Hm; [|discriminate]. simpl default.
  split; [reflexivity|]. split; [reflexivity|].
  split; [now apply truthy_str_Some|]. split.
  - unfold pool_subject in Hm.
    destruct (last_non_quote _) as [t|] eqn:Hlast; [|discriminate].
    apply last_filter_holds in Hlast as [Hq _]. unfold non_quote in Hq.
    rewrite Hm in Hq. now apply negb_true_iff in Hq.
  - split; [reflexivity|]. apply dex_after_loop. simpl. tauto.
Qed.




(** What a swap record names. *)
Lemma parseSwapTransaction_record now tx r :
  parseSwapTransaction now tx = Some r ->
  is_quote (Some (SwapRecord.token_mint r)) = false /\
  SwapRecord.token_mint r <> "".
Proof.
  unfold parseSwapTransaction. rewrite tokenMint_swap_vars.
  destruct (truthy_str (subject_candidate tx)) eqn:Ht; simpl; [|discriminate].
  destruct (is_quote (subject_candidate tx)) eqn:Hq; [discriminate|].
  intros [= <-]. cbn [SwapRecord.token_mint].
  destruct (subject_candidate tx) as [m|]; [|discriminate]. simpl default.
  split; [exact Hq | now apply truthy_str_Some].
Qed.

Lemma find_holds {A} (p : A -> bool) (l : list A) (x : A) :
  find p l = Some x -> p x = true /\ In x l.
Proof.
  intros H. apply find_some in H. tauto.
Qed.

(** The candidate of the transfer path is outside the quote set. *)
Lemma parseTokenFromTransfer_candidate tx t :
  parseTokenFromTransfer tx = Some t ->
  is_quote (TokenCandidate.mint t) = false /\ TokenCandidate.source t = "transfer".
Proof.
  unfold parseTokenFromTransfer.
  destruct (RawTx.tokenTransfers tx) as [[|x l]|]; try discriminate.
  destruct (find _ (x :: l)) as [transfer|] eqn:E; [|discriminate].
  intros [= <-]. apply find_holds in E as [E _].
  split; [now apply negb_true_iff in E | reflexivity].
Qed.

(** The candidate of the fallback path names a token outside the quote
    set. *)
Lemma extractMintFromTransaction_candidate tx t :
  extractMintFromTransaction tx = Some t ->
  relevant_mint (TokenCandidate.mint t) = true /\
  (TokenCandidate.source t = "transaction"
   \/ TokenCandidate.source t = "account_data").
Proof.
  unfold extractMintFromTransaction.
  destruct (find _ (default [] (RawTx.tokenTransfers tx))) as [transfer|] eqn:E.
  - intros [= <-]. apply find_holds in E as [E _]. auto.
  - destruct (find _ (flat_map _ _)) as [change|] eqn:E2; [|discriminate].
    intros [= <-]. apply find_holds in E2 as [E2 _]. auto.
Qed.

Lemma relevant_mint_Some mint :
  relevant_mint mint = true <->
  exists m, mint = Some m /\ m <> "" /\ is_quote (Some m) = false.
Proof.
  unfold relevant_mint. rewrite andb_true_iff, negb_true_iff. split.
  - intros [Ht Hq]. destruct mint as [m|]; [|discriminate].
    exists m. split; [reflexivity|]. split; [now apply truthy_str_Some | exact Hq].
  - intros (m & -> & Hne & Hq). split; [now apply truthy_str_Some | exact Hq].
Qed.

(** What [parseTransaction] returns for a transaction it does not drop. *)
Definition classified (toUpperCase : string -> string) (now : Z) (tx : RawTx.t)
  : Parsed :=
  fst (parseTransaction toUpperCase now (Some tx) (new_cache 0)).

Lemma parseTransaction_eq U now tx c :
  parseTransaction U now (Some tx) c
  = if truthy_str (RawTx.signature tx)
    then
      let r := checkAndMarkSignature (default "" (RawTx.signature tx)) c in
      (if fst r then classified U now tx else empty_parsed, snd r)
    else (classified U now tx, c).
Proof.
  unfold classified, parseTransaction.
  destruct (truthy_str (RawTx.signature tx)) eqn:Hs.
  - cbv zeta.
    assert (Hnew : checkAndMarkSignature (default "" (RawTx.signature tx))
                     (new_cache 0)
                   = (true, add (default "" (RawTx.signature tx)) true (new_cache 0)))
      by reflexivity.
    rewrite Hnew.
    destruct (checkAndMarkSignature (default "" (RawTx.signature tx)) c)
      as [first_time c1].
    destruct first_time; reflexivity.
  - reflexivity.
Qed.

(** The type [parseTransaction] switches on. *)
Definition type_of (toUpperCase : string -> string) (tx : RawTx.t) : string :=
  if truthy_str (RawTx.type tx) then default "" (RawTx.type tx)
  else identifyTransactionType toUpperCase tx.

Lemma classified_eq U now tx :
  classified U now tx
  = if String.eqb (type_of U tx) "SWAP" then
      mkParsed
        ((fun s => TokenCandidate.mk (Some (SwapRecord.token_mint s)) "swap")
           <$> parseSwapTransaction now (RawTx.to_tx tx))
        (parseSwapTransaction now (RawTx.to_tx tx)) None
    else if String.eqb (type_of U tx) "CREATE_POOL"
            || String.eqb (type_of U tx) "INITIALIZE_POOL"
    then
      mkParsed
        ((fun p => TokenCandidate.mk (Some (PoolRecord.token_mint p)) "pool_creation")
           <$> parsePoolCreation now tx)
        None (parsePoolCreation now tx)
    else if String.eqb (type_of U tx) "TRANSFER"
            || String.eqb (type_of U tx) "TOKEN_MINT"
    then mkParsed (parseTokenFromTransfer tx) None None
    else mkParsed (extractMintFromTransaction tx) None None.
Proof.
  unfold classified, parseTransaction, type_of.
  destruct (truthy_str (RawTx.signature tx)); reflexivity.
Qed.

(** The coherence of one parsed transaction. *)
Definition coherent (p : Parsed) : Prop :=
  (swap p = None \/ pool p = None) /\
  (forall s, swap p = Some s ->
     token p = Some (TokenCandidate.mk (Some (SwapRecord.token_mint s)) "swap")) /\
  (forall q, pool p = Some q ->
     token p
     = Some (TokenCandidate.mk (Some (PoolRecord.token_mint q)) "pool_creation")) /\
  (forall t, token p = Some t -> is_quote (TokenCandidate.mint t) = false) /\
  (forall t, token p = Some t -> TokenCandidate.source t <> "transfer" ->
     exists m, TokenCandidate.mint t = Some m /\ m <> "") /\
  (token p = None -> swap p = None /\ pool p = None).

Lemma empty_parsed_coherent : coherent empty_parsed.
Proof.
  unfold coherent, empty_parsed. simpl.
  repeat split; try discriminate; auto.
Qed.

Lemma classified_coherent U now tx : coherent (classified U now tx).
Proof.
  rewrite classified_eq. unfold coherent.
  destruct (String.eqb (type_of U tx) "SWAP").
  { destruct (parseSwapTransaction now (RawTx.to_tx tx)) as [s|] eqn:Hs;
      cbn [fmap option_fmap option_map token swap pool].
    - destruct (parseSwapTransaction_record _ _ _ Hs) as [Hq Hne].
      split; [now right|]. split; [now intros ? [= <-]|].
      split; [discriminate|]. split; [now intros ? [= <-]|].
      split; [intros ? [= <-] _; simpl; eauto|]. discriminate.
    - repeat split; try discriminate; auto. }
  destruct (String.eqb (type_of U tx) "CREATE_POOL"
            || String.eqb (type_of U tx) "INITIALIZE_POOL").
  { destruct (parsePoolCreation now tx) as [q|] eqn:Hq;
      cbn [fmap option_fmap option_map token swap pool].
    - destruct (parsePoolCreation_record _ _ _ Hq) as (_ & _ & Hne & Hnq & _).
      split; [now left|]. split; [discriminate|].
      split; [now intros ? [= <-]|]. split; [now intros ? [= <-]|].
      split; [intros ? [= <-] _; simpl; eauto|]. discriminate.
    - repeat split; try discriminate; auto. }
  destruct (String.eqb (type_of U tx) "TRANSFER"
            || String.eqb (type_of U tx) "TOKEN_MINT");
    cbn [token swap pool].
  - split; [now left|]. split; [discriminate|]. split; [discriminate|].
    split; [|split; [|auto]].
    + intros t Ht. now apply parseTokenFromTransfer_candidate in Ht as [Ht _].
    + intros t Ht Hsrc. apply parseTokenFromTransfer_candidate in Ht as [_ Ht].
      contradiction.
  - split; [now left|]. split; [discriminate|]. split; [discriminate|].
    split; [|split; [|auto]].
    + intros t Ht. apply extractMintFromTransaction_candidate in Ht as [Ht _].
      apply relevant_mint_Some in Ht as (m & -> & _ & Hq). exact Hq.
    + intros t Ht _. apply extractMintFromTransaction_candidate in Ht as [Ht _].
      apply relevant_mint_Some in Ht as (m & Hm & Hne & _). eauto.
Qed.

Lemma parseTransaction_coherent U now tx c :
  coherent (fst (parseTransaction U now tx c)).
Proof.
  destruct tx as [tx|]; [|apply empty_parsed_coherent].
  rewrite parseTransaction_eq.
  destruct (truthy_str (RawTx.signature tx)); cbn [fst].
  - destruct (fst (checkAndMarkSignature _ c));
      [apply classified_coherent | apply empty_parsed_coherent].
  - apply classified_coherent.
Qed.

(** X10.  What one parsed transaction holds.  [parseTransaction] never
    returns a swap and a pool together; a swap record, and a pool record,
    always comes with the token candidate of its own mint (sources [swap]
    and [pool_creation]), and without a token candidate there is neither;
    the mint of a token candidate is never a quote asset; and every
    candidate names a non-empty mint, except that a candidate of the
    transfer path (source [transfer]) takes the mint field of the first
    transfer outside the quote set as it is, present or not. *)
Theorem parseTransaction_candidates_coherent :
  forall (toUpperCase : string -> string) (now : Z) (tx : option RawTx.t)
         (c : LRUCache),
    let p := fst (parseTransaction toUpperCase now tx c) in
    (swap p = None \/ pool p = None) /\
    (forall s, swap p = Some s ->
       token p = Some (TokenCandidate.mk (Some (SwapRecord.token_mint s)) "swap")) /\
    (forall q, pool p = Some q ->
       token p
       = Some (TokenCandidate.mk (Some (PoolRecord.token_mint q)) "pool_creation")) /\
    (forall t, token p = Some t -> is_quote (TokenCandidate.mint t) = false) /\
    (forall t, token p = Some t -> TokenCandidate.source t <> "transfer" ->
       exists m, TokenCandidate.mint t = Some m /\ m <> "") /\
    (token p = None -> swap p = None /\ pool p = None) /\
    (forall (raw : RawTx.t) (transfer : TokenTransfer.t),
        tx = Some raw ->
        truthy_str (RawTx.signature raw) = false ->
        RawTx.type raw = Some "TRANSFER" \/ RawTx.type raw = Some "TOKEN_MINT" ->
        first_non_quote (default [] (RawTx.tokenTransfers raw)) = Some transfer ->
        token p = Some (TokenCandidate.mk (TokenTransfer.mint transfer) "transfer")).
Proof.
  intros U now tx c p.
  destruct (parseTransaction_coherent U now tx c) as (H1 & H2 & H3 & H4 & H5 & H6).
  fold p in H1, H2, H3, H4, H5, H6.
  repeat (split; [assumption|]).
  intros raw transfer -> Hsig Htype Hfirst. subst p.
  rewrite parseTransaction_eq, Hsig. cbn [fst].
  rewrite classified_eq.
  assert (Ht : type_of U raw = "TRANSFER" \/ type_of U raw = "TOKEN_MINT").
  { unfold type_of. destruct Htype as [-> | ->]; simpl; auto. }
  assert (Hfind : parseTokenFromTransfer raw
                  = Some (TokenCandidate.mk (TokenTransfer.mint transfer) "transfer")).
  { unfold parseTokenFromTransfer, first_non_quote, non_quote in *.
    destruct (RawTx.tokenTransfers raw) as [[|x l]|]; try discriminate.
    simpl default in Hfirst. revert Hfirst. generalize (x :: l). clear.
    intros l. induction l as [|y l IH]; simpl; [discriminate|].
    destruct (negb (is_quote (TokenTransfer.mint y))); simpl.
    - now intros [= ->].
    - exact IH. }
  destruct Ht as [-> | ->]; simpl; now rewrite Hfind.
Qed.

(** A transfer of a token whose mint field is missing. *)
Lemma parseTransaction_candidates_coherent_witness :
  token
    (fst (parseTransaction (fun s => s) 0
            (Some (RawTx.mk None None (Some "TRANSFER") None None
                     (Some [TokenTransfer.mk None None None None]) None None None
                     None))
            (new_cache 1)))
  = Some (TokenCandidate.mk None "transfer").
Proof.
  destruct (parseTransaction_candidates_coherent (fun s => s) 0
              (Some (RawTx.mk None None (Some "TRANSFER") None None
                       (Some [TokenTransfer.mk None None None None]) None None
                       None None))
              (new_cache 1))
    as (_ & _ & _ & _ & _ & _ & H).
  apply (H (RawTx.mk None None (Some "TRANSFER") None None
              (Some [TokenTransfer.mk None None None None]) None None None None)
           (TokenTransfer.mk None None None None)).
  - reflexivity.
  - reflexivity.
  - left. reflexivity.
  - reflexivity.
Defined.

(** The signatures a list of transactions submits to the cache. *)
Definition submitted (txs : list (option RawTx.t)) : list string :=
  flat_map
    (fun tx : option RawTx.t =>
       match tx with
       | Some raw =>
           if truthy_str (RawTx.signature raw)
           then [default "" (RawTx.signature raw)] else []
       | None => []
       end)
    txs.

Lemma submitted_app a b : submitted (a ++ b) = submitted a ++ submitted b.
Proof. unfold submitted. apply flat_map_app. Qed.

Lemma submitted_cons tx txs : submitted (tx :: txs) = submitted [tx] ++ submitted txs.
Proof. apply (submitted_app [tx] txs). Qed.

Lemma checkAndMark_all_app (a b : list string) : forall c,
  snd (checkAndMark_all (a ++ b) c)
  = snd (checkAndMark_all b (snd (checkAndMark_all a c))).
Proof.
  induction a as [|k a IH]; intros c; simpl; [reflexivity|].
  destruct (checkAndMarkSignature k c) as [seen c1].
  specialize (IH c1).
  destruct (checkAndMark_all (a ++ b) c1) as [bs c2].
  destruct (checkAndMark_all a c1) as [bs' c2']. simpl in *. exact IH.
Qed.

Lemma checkAndMark_all_maxSize (ks : list string) : forall c,
  wf c -> maxSize (snd (checkAndMark_all ks c)) = maxSize c.
Proof.
  induction ks as [|k ks IH]; intros c Hwf; simpl; [reflexivity|].
  pose proof (checkAndMark_wf k c Hwf) as Hwf1.
  pose proof (checkAndMark_maxSize k c Hwf) as Hmax.
  destruct (checkAndMarkSignature k c) as [seen c1]. simpl in *.
  specialize (IH c1 Hwf1). destruct (checkAndMark_all ks c1). simpl in *. lia.
Qed.

Lemma parseTransaction_cache U now tx c :
  snd (parseTransaction U now tx c) = snd (checkAndMark_all (submitted [tx]) c).
Proof.
  destruct tx as [tx|]; [|reflexivity].
  rewrite parseTransaction_eq. unfold submitted. simpl.
  destruct (truthy_str (RawTx.signature tx)); simpl; [|reflexivity].
  now destruct (checkAndMarkSignature _ c).
Qed.

Lemma payload_cache U now (txs : list (option RawTx.t)) : forall st,
  snd (fold_left (payload_step U now) txs st)
  = snd (checkAndMark_all (submitted txs) (snd st)).
Proof.
  induction txs as [|tx txs IH]; intros st; [reflexivity|].
  cbn [fold_left]. rewrite IH, submitted_cons, checkAndMark_all_app.
  f_equal. f_equal.
  unfold payload_step.
  pose proof (parseTransaction_cache U now tx (snd st)) as H.
  destruct (parseTransaction U now tx (snd st)). exact H.
Qed.

Lemma submitted_length txs : (length (submitted txs) <= length txs)%nat.
Proof.
  induction txs as [|[tx|] txs IH]; simpl; [lia| |lia].
  destruct (truthy_str (RawTx.signature tx)); simpl; lia.
Qed.

Lemma recent_weaken key j j' c : (j <= j')%nat -> recent key j c -> recent key j' c.
Proof.
  intros Hj (pre & v & post & Hc & Hlen). exists pre, v, post.
  split; [exact Hc | lia].
Qed.

(** A held key survives any run of fewer than [maxSize] calls, whether or
    not they ask for the key itself. *)
Lemma recent_all_any key (ks : list string) : forall j c,
  wf c -> recent key j c -> (j + length ks < maxSize c)%nat ->
  recent key (j + length ks) (snd (checkAndMark_all ks c)).
Proof.
  induction ks as [|k ks IH]; intros j c Hwf Hrec Hlen; simpl.
  - now rewrite Nat.add_0_r.
  - simpl in Hlen.
    assert (Hstep : recent key (S j) (snd (checkAndMarkSignature k c))).
    { destruct (String.eqb_spec k key) as [->|Hne].
      - apply (recent_weaken key 0); [lia|]. now apply checkAndMark_recent.
      - apply recent_step; [assumption..|lia]. }
    pose proof (checkAndMark_wf k c Hwf) as Hwf1.
    pose proof (checkAndMark_maxSize k c Hwf) as Hmax.
    destruct (checkAndMarkSignature k c) as [b c1]. simpl in *.
    specialize (IH (S j) c1 Hwf1 Hstep ltac:(lia)).
    destruct (checkAndMark_all ks c1) as [bs c2]. simpl in *.
    now replace (j + S (length ks))%nat with (S j + length ks)%nat by lia.
Qed.

Lemma payload_snoc U now txs tx st :
  fold_left (payload_step U now) (txs ++ [tx]) st
  = payload_step U now (fold_left (payload_step U now) txs st) tx.
Proof. now rewrite fold_left_app. Qed.

(** X11.  A signature is processed once.  Take a batch that holds a
    transaction with a non-empty signature, followed by fewer transactions
    than the cache has capacity.  A later transaction with the same
    signature yields nothing: appended to the batch it leaves the results
    as they are, and delivered again on its own, after the batch, it gives
    empty results.  A transaction without a signature never meets the
    cache: it is parsed the same way whatever the cache holds, and leaves
    the cache as it is. *)
Theorem repeated_signature_yields_nothing :
  forall (toUpperCase : string -> string) (now : Z)
         (pre others : list (option RawTx.t)) (tx tx' : RawTx.t)
         (c : LRUCache) (s : string),
    wf c ->
    RawTx.signature tx = Some s ->
    RawTx.signature tx' = Some s ->
    s <> "" ->
    (length others < maxSize c)%nat ->
    let batch := pre ++ Some tx :: others in
    let after := parseWebhookPayload toUpperCase now (Batch batch) c in
    fst (parseWebhookPayload toUpperCase now (Batch (batch ++ [Some tx'])) c)
    = fst after /\
    fst (parseWebhookPayload toUpperCase now (Single (Some tx')) (snd after))
    = mkResults [] [] [] /\
    fst (parseTransaction toUpperCase now (Some tx') (snd after)) = empty_parsed /\
    (forall (unsigned : RawTx.t) (c1 c2 : LRUCache),
        truthy_str (RawTx.signature unsigned) = false ->
        parseTransaction toUpperCase now (Some unsigned) c1
        = (fst (parseTransaction toUpperCase now (Some unsigned) c2), c1)).
Proof.
  intros U now pre others tx tx' c s Hwf Hs Hs' Hne Hlen batch after.
  assert (Htruthy : truthy_str (Some s) = true) by now apply truthy_str_Some.
  (* the cache after the batch holds the signature *)
  assert (Hcache : snd after
                   = snd (checkAndMark_all (submitted others)
                            (snd (checkAndMarkSignature s
                                    (snd (checkAndMark_all (submitted pre) c)))))).
  { unfold after, parseWebhookPayload, batch. rewrite payload_cache. cbn [snd].
    rewrite submitted_app, checkAndMark_all_app.
    rewrite (submitted_cons (Some tx) others), checkAndMark_all_app.
    unfold submitted at 2. simpl.
    rewrite Hs, Htruthy. simpl.
    now destruct (checkAndMarkSignature s (snd (checkAndMark_all (submitted pre) c))). }
  pose proof (checkAndMark_all_wf (submitted pre) c Hwf) as Hwf1.
  pose proof (checkAndMark_all_maxSize (submitted pre) c Hwf) as Hmax1.
  set (c1 := snd (checkAndMark_all (submitted pre) c)) in *.
  pose proof (checkAndMark_wf s c1 Hwf1) as Hwf2.
  pose proof (checkAndMark_maxSize s c1 Hwf1) as Hmax2.
  pose proof (checkAndMark_recent s c1 Hwf1) as Hrec.
  set (c2 := snd (checkAndMarkSignature s c1)) in *.
  pose proof (submitted_length others) as Hsub.
  pose proof (recent_all_any s (submitted others) 0 c2 Hwf2 Hrec ltac:(simpl; lia))
    as Hheld.
  pose proof (checkAndMark_all_wf (submitted others) c2 Hwf2) as Hwf3.
  rewrite <- Hcache in Hheld, Hwf3.
  apply recent_has in Hheld.
  assert (Hdrop : fst (parseTransaction U now (Some tx') (snd after)) = empty_parsed).
  { rewrite parseTransaction_eq, Hs', Htruthy. cbv zeta. simpl default.
    rewrite (checkAndMark_eq s (snd after) Hwf3), Hheld. reflexivity. }
  split; [|split; [|split]].
  - unfold after, parseWebhookPayload. rewrite payload_snoc.
    unfold payload_step at 1.
    fold (parseWebhookPayload U now (Batch batch) c). fold after.
    destruct (parseTransaction U now (Some tx') (snd after)) as [parsed c3].
    simpl in Hdrop. subst parsed. simpl. now destruct (fst after).
  - unfold parseWebhookPayload at 1. cbn [fold_left]. unfold payload_step.
    cbn [fst snd].
    destruct (parseTransaction U now (Some tx') (snd after)) as [parsed c3].
    simpl in Hdrop. subst parsed. reflexivity.
  - exact Hdrop.
  - intros unsigned ca cb Hu. rewrite !parseTransaction_eq, Hu. reflexivity.
Qed.

(** A labelled swap of NEW_TOKEN, delivered twice. *)
Definition signed_swap : RawTx.t :=
  RawTx.mk (Some "sig") (Some 1700000000) (Some "SWAP") (Some "RAYDIUM")
    (Some "payer")
    (Some [ TokenTransfer.mk (Some "NEW_TOKEN") (Some 10%Q) (Some "pool")
              (Some "payer") ])
    None None None None.

Lemma repeated_signature_yields_nothing_witness :
  fst (parseWebhookPayload (fun s => s) 0 (Single (Some signed_swap))
         (snd (parseWebhookPayload (fun s => s) 0 (Batch [Some signed_swap])
                 (new_cache 10))))
  = mkResults [] [] [].
Proof.
  destruct (repeated_signature_yields_nothing (fun s => s) 0 [] [] signed_swap
              signed_swap (new_cache 10) "sig") as (_ & H & _).
  - apply NoDup_nil_2.
  - reflexivity.
  - reflexivity.
  - discriminate.
  - simpl. lia.
  - exact H.
Defined.

(** X12.  Records follow the label.  A pool record comes only from a
    transaction the provider labelled [CREATE_POOL] or [INITIALIZE_POOL]: the
    classification by structure never finds a pool.  A swap record comes
    only from a transaction labelled exactly [SWAP], or from one without a
    label that the classification by structure took for a swap.  On a
    transaction without a label that classification answers [SWAP],
    [TRANSFER] or [UNKNOWN], and [TRANSFER] only when there is a transfer.
    A label that is none of the five the switch knows sends the
    transaction down the fallback path, whatever its source says. *)
Theorem records_follow_the_label :
  forall (toUpperCase : string -> string) (now : Z) (tx : RawTx.t) (c : LRUCache),
    let p := fst (parseTransaction toUpperCase now (Some tx) c) in
    (swap p <> None ->
     RawTx.type tx = Some "SWAP"
     \/ (truthy_str (RawTx.type tx) = false
         /\ identifyTransactionType toUpperCase tx = "SWAP")) /\
    (pool p <> None ->
     RawTx.type tx = Some "CREATE_POOL" \/ RawTx.type tx = Some "INITIALIZE_POOL") /\
    (truthy_str (RawTx.type tx) = false ->
     In (identifyTransactionType toUpperCase tx) ["SWAP"; "TRANSFER"; "UNKNOWN"] /\
     (identifyTransactionType toUpperCase tx = "TRANSFER" ->
      exists transfer rest, RawTx.tokenTransfers tx = Some (transfer :: rest))) /\
    (forall label : string,
        RawTx.type tx = Some label ->
        label <> "" ->
        ~ In label ["SWAP"; "CREATE_POOL"; "INITIALIZE_POOL"; "TRANSFER"; "TOKEN_MINT"] ->
        p = empty_parsed
        \/ p = mkParsed (extractMintFromTransaction tx) None None).
Proof.
  intros U now tx c p.
  assert (Hp : p = empty_parsed \/ p = classified U now tx).
  { subst p. rewrite parseTransaction_eq.
    destruct (truthy_str (RawTx.signature tx)); cbn [fst]; [|now right].
    destruct (fst (checkAndMarkSignature _ c)); auto. }
  assert (Hid : truthy_str (RawTx.type tx) = false ->
                In (identifyTransactionType U tx) ["SWAP"; "TRANSFER"; "UNKNOWN"] /\
                (identifyTransactionType U tx = "TRANSFER" ->
                 exists transfer rest,
                   RawTx.tokenTransfers tx = Some (transfer :: rest))).
  { intros Hty. unfold identifyTransactionType. rewrite Hty.
    destruct (if truthy_str (RawTx.source tx) then _ else false);
      [split; [simpl; tauto | discriminate]|].
    destruct (existsb _ _); [split; [simpl; tauto | discriminate]|].
    destruct (RawTx.tokenTransfers tx) as [[|t l]|];
      (split; [simpl; tauto|]); try discriminate. eauto. }
  assert (Htype : forall label, type_of U tx = label ->
                  In label ["SWAP"; "CREATE_POOL"; "INITIALIZE_POOL"] ->
                  RawTx.type tx = Some label
                  \/ (truthy_str (RawTx.type tx) = false
                      /\ identifyTransactionType U tx = label)).
  { intros label Hl _. unfold type_of in Hl.
    destruct (truthy_str (RawTx.type tx)) eqn:Hty; [|auto].
    destruct (RawTx.type tx) as [ty|]; [|discriminate]. simpl in Hl.
    left. now subst. }
  split; [|split; [|split]].
  - intros Hswap. destruct Hp as [Hp|Hp]; rewrite Hp in Hswap;
      [now contradiction Hswap|].
    rewrite classified_eq in Hswap.
    destruct (String.eqb_spec (type_of U tx) "SWAP") as [Heq|_].
    + apply (Htype "SWAP" Heq). simpl. tauto.
    + exfalso. apply Hswap.
      destruct (String.eqb (type_of U tx) "CREATE_POOL"
                || String.eqb (type_of U tx) "INITIALIZE_POOL"); [reflexivity|].
      now destruct (String.eqb (type_of U tx) "TRANSFER"
                    || String.eqb (type_of U tx) "TOKEN_MINT").
  - intros Hpool. destruct Hp as [Hp|Hp]; rewrite Hp in Hpool;
      [now contradiction Hpool|].
    rewrite classified_eq in Hpool.
    destruct (String.eqb (type_of U tx) "SWAP");
      [now contradiction Hpool|].
    destruct (String.eqb_spec (type_of U tx) "CREATE_POOL") as [Heq|_].
    { destruct (Htype "CREATE_POOL" Heq ltac:(simpl; tauto)) as [H|[Hty H]];
        [now left|].
      destruct (Hid Hty) as [Hin _]. rewrite H in Hin. simpl in Hin.
      exfalso. intuition discriminate. }
    destruct (String.eqb_spec (type_of U tx) "INITIALIZE_POOL") as [Heq|_].
    { destruct (Htype "INITIALIZE_POOL" Heq ltac:(simpl; tauto)) as [H|[Hty H]];
        [now right|].
      destruct (Hid Hty) as [Hin _]. rewrite H in Hin. simpl in Hin.
      exfalso. intuition discriminate. }
    simpl in Hpool. exfalso. apply Hpool.
    now destruct (String.eqb (type_of U tx) "TRANSFER"
                  || String.eqb (type_of U tx) "TOKEN_MINT").
  - exact Hid.
  - intros label Hlabel Hne Hnot. destruct Hp as [Hp|Hp]; [now left|]. right.
    rewrite Hp, classified_eq.
    assert (Ht : type_of U tx = label).
    { unfold type_of. rewrite Hlabel. simpl.
      apply String.eqb_neq in Hne. now rewrite Hne. }
    rewrite Ht.
    repeat match goal with
           | |- context [String.eqb label ?k] =>
               destruct (String.eqb_spec label k) as [->|_];
               [exfalso; apply Hnot; simpl; tauto|]
           end.
    reflexivity.
Qed.








End NormalizerProperties.

(* ===================================================================== *)
(** * The side of a swap record *)
(* ===================================================================== *)

Section SwapSide.
Import Js Helius.
#[local] Arguments is_quote : simpl never.













End SwapSide.

(* ===================================================================== *)
(** * The ranking of [getTopScoredTokens] *)
(* ===================================================================== *)

Section RankingProperties.
Import Ranking.

(** [row] is the first row of its token in [data]. *)
Definition first_of_its_token (row : ScoreRow.t) (data : list ScoreRow.t) : Prop :=
  exists pre post,
    data = pre ++ row :: post /\
    forall other, In other pre -> ScoreRow.token_mint other <> ScoreRow.token_mint row.

(** Rows by descending score, as the query orders them. *)
Definition by_descending_score (data : list ScoreRow.t) : Prop :=
  StronglySorted (fun a b => ScoreRow.score b <= ScoreRow.score a) data.

Lemma sorted_suffix {A} (R : A -> A -> Prop) (pre l : list A) :
  StronglySorted R (pre ++ l) -> StronglySorted R l.
Proof.
  induction pre as [|x pre IH]; simpl; [auto|].
  intros H. apply StronglySorted_inv in H as [H _]. auto.
Qed.

(** What the loop adds to the rows it already kept. *)
Lemma dedupe_loop_spec (limit : Z) (data : list ScoreRow.t) :
  forall (seen : gset string) (unique : list ScoreRow.t),
  exists rest,
    dedupe_loop limit seen unique data = unique ++ rest /\
    rest `sublist_of` data /\
    NoDup (map ScoreRow.token_mint rest) /\
    (forall row, In row rest -> ScoreRow.token_mint row ∉ seen) /\
    (forall row, In row rest -> first_of_its_token row data) /\
    Z.of_nat (length (unique ++ rest)) <= Z.max (Z.of_nat (length unique) + 1) limit /\
    (Z.of_nat (length (unique ++ rest)) < limit ->
     forall row, In row data ->
       ScoreRow.token_mint row ∈ seen
       \/ exists kept, In kept rest
                       /\ ScoreRow.token_mint kept = ScoreRow.token_mint row).
Proof.
  induction data as [|y data IH]; intros seen unique.
  - exists []. simpl. rewrite app_nil_r.
    split; [reflexivity|]. split; [constructor|]. split; [constructor|].
    split; [intros ? []|]. split; [intros ? []|]. split; [lia|]. intros _ ? [].
  - cbn [dedupe_loop]. destruct (bool_decide_reflect (ScoreRow.token_mint y ∈ seen))
      as [Hseen|Hnew].
    + destruct (IH seen unique) as (rest & Heq & Hsub & Hnd & Hout & Hfirst & Hlen & Hall).
      exists rest. split; [exact Heq|]. split; [now constructor|].
      split; [exact Hnd|]. split; [exact Hout|]. split; [|split; [exact Hlen|]].
      * intros row Hrow. destruct (Hfirst row Hrow) as (pre & post & -> & Hpre).
        exists (y :: pre), post. split; [reflexivity|].
        intros other [<-|Hin]; [|now apply Hpre].
        intros Heq'. apply (Hout row Hrow). now rewrite <- Heq'.
      * intros Hlt row [<-|Hin]; [now left | now apply Hall].
    + cbv zeta.
      destruct (limit <=? Z.of_nat (length (unique ++ [y]))) eqn:Hfull.
      * exists [y]. split; [reflexivity|].
        split; [constructor; apply sublist_nil_l|].
        split; [apply NoDup_singleton|].
        split; [intros row [<-|[]]; exact Hnew|]. split; [|split].
        -- intros row [<-|[]]. exists [], data. split; [reflexivity|]. intros ? [].
        -- rewrite length_app. simpl. lia.
        -- apply Z.leb_le in Hfull. lia.
      * apply Z.leb_gt in Hfull.
        destruct (IH ({[ ScoreRow.token_mint y ]} ∪ seen) (unique ++ [y]))
          as (rest & Heq & Hsub & Hnd & Hout & Hfirst & Hlen & Hall).
        exists (y :: rest). rewrite Heq, <- app_assoc. simpl.
        split; [reflexivity|]. split; [now constructor|].
        assert (Hy : forall row, In row rest ->
                       ScoreRow.token_mint row <> ScoreRow.token_mint y).
        { intros row Hrow Heq'. apply (Hout row Hrow). rewrite Heq'.
          apply elem_of_union. left. now apply elem_of_singleton. }
        split; [|split; [|split; [|split]]].
        -- apply NoDup_cons. split; [|exact Hnd].
           intros Hin. apply list_elem_of_In, in_map_iff in Hin as (row & Hm & Hrow).
           now apply (Hy row Hrow).
        -- intros row [<-|Hrow]; [exact Hnew|].
           intros Hin. apply (Hout row Hrow). apply elem_of_union. now right.
        -- intros row [<-|Hrow].
           ++ exists [], data. split; [reflexivity|]. intros ? [].
           ++ destruct (Hfirst row Hrow) as (pre & post & -> & Hpre).
              exists (y :: pre), post. split; [reflexivity|].
              intros other [<-|Hin]; [|now apply Hpre].
              intros Heq'. now apply (Hy row Hrow).
        -- rewrite !length_app in Hlen. rewrite length_app in Hfull.
           rewrite length_app. cbn [length] in *. lia.
        -- rewrite <- app_assoc in Hall. simpl in Hall.
           intros Hlt row [<-|Hin].
           ++ right. exists y. split; [now left | reflexivity].
           ++ destruct (Hall Hlt row Hin) as [Hs|(kept & Hk & Hm)].
              ** apply elem_of_union in Hs as [Hs|Hs]; [|now left].
                 apply elem_of_singleton in Hs. right. exists y.
                 split; [now left | now symmetry].
              ** right. exists kept. split; [now right | exact Hm].
Qed.

(** X15.  The ranking keeps one row per token.  From the rows the query
    returned, [getTopScoredTokens] keeps rows in their order, no two of one
    token, each the first row of its token; it keeps at most [limit] rows,
    and one row when [limit] is below one and there is any.  When it keeps
    fewer than [limit] rows, every token of the data has its row.  On rows
    ordered by descending score, the row kept for a token carries the
    highest score of that token. *)
Theorem getTopScoredTokens_one_row_per_token :
  forall (limit : Z) (data : list ScoreRow.t),
    let top := getTopScoredTokens limit (Some data) in
    top `sublist_of` data /\
    NoDup (map ScoreRow.token_mint top) /\
    (forall row, In row top -> first_of_its_token row data) /\
    Z.of_nat (length top) <= Z.max 1 limit /\
    (Z.of_nat (length top) < limit ->
     forall row, In row data ->
       exists kept, In kept top
                    /\ ScoreRow.token_mint kept = ScoreRow.token_mint row) /\
    (by_descending_score data ->
     forall kept row,
       In kept top -> In row data ->
       ScoreRow.token_mint row = ScoreRow.token_mint kept ->
       ScoreRow.score row <= ScoreRow.score kept) /\
    getTopScoredTokens limit None = [].
Proof.
  intros limit data top. subst top. unfold getTopScoredTokens. simpl default.
  destruct (dedupe_loop_spec limit data ∅ [])
    as (rest & Heq & Hsub & Hnd & _ & Hfirst & Hlen & Hall).
  rewrite Heq. simpl in *.
  split; [exact Hsub|]. split; [exact Hnd|]. split; [exact Hfirst|].
  split; [exact Hlen|]. split; [|split; [|reflexivity]].
  - intros Hlt row Hrow. destruct (Hall Hlt row Hrow) as [Hs|H]; [|exact H].
    now apply not_elem_of_empty in Hs.
  - intros Hsorted kept row Hkept Hrow Hmint.
    destruct (Hfirst kept Hkept) as (pre & post & -> & Hpre).
    apply in_app_or in Hrow as [Hin|[<-|Hin]].
    + exfalso. now apply (Hpre row Hin).
    + lia.
    + unfold by_descending_score in Hsorted.
      apply sorted_suffix in Hsorted.
      apply StronglySorted_inv in Hsorted as [_ Hall'].
      rewrite Forall_forall in Hall'. now apply Hall', list_elem_of_In.
Qed.

(** Three rows of two tokens, by descending score. *)
Definition three_scores : list ScoreRow.t :=
  [ ScoreRow.mk "A" 90 1000; ScoreRow.mk "A" 85 2000; ScoreRow.mk "B" 70 1500 ].

Lemma getTopScoredTokens_one_row_per_token_witness :
  Forall (fun row => ScoreRow.token_mint row = "A" -> ScoreRow.score row <= 90)
    three_scores.
Proof.
  destruct (getTopScoredTokens_one_row_per_token 5 three_scores)
    as (_ & _ & _ & _ & _ & H & _).
  apply Forall_forall. intros row Hrow Hmint.
  apply (H ltac:(unfold by_descending_score, three_scores;
                 repeat constructor; simpl; lia)
           (ScoreRow.mk "A" 90 1000) row).
  - vm_compute. tauto.
  - now apply list_elem_of_In.
  - exact Hmint.
Defined.

End RankingProperties.

(* ===================================================================== *)
(** * Properties of the enrichment worker *)
(* ===================================================================== *)

Section HolderDistribution.
Import Js EnrichWorker.

(** The sum of the amounts of a list, added to [t] in list order. *)
Definition sum_from (t : Q) (l : list HolderAccount.t) : Q :=
  fold_left (fun sum h => (sum + amount_of h)%Q) l t.

(** No account holds a negative amount. *)
Definition holdings_nonneg (l : list HolderAccount.t) : Prop :=
  Forall (fun h => (0 <= amount_of h)%Q) l.

Lemma sum_from_shift (l : list HolderAccount.t) : forall t,
  (sum_from t l == t + sum_from 0 l)%Q.
Proof.
  unfold sum_from. induction l as [|x l IH]; intros t; simpl.
  - lra.
  - rewrite (IH (t + amount_of x)%Q), (IH (0 + amount_of x)%Q). lra.
Qed.

Lemma sum_from_le (l : list HolderAccount.t) :
  holdings_nonneg l -> forall t t', (t <= t')%Q -> (t <= sum_from t' l)%Q.
Proof.
  unfold sum_from. induction 1 as [|x l Hx Hl IH]; intros t t' Ht; simpl.
  - exact Ht.
  - apply IH. lra.
Qed.

Lemma firstn_nonneg (k : nat) (l : list HolderAccount.t) :
  holdings_nonneg l -> holdings_nonneg (firstn k l).
Proof.
  unfold holdings_nonneg. rewrite !Forall_forall. intros H h Hh. apply H.
  rewrite <- (firstn_skipn k l). apply elem_of_app. now left.
Qed.

(** A shorter prefix sums to no more than a longer one. *)
Lemma prefix_sum_le (l : list HolderAccount.t) :
  holdings_nonneg l ->
  forall (k k' : nat) t t',
    (k <= k')%nat -> (t <= t')%Q ->
    (sum_from t (firstn k l) <= sum_from t' (firstn k' l))%Q.
Proof.
  induction 1 as [|x l Hx Hl IH]; intros k k' t t' Hk Ht.
  - rewrite !firstn_nil. exact Ht.
  - destruct k as [|k]; destruct k' as [|k']; simpl; try lia.
    + exact Ht.
    + apply (sum_from_le (firstn k' l)); [now apply firstn_nonneg | lra].
    + apply IH; [lia | lra].
Qed.

Lemma prefix_sum_total (l : list HolderAccount.t) (k : nat) :
  holdings_nonneg l -> (sum_from 0 (firstn k l) <= sum_from 0 l)%Q.
Proof.
  intros Hl. destruct (Nat.le_gt_cases k (length l)) as [Hk|Hk].
  - rewrite <- (firstn_all l) at 2. apply prefix_sum_le; [assumption..|lra].
  - rewrite firstn_all2 by lia. lra.
Qed.

Lemma insert_holder_perm x l : insert_holder x l ≡ₚ x :: l.
Proof.
  induction l as [|y l IH]; simpl; [reflexivity|].
  destruct (Qle_bool (amount_of y) (amount_of x)); [reflexivity|].
  rewrite IH. apply perm_swap.
Qed.

Lemma sort_holders_perm l : sort_holders l ≡ₚ l.
Proof.
  induction l as [|x l IH]; simpl; [reflexivity|].
  unfold sort_holders in *. simpl. rewrite insert_holder_perm. now constructor.
Qed.

(** By descending amount. *)
Definition descending (l : list HolderAccount.t) : Prop :=
  StronglySorted (fun a b => (amount_of b <= amount_of a)%Q) l.

Lemma insert_holder_descending x l :
  descending l -> descending (insert_holder x l).
Proof.
  unfold descending. induction 1 as [|y l Hl IH Hy]; simpl.
  - repeat constructor.
  - destruct (Qle_bool (amount_of y) (amount_of x)) eqn:E.
    + apply Qle_bool_iff in E. constructor; [now constructor|].
      constructor; [exact E|]. rewrite Forall_forall in *.
      intros z Hz. specialize (Hy z Hz). simpl in Hy. lra.
    + apply Qle_bool_false in E. constructor; [exact IH|].
      rewrite Forall_forall in *. intros z Hz.
      apply list_elem_of_In in Hz.
      apply (Permutation_in _ (insert_holder_perm x l)) in Hz.
      destruct Hz as [<-|Hz]; [lra|]. apply Hy. now apply list_elem_of_In.
Qed.

Lemma sort_holders_descending l : descending (sort_holders l).
Proof.
  induction l as [|x l IH]; [constructor|].
  unfold sort_holders in *. simpl. now apply insert_holder_descending.
Qed.

Lemma sort_holders_nonneg l : holdings_nonneg l -> holdings_nonneg (sort_holders l).
Proof.
  unfold holdings_nonneg. intros H. now rewrite sort_holders_perm.
Qed.

Lemma pct_le (a b t : Q) :
  (0 < t)%Q -> (a <= b)%Q -> (a / t * 100 <= b / t * 100)%Q.
Proof.
  intros Ht Hab. apply Qmult_le_compat_r; [|lra].
  unfold Qdiv. apply Qmult_le_compat_r; [exact Hab|].
  apply Qinv_le_0_compat. lra.
Qed.

Lemma pct_full (t : Q) : ~ (t == 0)%Q -> (t / t * 100 == 100)%Q.
Proof.
  intros Ht. unfold Qdiv. rewrite Qmult_inv_r by exact Ht. lra.
Qed.

Lemma pct_nonneg (a t : Q) : (0 < t)%Q -> (0 <= a)%Q -> (0 <= a / t * 100)%Q.
Proof.
  intros Ht Ha. apply Qmult_le_0_compat; [|lra].
  unfold Qdiv. apply Qmult_le_0_compat; [exact Ha|].
  apply Qinv_le_0_compat. lra.
Qed.

(** The total a snapshot divides by. *)
Definition total_held (holders : list HolderAccount.t) : Q :=
  sum_amounts (sort_holders holders).

(** [calculateHolderDistribution] on a list that is not empty. *)
Lemma calculateHolderDistribution_eq (holders : list HolderAccount.t) :
  holders <> [] ->
  calculateHolderDistribution (Some holders)
  = if Qeq_bool (sum_from 0 (sort_holders holders)) 0
    then HolderSnapshot.mk (Z.of_nat (length holders)) 0 0 0 0 None
    else
      HolderSnapshot.mk (Z.of_nat (length holders))
        (sum_from 0 (firstn 1 (sort_holders holders))
         / sum_from 0 (sort_holders holders) * 100)
        (sum_from 0 (firstn 5 (sort_holders holders))
         / sum_from 0 (sort_holders holders) * 100)
        (sum_from 0 (firstn 10 (sort_holders holders))
         / sum_from 0 (sort_holders holders) * 100)
        (sum_from 0 (firstn 20 (sort_holders holders))
         / sum_from 0 (sort_holders holders) * 100)
        (Some (HolderSnapshot.mkMeta (sum_from 0 (sort_holders holders))
                 (map (fun h =>
                         (HolderAccount.address h,
                          or_num (HolderAccount.uiAmount h)
                            (HolderAccount.amount h)))
                    (firstn 5 (sort_holders holders))))).
Proof.
  intros Hne. pose proof (Permutation_length (sort_holders_perm holders)) as Hlen.
  destruct holders as [|h0 hs]; [contradiction|].
  unfold calculateHolderDistribution. cbv zeta. rewrite Hlen. reflexivity.
Qed.

(** X16.  The holder distribution.  The holder count is the number of
    accounts listed.  When no account holds a negative amount and the total
    is not zero, the four percentages are nested,
    0 <= top1 <= top5 <= top10 <= top20 <= 100; a percentage over at least
    as many places as there are accounts is 100, so with at most ten
    accounts listed the top-10 percentage is 100 and the scoring engine
    applies its heaviest top-10 penalty; and no account holds a larger
    share than the top-1 percentage.  When the total is zero (or no account
    is listed) all four percentages are zero. *)
Theorem holder_distribution_nested :
  forall holders : list HolderAccount.t,
    holdings_nonneg holders ->
    let s := calculateHolderDistribution (Some holders) in
    HolderSnapshot.holder_count s = Z.of_nat (length holders) /\
    ((total_held holders == 0)%Q ->
     HolderSnapshot.top1_pct s = 0%Q /\ HolderSnapshot.top5_pct s = 0%Q /\
     HolderSnapshot.top10_pct s = 0%Q /\ HolderSnapshot.top20_pct s = 0%Q) /\
    (~ (total_held holders == 0)%Q ->
     (0 <= HolderSnapshot.top1_pct s)%Q /\
     (HolderSnapshot.top1_pct s <= HolderSnapshot.top5_pct s)%Q /\
     (HolderSnapshot.top5_pct s <= HolderSnapshot.top10_pct s)%Q /\
     (HolderSnapshot.top10_pct s <= HolderSnapshot.top20_pct s)%Q /\
     (HolderSnapshot.top20_pct s <= 100)%Q /\
     ((length holders <= 20)%nat -> (HolderSnapshot.top20_pct s == 100)%Q) /\
     ((length holders <= 10)%nat ->
      (HolderSnapshot.top10_pct s == 100)%Q /\
      Score.concentration_penalty
        (Score.concentration (or_zero (Some (HolderSnapshot.top10_pct s)))
           Rules.TOP10_CONCENTRATION_PENALTIES) = -25) /\
     (forall h, In h holders ->
        (amount_of h / total_held holders * 100 <= HolderSnapshot.top1_pct s)%Q)).
Proof.
  intros holders Hnn s. subst s.
  destruct holders as [|h0 hs] eqn:Hh.
  { simpl. split; [reflexivity|]. split; [auto|].
    intros Hne. exfalso. apply Hne. reflexivity. }
  rewrite <- Hh in *.
  assert (Hne : holders <> []) by (rewrite Hh; discriminate).
  clear Hh h0 hs.
  rewrite (calculateHolderDistribution_eq holders Hne).
  pose proof (sort_holders_nonneg holders Hnn) as Hsn.
  pose proof (sort_holders_perm holders) as Hperm.
  pose proof (Permutation_length Hperm) as Hlen.
  pose proof (sort_holders_descending holders) as Hdesc.
  unfold total_held, sum_amounts. fold (sum_from 0 (sort_holders holders)).
  set (sorted := sort_holders holders) in *.
  set (total := sum_from 0 sorted) in *.
  destruct (Qeq_bool total 0) eqn:Hzero.
  { apply Qeq_bool_iff in Hzero. cbn [HolderSnapshot.holder_count
      HolderSnapshot.top1_pct HolderSnapshot.top5_pct HolderSnapshot.top10_pct
      HolderSnapshot.top20_pct].
    split; [reflexivity|]. split; [auto|]. intros Hnz. contradiction. }
  apply Qeq_bool_neq in Hzero.
  cbn [HolderSnapshot.holder_count HolderSnapshot.top1_pct HolderSnapshot.top5_pct
       HolderSnapshot.top10_pct HolderSnapshot.top20_pct].
  split; [reflexivity|]. split; [intros Hz; contradiction|]. intros _.
  assert (Hpos : (0 < total)%Q).
  { pose proof (sum_from_le sorted Hsn 0%Q 0%Q ltac:(lra)) as H0. fold total in H0.
    destruct (Qlt_le_dec 0 total) as [H|H]; [exact H|].
    exfalso. apply Hzero. lra. }
  assert (Hfull : forall k, (length holders <= k)%nat ->
                    (sum_from 0 (firstn k sorted) / total * 100 == 100)%Q).
  { intros k Hk. rewrite firstn_all2 by lia. fold total. now apply pct_full. }
  split.
  { apply pct_nonneg; [exact Hpos|].
    apply (sum_from_le (firstn 1 sorted)); [now apply firstn_nonneg | lra]. }
  split; [apply pct_le; [exact Hpos|]; apply prefix_sum_le; [assumption|lia|lra]|].
  split; [apply pct_le; [exact Hpos|]; apply prefix_sum_le; [assumption|lia|lra]|].
  split; [apply pct_le; [exact Hpos|]; apply prefix_sum_le; [assumption|lia|lra]|].
  split.
  { apply Qle_trans with (total / total * 100)%Q.
    - apply pct_le; [exact Hpos|]. now apply prefix_sum_total.
    - rewrite (pct_full total Hzero). lra. }
  split; [apply Hfull|]. split.
  - intros Hk. pose proof (Hfull 10%nat Hk) as H10. split; [exact H10|].
    set (pct := (sum_from 0 (firstn 10 sorted) / total * 100)%Q) in *.
    assert (Hnz : Qeq_bool pct 0 = false).
    { destruct (Qeq_bool pct 0) eqn:E; [|reflexivity].
      apply Qeq_bool_iff in E. lra. }
    unfold or_zero. rewrite Hnz.
    unfold Score.concentration, Score.gt.
    assert (Hgt : Qle_bool pct 0 = false) by (apply Qle_bool_false; lra).
    rewrite Hgt. simpl negb. cbv iota.
    unfold Score.concentration_penalty, Score.penaltyByThreshold.
    replace (Score.sort_penalty_desc Rules.TOP10_CONCENTRATION_PENALTIES)
      with Rules.TOP10_CONCENTRATION_PENALTIES by reflexivity.
    unfold Rules.TOP10_CONCENTRATION_PENALTIES.
    cbn [Score.first_penalty_reached PenaltyTier.min].
    assert (Hge : Score.ge pct 80 = true)
      by (unfold Score.ge; apply Qle_bool_iff; lra).
    rewrite Hge. reflexivity.
  - intros h Hh. apply pct_le; [exact Hpos|].
    assert (Hin : In h sorted).
    { apply (Permutation_in _ (Permutation_sym Hperm)). exact Hh. }
    destruct sorted as [|top rest] eqn:Hs; [destruct Hin|].
    simpl. unfold sum_from. simpl.
    destruct Hin as [<-|Hin]; [lra|].
    unfold descending in Hdesc. apply StronglySorted_inv in Hdesc as [_ Hall].
    rewrite Forall_forall in Hall. specialize (Hall h ltac:(now apply list_elem_of_In)).
    simpl in Hall. lra.
Qed.

(** Three accounts holding 50, 30 and 20. *)
Definition three_holders : list HolderAccount.t :=
  [ HolderAccount.mk (Some "a") (Some 30%Q) None;
    HolderAccount.mk (Some "b") (Some 50%Q) None;
    HolderAccount.mk (Some "c") None (Some 20%Q) ].

Lemma holder_distribution_nested_witness :
  (HolderSnapshot.top10_pct (calculateHolderDistribution (Some three_holders))
   == 100)%Q.
Proof.
  destruct (holder_distribution_nested three_holders) as (_ & _ & H).
  - repeat constructor; apply Qle_bool_iff; reflexivity.
  - destruct H as (_ & _ & _ & _ & _ & _ & H10 & _).
    + intros Hz. apply Qeq_bool_iff in Hz. vm_compute in Hz. discriminate.
    + apply H10. simpl. lia.
Defined.

End HolderDistribution.

Section RetryProperties.
Import EnrichWorker.

(** An error after which [retryWithBackoff] gives up at once. *)
Definition fatal {E} (status : E -> option Z) (err : E) : Prop :=
  status err = Some 404 \/ status err = Some 400.

(** [n] calls from attempt [i] on, with a doubling sleep between two
    calls and none after the last. *)
Fixpoint schedule (delay : Z) (i n : nat) : list Event :=
  match n with
  | O => []
  | S n' =>
      match n' with
      | O => [Call i]
      | S _ => Call i :: Sleep (delay * 2 ^ Z.of_nat i) :: schedule delay (S i) n'
      end
  end.

(** The time slept in a trace. *)
Definition time_slept (trace : list Event) : Z :=
  fold_right (fun e total => match e with
                             | Sleep ms => ms + total
                             | Call _ => total
                             end) 0 trace.

Lemma schedule_step delay i n :
  schedule delay i (S (S n))
  = Call i :: Sleep (delay * 2 ^ Z.of_nat i) :: schedule delay (S i) (S n).
Proof. reflexivity. Qed.

Lemma time_slept_schedule delay n : forall i,
  time_slept (schedule delay i (S n))
  = delay * 2 ^ Z.of_nat i * (2 ^ Z.of_nat n - 1).
Proof.
  induction n as [|n IH]; intros i.
  - simpl. lia.
  - rewrite schedule_step. cbn [time_slept fold_right].
    fold (time_slept (schedule delay (S i) (S n))). rewrite IH.
    rewrite !Nat2Z.inj_succ, !Z.pow_succ_r by lia. lia.
Qed.

(** The loop from round [i] on, when [i] rounds are done and [remaining]
    are left of [maxRetries]. *)
Lemma retry_loop_spec {A E} (status : E -> option Z) (fn : nat -> Attempt A E)
    (maxRetries delay : Z) :
  forall (remaining i : nat) (lastError : option E) (trace : list Event),
    Z.of_nat (i + remaining) = Z.max 0 maxRetries ->
    exists n : nat,
      (n <= remaining)%nat /\
      snd (retry_loop status fn maxRetries delay remaining i lastError trace)
      = trace ++ schedule delay i n /\
      (n = 0%nat <-> remaining = 0%nat) /\
      (forall j, (j + 1 < n)%nat ->
         exists err, fn (i + j)%nat = Rejects err /\ ~ fatal status err) /\
      match fst (retry_loop status fn maxRetries delay remaining i lastError trace) with
      | Returns a => (1 <= n)%nat /\ fn (i + n - 1)%nat = Resolves a
      | Throws None => n = 0%nat /\ lastError = None
      | Throws (Some err) =>
          (n = 0%nat /\ lastError = Some err)
          \/ ((1 <= n)%nat /\ fn (i + n - 1)%nat = Rejects err
              /\ (fatal status err \/ n = remaining))
      end.
Proof.
  induction remaining as [|remaining IH]; intros i lastError trace Hsum.
  - exists 0%nat. simpl. rewrite app_nil_r.
    split; [lia|]. split; [reflexivity|]. split; [tauto|].
    split; [intros j Hj; lia|]. destruct lastError; auto.
  - cbn [retry_loop].
    destruct (fn i) as [a|err] eqn:Hfn.
    + exists 1%nat. simpl. split; [lia|]. split; [reflexivity|].
      split; [split; intros; lia|]. split; [intros j Hj; lia|].
      split; [lia|]. now replace (i + 1 - 1)%nat with i by lia.
    + destruct (bool_decide (status err = Some 404)
                || bool_decide (status err = Some 400)) eqn:Hfatal.
      * exists 1%nat. simpl. split; [lia|]. split; [reflexivity|].
        split; [split; intros; lia|]. split; [intros j Hj; lia|].
        right. split; [lia|]. replace (i + 1 - 1)%nat with i by lia.
        split; [exact Hfn|]. left.
        apply orb_true_iff in Hfatal as [H|H]; apply bool_decide_eq_true in H;
          [now left | now right].
      * assert (Hnot : ~ fatal status err).
        { apply orb_false_iff in Hfatal as [H1 H2].
          apply bool_decide_eq_false in H1, H2. intros [H|H]; contradiction. }
        destruct remaining as [|remaining'].
        -- (* the last round: no sleep *)
           assert (Hlast : (Z.of_nat i <? maxRetries - 1) = false).
           { apply Z.ltb_ge. lia. }
           rewrite Hlast. exists 1%nat. simpl. split; [lia|].
           split; [reflexivity|]. split; [split; intros; lia|].
           split; [intros j Hj; lia|]. right. split; [lia|].
           replace (i + 1 - 1)%nat with i by lia. auto.
        -- assert (Hmore : (Z.of_nat i <? maxRetries - 1) = true).
           { apply Z.ltb_lt. lia. }
           rewrite Hmore.
           destruct (IH (S i) (Some err)
                       (trace ++ [Call i; Sleep (delay * 2 ^ Z.of_nat i)])
                       ltac:(lia))
             as (n & Hn & Htrace & Hzero & Hbefore & Hout).
           assert (Hn1 : (1 <= n)%nat).
           { destruct n; [|lia]. destruct Hzero as [Hzero _].
             specialize (Hzero eq_refl). discriminate. }
           exists (S n). split; [lia|]. split.
           { rewrite Htrace, <- app_assoc. f_equal.
             destruct n as [|n]; [lia|]. reflexivity. }
           split; [split; intros; lia|]. split.
           { intros j Hj. destruct j as [|j].
             - rewrite Nat.add_0_r. eauto.
             - replace (i + S j)%nat with (S i + j)%nat by lia.
               apply Hbefore. lia. }
           replace (i + S n - 1)%nat with (S i + n - 1)%nat by lia.
           destruct (fst (retry_loop status fn maxRetries delay (S remaining')
                            (S i) (Some err)
                            (trace ++ [Call i; Sleep (delay * 2 ^ Z.of_nat i)])))
             as [a|[err'|]].
           ++ destruct Hout as [_ Hout]. split; [lia | exact Hout].
           ++ destruct Hout as [[Hn0 _]|(_ & Hf & Hwhy)]; [lia|].
              right. split; [lia|]. split; [exact Hf|].
              destruct Hwhy as [Hw|Hw]; [now left | right; lia].
           ++ destruct Hout as [Hn0 _]. lia.
Qed.

(** X17.  Retries with backoff.  [retryWithBackoff] calls the function
    at most [maxRetries] times, one attempt after the other; between two
    attempts it sleeps [delay * 2^i] after attempt [i], and it never sleeps
    after the last attempt, so [n] attempts cost [delay * (2^(n-1) - 1)] of
    waiting.  Every attempt but the last one made was rejected with an
    error that is not fatal.  It returns the value of the last attempt when
    that one resolved; it throws the error of the last attempt when that
    error is fatal (status 404 or 400), with no further attempt, or when
    all [maxRetries] attempts were rejected.  With [maxRetries] below one
    it calls nothing and throws [undefined]. *)
Theorem retryWithBackoff_schedule :
  forall (A E : Type) (status : E -> option Z) (fn : nat -> Attempt A E)
         (maxRetries delay : Z),
    exists n : nat,
      Z.of_nat n <= Z.max 0 maxRetries /\
      snd (retryWithBackoff status fn maxRetries delay) = schedule delay 0 n /\
      (n = 0%nat <-> maxRetries <= 0) /\
      ((1 <= n)%nat ->
       time_slept (snd (retryWithBackoff status fn maxRetries delay))
       = delay * (2 ^ (Z.of_nat n - 1) - 1)) /\
      (forall j, (j + 1 < n)%nat ->
         exists err, fn j = Rejects err /\ ~ fatal status err) /\
      match fst (retryWithBackoff status fn maxRetries delay) with
      | Returns a => (1 <= n)%nat /\ fn (n - 1)%nat = Resolves a
      | Throws None => n = 0%nat
      | Throws (Some err) =>
          (1 <= n)%nat /\ fn (n - 1)%nat = Rejects err
          /\ (fatal status err \/ Z.of_nat n = maxRetries)
      end.
Proof.
  intros A E status fn maxRetries delay. unfold retryWithBackoff.
  destruct (retry_loop_spec status fn maxRetries delay (Z.to_nat maxRetries) 0
              None [] ltac:(lia))
    as (n & Hn & Htrace & Hzero & Hbefore & Hout).
  exists n. split; [lia|]. split; [exact Htrace|]. split; [|split; [|split]].
  - rewrite Hzero. lia.
  - intros Hn1. rewrite Htrace. simpl app.
    destruct n as [|n]; [lia|]. rewrite time_slept_schedule.
    replace (Z.of_nat (S n) - 1) with (Z.of_nat n) by lia. simpl Z.of_nat.
    rewrite Z.pow_0_r. lia.
  - intros j Hj. apply (Hbefore j Hj).
  - destruct (fst (retry_loop status fn maxRetries delay (Z.to_nat maxRetries)
                     0 None [])) as [a|[err|]].
    + exact Hout.
    + destruct Hout as [[_ Hout]|(H1 & Hf & Hwhy)]; [discriminate|].
      split; [exact H1|]. split; [exact Hf|].
      destruct Hwhy as [Hw|Hw]; [now left | right; lia].
    + tauto.
Qed.

(** The best pool so far carries a liquidity of [value best]. *)
Definition pool_value (best : option Pool.t) : Q :=
  Js.or_zero (Js.opt_member best Pool.liquidity_usd).

Lemma bestPool_loop (pools : list Pool.t) : forall best : option Pool.t,
  let chosen :=
    fold_left
      (fun best p =>
         if Score.gt (Js.or_zero (Pool.liquidity_usd p)) (pool_value best)
         then Some p else best)
      pools best in
  (pool_value best <= pool_value chosen)%Q /\
  (forall p, In p pools ->
     (Js.or_zero (Pool.liquidity_usd p) <= pool_value chosen)%Q) /\
  (chosen = best
   \/ exists p, chosen = Some p /\ In p pools
                /\ (pool_value best < Js.or_zero (Pool.liquidity_usd p))%Q).
Proof.
  induction pools as [|x pools IH]; intros best; cbv zeta; simpl.
  - split; [lra|]. split; [intros ? []|]. now left.
  - destruct (Score.gt (Js.or_zero (Pool.liquidity_usd x)) (pool_value best)) eqn:E.
    + destruct (IH (Some x)) as (Hge & Hall & Hwho). cbv zeta in *.
      assert (Hx : (pool_value best < Js.or_zero (Pool.liquidity_usd x))%Q).
      { unfold Score.gt in E. apply negb_true_iff in E.
        now apply Qle_bool_false in E. }
      change (pool_value (Some x)) with (Js.or_zero (Pool.liquidity_usd x)) in *.
      split; [lra|]. split.
      * intros p [<-|Hp]; [exact Hge | now apply Hall].
      * right. destruct Hwho as [->|(p & -> & Hp & Hlt)].
        -- exists x. auto.
        -- exists p. split; [reflexivity|]. split; [now right | lra].
    + destruct (IH best) as (Hge & Hall & Hwho). cbv zeta in *.
      assert (Hx : (Js.or_zero (Pool.liquidity_usd x) <= pool_value best)%Q).
      { unfold Score.gt in E. apply negb_false_iff in E.
        now apply Qle_bool_iff in E. }
      split; [exact Hge|]. split.
      * intros p [<-|Hp]; [lra | now apply Hall].
      * destruct Hwho as [->|(p & -> & Hp & Hlt)]; [now left|].
        right. exists p. auto.
Qed.

(** X18.  The best pool.  The pool [enrichToken] reads the liquidity
    from is one of the token's pools, with a positive liquidity that no
    other pool of the token exceeds; there is none exactly when no pool has
    a positive liquidity (a missing liquidity counting as zero). *)
Theorem bestPool_has_highest_liquidity :
  forall pools : list Pool.t,
    (bestPool pools = None <->
     forall p, In p pools -> (Js.or_zero (Pool.liquidity_usd p) <= 0)%Q) /\
    (forall best, bestPool pools = Some best ->
       In best pools /\
       (0 < Js.or_zero (Pool.liquidity_usd best))%Q /\
       forall p, In p pools ->
         (Js.or_zero (Pool.liquidity_usd p)
          <= Js.or_zero (Pool.liquidity_usd best))%Q).
Proof.
  intros pools.
  pose proof (bestPool_loop pools None) as H. cbv zeta in H.
  change (fold_left _ pools None) with (bestPool pools) in H.
  change (pool_value None) with 0%Q in H.
  destruct H as (Hge & Hall & Hwho).
  split; [split|].
  - intros Hnone p Hp. specialize (Hall p Hp). rewrite Hnone in Hall. exact Hall.
  - intros Hlow. destruct Hwho as [H|(p & _ & Hp & Hlt)]; [exact H|].
    specialize (Hlow p Hp). lra.
  - intros best Hbest. rewrite Hbest in Hall, Hwho.
    destruct Hwho as [H|(p & Heq & Hp & Hlt)]; [discriminate|].
    injection Heq as <-.
    split; [exact Hp|]. split; [exact Hlt | exact Hall].
Qed.

End RetryProperties.

(* ===================================================================== *)
(** * Labels, escaping and the webhook secret *)
(* ===================================================================== *)

Section LabelProperties.
Import Rules Score Labels.

Lemma getScoreLabel_bands (s : Z) :
  getScoreLabel s
  = if 90 <=? s then "Exceptional"
    else if 80 <=? s then "Very Strong"
    else if 70 <=? s then "Strong"
    else if 60 <=? s then "Moderate"
    else if 50 <=? s then "Weak"
    else if 40 <=? s then "Poor"
    else "Very Poor".
Proof.
  unfold getScoreLabel.
  change (sort_labels SCORE_LABELS)
    with [ (90, "Exceptional"); (80, "Very Strong"); (70, "Strong");
           (60, "Moderate"); (50, "Weak"); (40, "Poor"); (0, "Very Poor") ].
  cbn [find fst snd].
  repeat (match goal with
          | |- context [?k <=? s] => destruct (k <=? s); [reflexivity|]
          end).
  reflexivity.
Qed.

Lemma getScoreLabel_band_iff (s : Z) :
  (getScoreLabel s = "Exceptional" <-> 90 <= s) /\
  (getScoreLabel s = "Very Strong" <-> 80 <= s < 90) /\
  (getScoreLabel s = "Strong" <-> 70 <= s < 80) /\
  (getScoreLabel s = "Moderate" <-> 60 <= s < 70) /\
  (getScoreLabel s = "Weak" <-> 50 <= s < 60) /\
  (getScoreLabel s = "Poor" <-> 40 <= s < 50) /\
  (getScoreLabel s = "Very Poor" <-> s < 40).
Proof.
  rewrite getScoreLabel_bands.
  destruct (90 <=? s) eqn:E90; rewrite ?Z.leb_le, ?Z.leb_gt in E90;
    [repeat split; intros; try discriminate; try lia|].
  destruct (80 <=? s) eqn:E80; rewrite ?Z.leb_le, ?Z.leb_gt in E80;
    [repeat split; intros; try discriminate; try lia|].
  destruct (70 <=? s) eqn:E70; rewrite ?Z.leb_le, ?Z.leb_gt in E70;
    [repeat split; intros; try discriminate; try lia|].
  destruct (60 <=? s) eqn:E60; rewrite ?Z.leb_le, ?Z.leb_gt in E60;
    [repeat split; intros; try discriminate; try lia|].
  destruct (50 <=? s) eqn:E50; rewrite ?Z.leb_le, ?Z.leb_gt in E50;
    [repeat split; intros; try discriminate; try lia|].
  destruct (40 <=? s) eqn:E40; rewrite ?Z.leb_le, ?Z.leb_gt in E40;
    repeat split; intros; try discriminate; try lia.
Qed.

(** X19.  Score labels.  The label of a score is that of the highest
    threshold the score reaches: [Exceptional] from 90, [Very Strong] from
    80, [Strong] from 70, [Moderate] from 60, [Weak] from 50, [Poor] from
    40 and [Very Poor] below 40, negative scores included.  So under the
    default thresholds the first alert of a token is labelled [Strong],
    [Very Strong] or [Exceptional], and [Very Strong] or [Exceptional] when
    the token carries a hard flag; a token with both authorities is never
    labelled [Exceptional]. *)
Theorem getScoreLabel_bands_and_first_alert :
  (forall s : Z,
      (getScoreLabel s = "Exceptional" <-> 90 <= s) /\
      (getScoreLabel s = "Very Strong" <-> 80 <= s < 90) /\
      (getScoreLabel s = "Strong" <-> 70 <= s < 80) /\
      (getScoreLabel s = "Moderate" <-> 60 <= s < 70) /\
      (getScoreLabel s = "Weak" <-> 50 <= s < 60) /\
      (getScoreLabel s = "Poor" <-> 40 <= s < 50) /\
      (getScoreLabel s = "Very Poor" <-> s < 40)) /\
  (forall (r : ScoreResult.t) (previousFlags : list string),
      AlertCheck.shouldSend (shouldAlert default_thresholds r None previousFlags)
      = true ->
      In (getScoreLabel (ScoreResult.score r))
        ["Strong"; "Very Strong"; "Exceptional"] /\
      (has_hard_flag (ScoreResult.risk_flags r) ->
       In (getScoreLabel (ScoreResult.score r)) ["Very Strong"; "Exceptional"])) /\
  (forall (now : Z) (x : TokenState.t) (r : ScoreResult.t),
      score now x = Js.Ok r ->
      In "FULL_AUTHORITY_RISK" (ScoreResult.risk_flags r) ->
      getScoreLabel (ScoreResult.score r) <> "Exceptional").
Proof.
  split; [|split].
  - apply getScoreLabel_band_iff.
  - intros r previousFlags Hsend. rewrite getScoreLabel_bands.
    unfold shouldAlert in Hsend.
    cbn [SCORE_THRESHOLD SCORE_THRESHOLD_WITH_FLAGS default_thresholds] in Hsend.
    destruct (existsb (includes hard_flags) (ScoreResult.risk_flags r)) eqn:Hhard.
    + rewrite andb_false_r in Hsend.
      destruct (80 <=? ScoreResult.score r) eqn:E80; [|discriminate].
      destruct (90 <=? ScoreResult.score r); simpl; tauto.
    + rewrite andb_true_r in Hsend.
      destruct (70 <=? ScoreResult.score r) eqn:E70.
      * split.
        -- destruct (90 <=? ScoreResult.score r); [simpl; tauto|].
           destruct (80 <=? ScoreResult.score r); simpl; tauto.
        -- intros H. apply hasHardFlags_iff in H. congruence.
      * destruct (80 <=? ScoreResult.score r) eqn:E80; [|discriminate].
        apply Z.leb_le in E80. apply Z.leb_gt in E70. lia.
  - intros now x r Hr Hfull Hlabel.
    pose proof (full_authority_score now x r Hr Hfull) as H80.
    apply (getScoreLabel_band_iff (ScoreResult.score r)) in Hlabel. lia.
Qed.

End LabelProperties.

Section EscapeProperties.
Import Js Format.

(** Undoes [escape]: a backslash in front of a special character is
    dropped. *)
Fixpoint unescape (s : string) : string :=
  match s with
  | EmptyString => EmptyString
  | String c rest =>
      match rest with
      | String d rest' =>
          if Ascii.eqb c backslash && is_special d
          then String d (unescape rest')
          else String c (unescape rest)
      | EmptyString => String c EmptyString
      end
  end.

(** Every special character of [s] has a backslash in front of it. *)
Fixpoint escaped (s : string) : Prop :=
  match s with
  | EmptyString => True
  | String c rest =>
      if is_special c then False
      else
        match rest with
        | String d rest' =>
            if Ascii.eqb c backslash && is_special d then escaped rest'
            else escaped rest
        | EmptyString => True
        end
  end.

Lemma backslash_not_special : is_special backslash = false.
Proof. reflexivity. Qed.

(** The image of [escape] never starts with a bare special character. *)
Lemma escape_head s :
  match escape s with
  | String d _ => is_special d = false \/ exists s', s = String d s' /\ False
  | EmptyString => s = EmptyString
  end.
Proof.
  destruct s as [|c s]; simpl; [reflexivity|].
  destruct (is_special c) eqn:E; [left; apply backslash_not_special | now left].
Qed.

Lemma unescape_escape s : unescape (escape s) = s.
Proof.
  induction s as [|c s IH]; [reflexivity|].
  cbn [escape]. destruct (is_special c) eqn:Hc.
  - cbn [unescape]. rewrite Ascii.eqb_refl, Hc. simpl andb. cbv iota.
    now rewrite IH.
  - pose proof (escape_head s) as Hhead.
    cbn [unescape]. destruct (escape s) as [|d rest] eqn:Hes.
    + now rewrite Hhead.
    + destruct Hhead as [Hd|(? & _ & [])]. rewrite Hd, andb_false_r.
      now rewrite IH.
Qed.

Lemma escaped_escape s : escaped (escape s).
Proof.
  induction s as [|c s IH]; [exact I|].
  cbn [escape]. destruct (is_special c) eqn:Hc.
  - cbn [escaped]. rewrite backslash_not_special, Ascii.eqb_refl, Hc. exact IH.
  - pose proof (escape_head s) as Hhead.
    cbn [escaped]. rewrite Hc. destruct (escape s) as [|d rest] eqn:Hes; [exact I|].
    destruct Hhead as [Hd|(? & _ & [])]. rewrite Hd, andb_false_r. exact IH.
Qed.

Lemma escape_length s :
  (String.length s <= String.length (escape s) <= 2 * String.length s)%nat.
Proof.
  induction s as [|c s IH]; simpl; [lia|].
  destruct (is_special c); simpl; lia.
Qed.

Lemma escape_plain s :
  forallb (fun c => negb (is_special c)) (list_ascii_of_string s) = true ->
  escape s = s.
Proof.
  induction s as [|c s IH]; simpl; [reflexivity|].
  intros H. apply andb_true_iff in H as [Hc Hs]. apply negb_true_iff in Hc.
  rewrite Hc. now rewrite IH.
Qed.

(** X20.  Escaping loses nothing.  [escapeMarkdown] gives the empty
    string for a missing or empty text.  On any text, dropping the
    backslashes it added gives the text back, so two different texts are
    never escaped to the same string; in its output every special character
    has a backslash in front of it; the output is at least as long as the
    text and at most twice as long; and a text without special characters
    is returned as it is. *)
Theorem escapeMarkdown_round_trip :
  escapeMarkdown None = "" /\
  escapeMarkdown (Some "") = "" /\
  (forall s : string,
      unescape (escapeMarkdown (Some s)) = s /\
      escaped (escapeMarkdown (Some s)) /\
      (String.length s <= String.length (escapeMarkdown (Some s))
       <= 2 * String.length s)%nat /\
      (forallb (fun c => negb (is_special c)) (list_ascii_of_string s) = true ->
       escapeMarkdown (Some s) = s)) /\
  (forall s s' : string,
      escapeMarkdown (Some s) = escapeMarkdown (Some s') -> s = s').
Proof.
  assert (Heq : forall s, escapeMarkdown (Some s) = escape s).
  { intros s. unfold escapeMarkdown. simpl.
    destruct (String.eqb_spec s "") as [->|_]; reflexivity. }
  split; [reflexivity|]. split; [reflexivity|]. split.
  - intros s. rewrite Heq.
    split; [apply unescape_escape|]. split; [apply escaped_escape|].
    split; [apply escape_length | apply escape_plain].
  - intros s s'. rewrite !Heq. intros H.
    rewrite <- (unescape_escape s), <- (unescape_escape s'). now rewrite H.
Qed.

End EscapeProperties.

Section SecretProperties.
Import Js Normalizer.

(** The header the check reads: [authorization], or [x-webhook-secret]
    when that one is missing or empty. *)
Definition presented_header (request : Request.t) : option string :=
  or_str (Request.authorization request) (Request.x_webhook_secret request).

(** X21.  The webhook secret.  With no secret configured every request
    is accepted.  With a secret configured, a request is accepted exactly
    when the header read carries the secret, bare or after [Bearer ], or
    the query parameter carries it.  The header read is [authorization]
    whenever that one is not empty: a request whose [authorization] header
    is wrong is rejected even if its [x-webhook-secret] header carries the
    secret, unless the query parameter does. *)
Theorem validateWebhookSecret_accepts :
  forall (secret : option string) (request : Request.t),
    (truthy_str secret = false -> validateWebhookSecret secret request = true) /\
    (forall s : string,
        secret = Some s -> s <> "" ->
        (validateWebhookSecret secret request = true <->
         presented_header request = Some s
         \/ presented_header request = Some ("Bearer " ++ s)%string
         \/ Request.query_secret request = Some s)) /\
    (forall s other : string,
        secret = Some s -> s <> "" ->
        Request.authorization request = Some other ->
        other <> "" -> other <> s -> other <> ("Bearer " ++ s)%string ->
        Request.query_secret request <> Some s ->
        validateWebhookSecret secret request = false).
Proof.
  intros secret request.
  assert (Hiff : forall s : string,
        secret = Some s -> s <> "" ->
        (validateWebhookSecret secret request = true <->
         presented_header request = Some s
         \/ presented_header request = Some ("Bearer " ++ s)%string
         \/ Request.query_secret request = Some s)).
  { intros s -> Hne. unfold validateWebhookSecret.
    assert (Ht : truthy_str (Some s) = true) by now apply truthy_str_Some.
    rewrite Ht. cbn [negb default from_option id]. fold (presented_header request).
    assert (Heqb : forall (a : option string) (b : string),
               strict_eq a (Some b) = true <-> a = Some b).
    { intros [a|] b; simpl; [|split; discriminate].
      rewrite String.eqb_eq. split; [now intros -> | now intros [= ->]]. }
    destruct (strict_eq (presented_header request) (Some s)) eqn:E1.
    { apply Heqb in E1. simpl. tauto. }
    destruct (strict_eq (presented_header request) (Some ("Bearer " ++ s)%string))
      eqn:E2.
    { apply Heqb in E2. simpl. tauto. }
    simpl. rewrite Heqb. split; [tauto|].
    intros [H|[H|H]]; [| |exact H].
    - apply Heqb in H. congruence.
    - apply Heqb in H. congruence. }
  split; [|split; [exact Hiff|]].
  - intros Hs. unfold validateWebhookSecret. now rewrite Hs.
  - intros s other Hsecret Hne Hauth Hother Hns Hnb Hq.
    pose proof (Hiff s Hsecret Hne) as [Hforward _].
    destruct (validateWebhookSecret secret request); [|reflexivity].
    exfalso. specialize (Hforward eq_refl). rename Hforward into E.
    assert (Hp : presented_header request = Some other).
    { unfold presented_header, or_str. rewrite Hauth.
      assert (Ht : truthy_str (Some other) = true) by now apply truthy_str_Some.
      now rewrite Ht. }
    rewrite Hp in E. destruct E as [[= E]|[[= E]|E]]; contradiction.
Qed.

End SecretProperties.
